(** * mob: the asynchronous output pipe and the process supervisor

    A shallow embedding of [src/process.h] and [src/process.cpp].

    The C++ code talks to the operating system and to a logging context.
    Both are made explicit here:

    - every answer the operating system gives (the result of a system call
      and the value [GetLastError()] returns after it) is an input of the
      model, so that the theorems hold for every behaviour of the system;
    - every system call made and every line logged is appended to a
      [world], so that the theorems can speak about what the code did;
    - [bail_out], which throws, is the [Bailed] outcome of a small
      state-and-exception monad that keeps the state reached at the throw. *)

From Stdlib Require Import ZArith List String Ascii Bool Lia DecimalString.
Import ListNotations.

Local Open Scope string_scope.
Local Open Scope list_scope.
Local Open Scope Z_scope.

Set Implicit Arguments.

(** ** Machine integers and strings *)

(** [DWORD] is an unsigned 32-bit integer, [int] a signed one. *)
Definition DWORD_modulus : Z := 2 ^ 32.

Definition to_DWORD (z : Z) : Z := z mod DWORD_modulus.

(** [static_cast<int>] of a [DWORD]: the value with the same 32 bits. *)
Definition static_cast_int (d : Z) : Z :=
  (d + 2 ^ 31) mod DWORD_modulus - 2 ^ 31.

(** [std::to_string] on an unsigned integer: its decimal digits. *)
Definition to_string (d : Z) : string :=
  NilZero.string_of_uint (N.to_uint (Z.to_N d)).

(** The one-character string holding a double quote. *)
Definition dquote : string := String "034"%char EmptyString.

(** [std::string::empty]. *)
Definition empty (s : string) : bool :=
  match s with
  | EmptyString => true
  | String _ _ => false
  end.

(** [std::string::back], on a non-empty string. *)
Fixpoint back (s : string) : option ascii :=
  match s with
  | EmptyString => None
  | String c EmptyString => Some c
  | String _ rest => back rest
  end.

(** ** Constants of the Windows headers *)

Definition HANDLE := Z.

Definition WAIT_OBJECT_0 : Z := 0.
Definition WAIT_TIMEOUT : Z := 258.
Definition WAIT_FAILED : Z := 4294967295.
Definition ERROR_BROKEN_PIPE : Z := 109.
Definition ERROR_IO_INCOMPLETE : Z := 996.
Definition ERROR_IO_PENDING : Z := 997.
Definition CTRL_BREAK_EVENT : Z := 1.
Definition CREATE_NEW_PROCESS_GROUP : Z := 512.

(** ** The logging context *)

Module context.
Inductive reason := cmd | std_out | std_err.
Inductive level := trace | debug | info | warning | error.
End context.

Record log_event := Log {
  log_reason : context.reason;
  log_level : context.level;
  log_text : string
}.

(** ** System calls *)

(** The answer of a system call that reports failure through its return
    value: what it produced, or the value of [GetLastError()]. *)
Inductive answer (A : Type) :=
| Done (a : A)
| Fail (e : Z).

Arguments Fail {A} e.

(** Modelled from the spec: [mob::env] ([env.h]) is an opaque snapshot of
    environment variables handed to the child as it is. *)
Definition env := list (string * string).

(** The system calls the code makes, with the arguments that matter and,
    for the overlapped reads, the answer received. [CreateProcessA] is
    recorded with the application, the command line, the creation flags,
    the working directory, the environment and the two handles that
    [STARTUPINFOA] gives the child for its output. *)
Inductive syscall :=
| CreateNamedPipeA (pipe_name : string)
| DuplicateHandle (h : HANDLE)
| CreateFileA (pipe_name : string)
| CreateEvent
| ReadFile (h : HANDLE) (r : answer string)
| WaitForSingleObject (h : HANDLE) (timeout : Z)
| GetOverlappedResult (h : HANDLE) (r : answer string)
| ResetEvent (h : HANDLE)
| create_directories (path : string)
| CreateProcessA (app args : string) (creation_flags : Z) (cwd : option string)
    (environment : env) (hStdOutput hStdError : HANDLE)
| CloseHandle (h : HANDLE)
| GetExitCodeProcess (h : HANDLE)
| TerminateProcess (h : HANDLE) (exit_code : Z)
| GetProcessId (h : HANDLE)
| GenerateConsoleCtrlEvent (event pid : Z).

(** What the program has done so far, oldest first; [pipe_id] is the static
    counter of [async_pipe::create_pipe]. *)
Record world := World {
  w_log : list log_event;
  w_sys : list syscall;
  pipe_id : Z
}.

Definition add_log (e : log_event) (w : world) : world :=
  World (w_log w ++ [e]) (w_sys w) (pipe_id w).

Definition add_sys (c : syscall) (w : world) : world :=
  World (w_log w) (w_sys w ++ [c]) (pipe_id w).

Definition set_pipe_id (n : Z) (w : world) : world :=
  World (w_log w) (w_sys w) n.

(** ** The monad of member functions *)

(** A member function either returns, or throws ([bail_out]), or is still
    blocked in its polling loop when the recorded answers of the system are
    used up. *)
Inductive outcome (A : Type) :=
| Ok (a : A)
| Bailed (msg : string) (e : option Z)
| Polling.

Arguments Bailed {A} msg e.
Arguments Polling {A}.

(** A member function of an object of type [O]: a state transformer over
    the object and the world with an outcome. *)
Definition M (O A : Type) : Type := O -> world -> outcome A * O * world.

Definition ret {O A} (a : A) : M O A := fun o w => (Ok a, o, w).

Definition bind {O A B} (m : M O A) (k : A -> M O B) : M O B :=
  fun o w =>
    match m o w with
    | (Ok a, o', w') => k a o' w'
    | (Bailed msg e, o', w') => (Bailed msg e, o', w')
    | (Polling, o', w') => (Polling, o', w')
    end.

Declare Scope member_scope.
Delimit Scope member_scope with member.
Notation "x <- m ;; k" := (bind m (fun x => k))
  (at level 61, m at next level, right associativity) : member_scope.
Notation "m ;; k" := (bind m (fun _ => k))
  (at level 61, right associativity) : member_scope.
Local Open Scope member_scope.

Definition this {O} : M O O := fun o w => (Ok o, o, w).
Definition assign {O} (f : O -> O) : M O unit := fun o w => (Ok tt, f o, w).
Definition the_world {O} : M O world := fun o w => (Ok w, o, w).
Definition system {O} (c : syscall) : M O unit := fun o w => (Ok tt, o, add_sys c w).
Definition still_polling {O A} : M O A := fun o w => (Polling, o, w).

(** Modelled from the spec: [bail_out] ([utility.h] and [context.h] are not
    part of the sources at hand) aborts the current operation with a message
    and, when given, the underlying system error code. *)
Definition bail_out {O A} (msg : string) (e : option Z) : M O A :=
  fun o w => (Bailed msg e, o, w).

(** Modelled from the spec: the logging collaborator ([context.h]) receives
    (reason, level, text) events; [trace], [debug] and [error] are [log] at
    that level. *)
Definition log {O} (r : context.reason) (lv : context.level) (s : string) : M O unit :=
  fun o w => (Ok tt, o, add_log (Log r lv s) w).

Definition trace {O} (r : context.reason) (s : string) : M O unit := log r context.trace s.
Definition debug {O} (r : context.reason) (s : string) : M O unit := log r context.debug s.
Definition error {O} (r : context.reason) (s : string) : M O unit := log r context.error s.

(** [try { m } catch (...) { }]. *)
Definition try_catch_all {O} (m : M O unit) : M O unit :=
  fun o w =>
    match m o w with
    | (Bailed _ _, o', w') => (Ok tt, o', w')
    | r => r
    end.

(** A member function of a sub-object, called on the object holding it. *)
Definition on_member {O P A} (get : O -> P) (set : P -> O -> O) (m : M P A) : M O A :=
  fun o w =>
    match m (get o) w with
    | (r, p', w') => (r, set p' o, w')
    end.

(** ** handle_ptr *)

(** Modelled from the spec: [handle_ptr] ([utility.h]) owns one system
    handle exclusively, or is empty; it is used here like a
    [std::unique_ptr]: [get], [reset], the test [!h] and the assignment
    [h = {}]. The release of the handle it held is its own business and is
    not recorded among the system calls. *)
Definition handle_ptr := option HANDLE.

Definition get (h : handle_ptr) : HANDLE :=
  match h with
  | Some v => v
  | None => 0
  end.

Definition reset (v : HANDLE) : handle_ptr :=
  if v =? 0 then None else Some v.

Definition is_empty (h : handle_ptr) : bool :=
  match h with
  | Some _ => false
  | None => true
  end.

(** ** async_pipe *)

Record async_pipe := AsyncPipe {
  stdout_ : handle_ptr;
  event_ : handle_ptr;
  pending_ : bool
}.

Definition buffer_size : Z := 50000.
Definition pipe_timeout : Z := 500.
Definition INVALID_HANDLE_VALUE : HANDLE := -1.

(** [async_pipe::async_pipe()] *)
Definition async_pipe_ctor : async_pipe := AsyncPipe None None false.

Definition set_stdout_ (h : handle_ptr) (p : async_pipe) : async_pipe :=
  AsyncPipe h (event_ p) (pending_ p).
Definition set_event_ (h : handle_ptr) (p : async_pipe) : async_pipe :=
  AsyncPipe (stdout_ p) h (pending_ p).
Definition set_pending_ (b : bool) (p : async_pipe) : async_pipe :=
  AsyncPipe (stdout_ p) (event_ p) b.

(** The answers of the system to one call of [async_pipe::read]. *)
Record read_answers := ReadAnswers {
  on_ReadFile : answer string;
  on_WaitForSingleObject : Z;
  on_WaitForSingleObject_error : Z;
  on_GetOverlappedResult : answer string
}.

(** [async_pipe::try_read] *)
Definition try_read (a : read_answers) : M async_pipe string :=
  p <- this ;;
  system (ReadFile (get (stdout_ p)) (on_ReadFile a)) ;;
  match on_ReadFile a with
  | Fail e =>
      (if e =? ERROR_IO_PENDING then assign (set_pending_ true)
       else if e =? ERROR_BROKEN_PIPE then ret tt
       else bail_out "async_pipe read failed" (Some e)) ;;
      ret EmptyString
  | Done bytes => ret bytes
  end.

(** [async_pipe::check_pending] *)
Definition check_pending (a : read_answers) : M async_pipe string :=
  p <- this ;;
  system (WaitForSingleObject (get (event_ p)) pipe_timeout) ;;
  (if on_WaitForSingleObject a =? WAIT_FAILED
   then bail_out "WaitForSingleObject in async_pipe failed"
          (Some (on_WaitForSingleObject_error a))
   else ret tt) ;;
  system (GetOverlappedResult (get (stdout_ p)) (on_GetOverlappedResult a)) ;;
  match on_GetOverlappedResult a with
  | Fail e =>
      (if e =? ERROR_IO_INCOMPLETE then ret tt
       else if e =? WAIT_TIMEOUT then ret tt
       else if e =? ERROR_BROKEN_PIPE then ret tt
       else bail_out "GetOverlappedResult failed in async_pipe" (Some e)) ;;
      ret EmptyString
  | Done bytes =>
      system (ResetEvent (get (event_ p))) ;;
      assign (set_pending_ false) ;;
      ret bytes
  end.

(** [async_pipe::read] *)
Definition read (a : read_answers) : M async_pipe string :=
  p <- this ;;
  if pending_ p then check_pending a else try_read a.

(** The answers of the system to one call of [async_pipe::create]. *)
Record create_answers := CreateAnswers {
  on_CreateNamedPipeA : answer HANDLE;
  on_DuplicateHandle : answer HANDLE;
  on_CreateFileA : answer HANDLE;
  on_CreateEvent : answer HANDLE
}.

Definition pipe_name_prefix : string := "\\.\pipe\mob_pipe".

(** [async_pipe::create_pipe]. The counter is kept as an integer without
    bound: it is the [int] of the source as long as it stays below 2^31,
    which the theorems about it assume. *)
Definition create_pipe (a : create_answers) : M async_pipe HANDLE :=
  w <- the_world ;;
  (fun o w' => (Ok tt, o, set_pipe_id (pipe_id w + 1) w')) ;;
  let pipe_name := (pipe_name_prefix ++ to_string (pipe_id w + 1))%string in
  system (CreateNamedPipeA pipe_name) ;;
  match on_CreateNamedPipeA a with
  | Fail e => bail_out "CreateNamedPipe failed" (Some e)
  | Done pipe_handle =>
      system (DuplicateHandle pipe_handle) ;;
      match on_DuplicateHandle a with
      | Fail e => bail_out "DuplicateHandle for pipe" (Some e)
      | Done output_read =>
          assign (set_stdout_ (reset output_read)) ;;
          system (CreateFileA pipe_name) ;;
          match on_CreateFileA a with
          | Fail e => bail_out "CreateFileW for pipe failed" (Some e)
          | Done output_write => ret output_write
          end
      end
  end.

(** [async_pipe::create] *)
Definition create (a : create_answers) : M async_pipe handle_ptr :=
  h <- create_pipe a ;;
  let out := reset h in
  if get out =? INVALID_HANDLE_VALUE then ret None
  else
    system CreateEvent ;;
    match on_CreateEvent a with
    | Fail e => bail_out "CreateEvent failed" (Some e)
    | Done hEvent =>
        assign (set_event_ (reset hEvent)) ;;
        ret out
    end.

(** ** process: the configuration *)

(** [enum flags_t] *)
Definition noflags : Z := 0.
Definition allow_failure : Z := 1.
Definition terminate_on_interrupt : Z := 2.

(** [enum arg_flags] *)
Definition noargflags : Z := 0.
Definition verbose : Z := 1.
Definition quiet : Z := 2.
Definition nospace : Z := 4.
Definition quote : Z := 8.

(** [(f & flag)] used as a condition. *)
Definition has (f flag : Z) : bool := negb (Z.land f flag =? 0).

(** [struct filter] and [filter_fun]; a filter function changes the filter
    it is given, here it returns the changed one. *)
Record filter := Filter {
  line : string;
  r : context.reason;
  lv : context.level;
  ignore : bool
}.

Definition filter_fun := filter -> filter.

(** [struct process::impl] *)
Record impl := Impl {
  handle : handle_ptr;
  interrupt : bool;
  stdout_pipe : async_pipe;
  stderr_pipe : async_pipe
}.

Definition set_handle (h : handle_ptr) (i : impl) : impl :=
  Impl h (interrupt i) (stdout_pipe i) (stderr_pipe i).
Definition set_interrupt (b : bool) (i : impl) : impl :=
  Impl (handle i) b (stdout_pipe i) (stderr_pipe i).
Definition set_stdout_pipe (p : async_pipe) (i : impl) : impl :=
  Impl (handle i) (interrupt i) p (stderr_pipe i).
Definition set_stderr_pipe (p : async_pipe) (i : impl) : impl :=
  Impl (handle i) (interrupt i) (stdout_pipe i) p.

(** [impl() = default] *)
Definition impl_ctor : impl := Impl None false async_pipe_ctor async_pipe_ctor.

(** [impl::impl(const impl&)]: only the interrupt flag is copied. *)
Definition impl_copy (i : impl) : impl :=
  Impl None (interrupt i) async_pipe_ctor async_pipe_ctor.

(** [class process]; paths are kept as their [string()]. The context [cx_]
    is the log of the world. *)
Record process := Process {
  name_ : string;
  bin_ : string;
  cwd_ : string;
  flags_ : Z;
  stdout_level_ : context.level;
  stdout_filter_ : option filter_fun;
  stderr_level_ : context.level;
  stderr_filter_ : option filter_fun;
  env_ : env;
  raw_ : string;
  cmd_ : string;
  impl_ : impl;
  code_ : Z
}.

Definition set_name_ (v : string) (p : process) : process :=
  Process v (bin_ p) (cwd_ p) (flags_ p) (stdout_level_ p) (stdout_filter_ p)
    (stderr_level_ p) (stderr_filter_ p) (env_ p) (raw_ p) (cmd_ p) (impl_ p) (code_ p).
Definition set_bin_ (v : string) (p : process) : process :=
  Process (name_ p) v (cwd_ p) (flags_ p) (stdout_level_ p) (stdout_filter_ p)
    (stderr_level_ p) (stderr_filter_ p) (env_ p) (raw_ p) (cmd_ p) (impl_ p) (code_ p).
Definition set_cwd_ (v : string) (p : process) : process :=
  Process (name_ p) (bin_ p) v (flags_ p) (stdout_level_ p) (stdout_filter_ p)
    (stderr_level_ p) (stderr_filter_ p) (env_ p) (raw_ p) (cmd_ p) (impl_ p) (code_ p).
Definition set_flags_ (v : Z) (p : process) : process :=
  Process (name_ p) (bin_ p) (cwd_ p) v (stdout_level_ p) (stdout_filter_ p)
    (stderr_level_ p) (stderr_filter_ p) (env_ p) (raw_ p) (cmd_ p) (impl_ p) (code_ p).
Definition set_stdout_level_ (v : context.level) (p : process) : process :=
  Process (name_ p) (bin_ p) (cwd_ p) (flags_ p) v (stdout_filter_ p)
    (stderr_level_ p) (stderr_filter_ p) (env_ p) (raw_ p) (cmd_ p) (impl_ p) (code_ p).
Definition set_stdout_filter_ (v : option filter_fun) (p : process) : process :=
  Process (name_ p) (bin_ p) (cwd_ p) (flags_ p) (stdout_level_ p) v
    (stderr_level_ p) (stderr_filter_ p) (env_ p) (raw_ p) (cmd_ p) (impl_ p) (code_ p).
Definition set_stderr_level_ (v : context.level) (p : process) : process :=
  Process (name_ p) (bin_ p) (cwd_ p) (flags_ p) (stdout_level_ p) (stdout_filter_ p)
    v (stderr_filter_ p) (env_ p) (raw_ p) (cmd_ p) (impl_ p) (code_ p).
Definition set_stderr_filter_ (v : option filter_fun) (p : process) : process :=
  Process (name_ p) (bin_ p) (cwd_ p) (flags_ p) (stdout_level_ p) (stdout_filter_ p)
    (stderr_level_ p) v (env_ p) (raw_ p) (cmd_ p) (impl_ p) (code_ p).
Definition set_env_ (v : env) (p : process) : process :=
  Process (name_ p) (bin_ p) (cwd_ p) (flags_ p) (stdout_level_ p) (stdout_filter_ p)
    (stderr_level_ p) (stderr_filter_ p) v (raw_ p) (cmd_ p) (impl_ p) (code_ p).
Definition set_raw_ (v : string) (p : process) : process :=
  Process (name_ p) (bin_ p) (cwd_ p) (flags_ p) (stdout_level_ p) (stdout_filter_ p)
    (stderr_level_ p) (stderr_filter_ p) (env_ p) v (cmd_ p) (impl_ p) (code_ p).
Definition set_cmd_ (v : string) (p : process) : process :=
  Process (name_ p) (bin_ p) (cwd_ p) (flags_ p) (stdout_level_ p) (stdout_filter_ p)
    (stderr_level_ p) (stderr_filter_ p) (env_ p) (raw_ p) v (impl_ p) (code_ p).
Definition set_impl_ (v : impl) (p : process) : process :=
  Process (name_ p) (bin_ p) (cwd_ p) (flags_ p) (stdout_level_ p) (stdout_filter_ p)
    (stderr_level_ p) (stderr_filter_ p) (env_ p) (raw_ p) (cmd_ p) v (code_ p).
Definition set_code_ (v : Z) (p : process) : process :=
  Process (name_ p) (bin_ p) (cwd_ p) (flags_ p) (stdout_level_ p) (stdout_filter_ p)
    (stderr_level_ p) (stderr_filter_ p) (env_ p) (raw_ p) (cmd_ p) (impl_ p) v.

(** The constructor [process::process]. *)
Definition process_ctor : process :=
  Process EmptyString EmptyString EmptyString noflags context.trace None
    context.error None [] EmptyString EmptyString
    impl_ctor 0.

(** The implicit copy constructor: member by member, [impl_] through
    [impl::impl(const impl&)]. *)
Definition process_copy (p : process) : process :=
  set_impl_ (impl_copy (impl_ p)) p.

(** [impl& impl::operator=(const impl&)]: only the interrupt flag is
    assigned; the handle and the pipes of the assigned-to object stay. *)
Definition impl_assign (i : impl) (this : impl) : impl :=
  set_interrupt (interrupt i) this.

(** The implicit copy assignment [*this = q]: member by member, [impl_]
    through [impl::operator=]. *)
Definition process_assign (q : process) (this : process) : process :=
  Process (name_ q) (bin_ q) (cwd_ q) (flags_ q) (stdout_level_ q)
    (stdout_filter_ q) (stderr_level_ q) (stderr_filter_ q) (env_ q) (raw_ q)
    (cmd_ q) (impl_assign (impl_ q) (impl_ this)) (code_ q).

(** [process::raw] *)
Definition raw (cmd : string) : process := set_raw_ cmd process_ctor.

(** The setters of the fluent interface. *)
Definition name (n : string) (p : process) : process := set_name_ n p.
Definition binary (b : string) (p : process) : process := set_bin_ b p.
Definition cwd (d : string) (p : process) : process := set_cwd_ d p.
Definition stdout_level (l : context.level) (p : process) : process := set_stdout_level_ l p.
Definition stdout_filter (f : filter_fun) (p : process) : process := set_stdout_filter_ (Some f) p.
Definition stderr_level (l : context.level) (p : process) : process := set_stderr_level_ l p.
Definition stderr_filter (f : filter_fun) (p : process) : process := set_stderr_filter_ (Some f) p.
Definition flags (f : Z) (p : process) : process := set_flags_ f p.
Definition with_env (e : env) (p : process) : process := set_env_ e p.

(** [process::make_cmd] *)
Definition make_cmd (p : process) : string :=
  if negb (empty (raw_ p)) then raw_ p
  else (dquote ++ bin_ p ++ dquote ++ cmd_ p)%string.

(** [process::make_name] *)
Definition make_name (p : process) : string :=
  if negb (empty (name_ p)) then name_ p else make_cmd p.

(** [process::pipe_into] *)
Definition pipe_into (p : process) (this : process) : process :=
  set_raw_ (make_cmd this ++ " | " ++ make_cmd p)%string this.

(** [process::pipe]: the overload for one process returns it; the variadic
    one copies [p1] into [r], pipes [r] into [p2], calls itself on [r] and
    the remaining processes, and returns [r]. The call on the remaining
    processes takes [r] by reference to const and returns a process of its
    own, which the caller drops. *)
Fixpoint pipe (p1 : process) (ps : list process) : process :=
  match ps with
  | [] => process_copy p1
  | p2 :: ps' =>
      let r := process_copy p1 in
      let r := pipe_into p2 r in
      let dropped := pipe r ps' in
      r
  end.

(** [process::exit_code] *)
Definition exit_code (p : process) : Z := static_cast_int (code_ p).

(** ** process: arguments *)

(** The values [arg] accepts, by the overload of [arg_to_string] that
    renders them. *)
Inductive arg_value :=
| text (s : string)
| path (p : string)
| url (u : string).

(** [process::arg_to_string], the four overloads. *)
Definition arg_to_string (v : arg_value) (force_quote : bool) : string :=
  match v with
  | text s => if force_quote then (dquote ++ s ++ dquote)%string else s
  | path p => (dquote ++ p ++ dquote)%string
  | url u => if force_quote then (dquote ++ u ++ dquote)%string else u
  end.

Definition ends_with_equals (k : string) : bool :=
  match back k with
  | Some c => Ascii.eqb c "="%char
  | None => false
  end.

(** [process::add_arg]; [log_trace] is [conf::log_trace()]. *)
Definition add_arg (log_trace : bool) (k v : string) (f : Z) (p : process) : process :=
  if has f verbose && negb log_trace then p
  else if has f quiet && log_trace then p
  else if empty k && empty v then p
  else if empty k then set_cmd_ (cmd_ p ++ " " ++ v)%string p
  else if has f nospace || ends_with_equals k
       then set_cmd_ (cmd_ p ++ " " ++ k ++ v)%string p
  else set_cmd_ (cmd_ p ++ " " ++ k ++ " " ++ v)%string p.

(** [process::arg(value, f)] *)
Definition arg (log_trace : bool) (value : arg_value) (f : Z) (p : process) : process :=
  add_arg log_trace EmptyString (arg_to_string value (has f quote)) f p.

(** [process::arg(name, value, f)] *)
Definition arg2 (log_trace : bool) (name : string) (value : arg_value) (f : Z)
    (p : process) : process :=
  add_arg log_trace name (arg_to_string value (has f quote)) f p.

(** [process::args] on a container of pairs. *)
Definition args2 (log_trace : bool) (v : list (string * arg_value)) (f : Z)
    (p : process) : process :=
  fold_left (fun q nv => arg2 log_trace (fst nv) (snd nv) f q) v p.

(** [process::args] on a container of strings. *)
Definition args (log_trace : bool) (v : list string) (f : Z) (p : process) : process :=
  fold_left (fun q e => add_arg log_trace e EmptyString f q) v p.

(** ** process: run, interrupt, join *)

Definition set_impl_handle (h : handle_ptr) (p : process) : process :=
  set_impl_ (set_handle h (impl_ p)) p.
Definition set_impl_interrupt (b : bool) (p : process) : process :=
  set_impl_ (set_interrupt b (impl_ p)) p.
Definition set_impl_stdout_pipe (a : async_pipe) (p : process) : process :=
  set_impl_ (set_stdout_pipe a (impl_ p)) p.
Definition set_impl_stderr_pipe (a : async_pipe) (p : process) : process :=
  set_impl_ (set_stderr_pipe a (impl_ p)) p.

(** [impl_.stdout_pipe.m()] and [impl_.stderr_pipe.m()] *)
Definition on_stdout_pipe {A} (m : M async_pipe A) : M process A :=
  on_member (fun p => stdout_pipe (impl_ p)) set_impl_stdout_pipe m.
Definition on_stderr_pipe {A} (m : M async_pipe A) : M process A :=
  on_member (fun p => stderr_pipe (impl_ p)) set_impl_stderr_pipe m.

(** [if (c) m;] *)
Definition when {O} (c : bool) (m : M O unit) : M O unit :=
  if c then m else ret tt.

(** [for (auto&& x : l) f(x);] *)
Fixpoint for_each {O A} (l : list A) (f : A -> M O unit) : M O unit :=
  match l with
  | [] => ret tt
  | x :: l' => f x ;; for_each l' f
  end.

Record PROCESS_INFORMATION := ProcessInformation {
  hProcess : HANDLE;
  hThread : HANDLE;
  dwProcessId : Z
}.

(** The answers of the system to one call of [process::do_run]; [COMSPEC]
    is the value of that environment variable. *)
Record spawn_answers := SpawnAnswers {
  on_stdout_create : create_answers;
  on_stderr_create : create_answers;
  COMSPEC : string;
  on_CreateProcessA : answer PROCESS_INFORMATION
}.

(** [process::do_run] *)
Definition do_run (a : spawn_answers) (what : string) : M process unit :=
  process_stdout <- on_stdout_pipe (create (on_stdout_create a)) ;;
  process_stderr <- on_stderr_pipe (create (on_stderr_create a)) ;;
  let cmd := COMSPEC a in
  let args := ("/C " ++ dquote ++ what ++ dquote)%string in
  p <- this ;;
  when (negb (empty (cwd_ p))) (system (create_directories (cwd_ p))) ;;
  let cwd_p := if empty (cwd_ p) then None else Some (cwd_ p) in
  trace context.cmd "creating process" ;;
  system (CreateProcessA cmd args CREATE_NEW_PROCESS_GROUP cwd_p (env_ p)
            (get process_stdout) (get process_stderr)) ;;
  match on_CreateProcessA a with
  | Fail e => bail_out ("failed to start '" ++ cmd ++ "'")%string (Some e)
  | Done pi =>
      trace context.cmd ("pid " ++ to_string (dwProcessId pi))%string ;;
      system (CloseHandle (hThread pi)) ;;
      assign (set_impl_handle (reset (hProcess pi)))
  end.

(** [process::run]; [dry] is [conf::dry()]. *)
Definition run (dry : bool) (a : spawn_answers) : M process unit :=
  p <- this ;;
  when (negb (empty (cwd_ p))) (debug context.cmd ("> cd " ++ cwd_ p)%string) ;;
  let what := make_cmd p in
  debug context.cmd ("> " ++ what)%string ;;
  if dry then ret tt
  else do_run a what.

(** [process::interrupt] *)
Definition process_interrupt : M process unit :=
  assign (set_impl_interrupt true) ;;
  trace context.cmd "will interrupt".

(** The answers of the system during one turn of the loop of
    [process::join], and whether another thread has called
    [process::interrupt] since the turn before. *)
Record poll := Poll {
  interrupt_called : bool;
  on_wait : Z;
  on_wait_error : Z;
  on_stdout_read : read_answers;
  on_stderr_read : read_answers;
  on_GetExitCodeProcess : Z;
  on_GetProcessId : Z
}.

Section Supervisor.

(** [for_each_line] ([utility.h]) is not part of the sources at hand: the
    lines it hands to its callback, in order, for a chunk of output. *)
Variable for_each_line : string -> list string.

(** The callback of [read_pipes] for one line of a stream. *)
Definition log_line (rs : context.reason) (level : context.level)
    (flt : option filter_fun) (l : string) : M process unit :=
  let f := Filter l rs level false in
  match flt with
  | Some fn =>
      let f := fn f in
      if ignore f then ret tt
      else log (r f) (lv f) (line f)
  | None => log (r f) (lv f) (line f)
  end.

(** [process::read_pipes] *)
Definition read_pipes (ev : poll) : M process unit :=
  p <- this ;;
  s <- on_stdout_pipe (read (on_stdout_read ev)) ;;
  for_each (for_each_line s)
    (log_line context.std_out (stdout_level_ p) (stdout_filter_ p)) ;;
  s <- on_stderr_pipe (read (on_stderr_read ev)) ;;
  for_each (for_each_line s)
    (log_line context.std_err (stderr_level_ p) (stderr_filter_ p)).

(** How a turn of a [for (;;)] loop ends, with the value of the local
    [interrupted] at that point. *)
Inductive control :=
| Break (interrupted : bool)
| Continue (interrupted : bool).

(** The body of the [for (;;)] loop of [process::join]. *)
Definition join_turn (ev : poll) (interrupted : bool) : M process control :=
  when (interrupt_called ev) process_interrupt ;;
  p <- this ;;
  system (WaitForSingleObject (get (handle (impl_ p))) 100) ;;
  if on_wait ev =? WAIT_OBJECT_0 then
    read_pipes ev ;;
    system (GetExitCodeProcess (get (handle (impl_ p)))) ;;
    assign (set_code_ (to_DWORD (on_GetExitCodeProcess ev))) ;;
    p <- this ;;
    debug context.cmd
      ("process completed, exit code " ++ to_string (code_ p))%string ;;
    if interrupt (impl_ p) then ret (Break interrupted)
    else if negb (code_ p =? 0) then
      if has (flags_ p) allow_failure then
        debug context.cmd "process failed but failure was allowed" ;;
        ret (Break interrupted)
      else
        assign (set_impl_handle None) ;;
        bail_out (make_name p ++ " returned " ++ to_string (code_ p))%string None
    else ret (Break interrupted)
  else if on_wait ev =? WAIT_TIMEOUT then
    read_pipes ev ;;
    p <- this ;;
    if interrupt (impl_ p) && negb interrupted then
      if has (flags_ p) terminate_on_interrupt then
        trace context.cmd "terminating process (flag is set)" ;;
        system (TerminateProcess (get (handle (impl_ p))) 65535) ;;
        ret (Break interrupted)
      else
        system (GetProcessId (get (handle (impl_ p)))) ;;
        let pid := to_DWORD (on_GetProcessId ev) in
        if pid =? 0 then
          error context.cmd "process id is 0, terminating instead" ;;
          system (TerminateProcess (get (handle (impl_ p))) 65535) ;;
          ret (Break interrupted)
        else
          error context.cmd ("sending sigint to " ++ to_string pid)%string ;;
          system (GenerateConsoleCtrlEvent CTRL_BREAK_EVENT pid) ;;
          ret (Continue true)
    else ret (Continue interrupted)
  else
    assign (set_impl_handle None) ;;
    bail_out "failed to wait on process" (Some (on_wait_error ev)).

(** The [for (;;)] loop of [process::join]: it takes one [poll] a turn, and
    is still polling when there is none left. It returns the value of
    [interrupted] at the [break]. *)
Fixpoint join_loop (evs : list poll) (interrupted : bool) : M process bool :=
  match evs with
  | [] => still_polling
  | ev :: evs' =>
      c <- join_turn ev interrupted ;;
      match c with
      | Break b => ret b
      | Continue b => join_loop evs' b
      end
  end.

(** [process::join] *)
Definition join (evs : list poll) : M process unit :=
  p <- this ;;
  if is_empty (handle (impl_ p)) then ret tt
  else
    trace context.cmd "joining" ;;
    interrupted <- join_loop evs false ;;
    when interrupted (trace context.cmd "process interrupted and finished") ;;
    assign (set_impl_handle None).

(** The destructor [process::~process]. *)
Definition process_dtor (evs : list poll) : M process unit :=
  try_catch_all (join evs).

End Supervisor.

(** ** Sample inputs *)

(** A read that finds no data: [ReadFile] starts an overlapped read, the
    wait on the event times out and the read is still incomplete. *)
Definition no_data : read_answers :=
  ReadAnswers (Fail ERROR_IO_PENDING) WAIT_TIMEOUT 0 (Fail ERROR_IO_INCOMPLETE).

(** A turn of the loop in which the child is still running. *)
Definition still_running : poll :=
  Poll false WAIT_TIMEOUT 0 no_data no_data 0 4242.

(** The same, after another thread has called [interrupt()]. *)
Definition interrupt_arrives : poll :=
  Poll true WAIT_TIMEOUT 0 no_data no_data 0 4242.

(** A turn of the loop in which the child has exited with [code]. *)
Definition exited (code : Z) : poll :=
  Poll false WAIT_OBJECT_0 0 no_data no_data code 4242.

(** A turn of the loop in which the wait on the child fails. *)
Definition wait_fails : poll :=
  Poll false WAIT_FAILED 6 no_data no_data 0 4242.

Definition empty_world : world := World [] [] 0.

(** A supervisor whose child is running under the handle 77. *)
Definition running (p : process) : process := set_impl_handle (Some 77) p.

(** One line a chunk, for the samples. *)
Definition whole_chunk (s : string) : list string := [s].

Definition spawn_fine : spawn_answers :=
  let c := CreateAnswers (Done 11) (Done 12) (Done 13) (Done 14) in
  SpawnAnswers c c "cmd.exe" (Done (ProcessInformation 77 78 4242)).

(** ** Vocabulary of the statements *)

(** A fragment is taken when neither tag excludes it. *)
Definition included (log_trace : bool) (f : Z) : bool :=
  negb (has f verbose && negb log_trace) && negb (has f quiet && log_trace).

Definition count (f : syscall -> bool) (l : list syscall) : Z :=
  Z.of_nat (List.length (List.filter f l)).

(** An overlapped read on the handle [h] is started by a [ReadFile] that
    answers [ERROR_IO_PENDING] and is over when [GetOverlappedResult]
    delivers its bytes. *)
Definition starts_read (h : HANDLE) (c : syscall) : bool :=
  match c with
  | ReadFile h' (Fail e) => (h' =? h) && (e =? ERROR_IO_PENDING)
  | _ => false
  end.

Definition completes_read (h : HANDLE) (c : syscall) : bool :=
  match c with
  | GetOverlappedResult h' (Done _) => h' =? h
  | _ => false
  end.

Definition is_ReadFile (c : syscall) : bool :=
  match c with
  | ReadFile _ _ => true
  | _ => false
  end.

(** The overlapped reads on [h] that are started and not over. *)
Definition outstanding (h : HANDLE) (l : list syscall) : Z :=
  count (starts_read h) l - count (completes_read h) l.

(** The flag [pending_] of a pipe tells whether a read is outstanding. *)
Definition pending_is_outstanding (p : async_pipe) (w : world) : Prop :=
  outstanding (get (stdout_ p)) (w_sys w) = if pending_ p then 1 else 0.

(** Successive calls of [read], whatever each of them returns or throws. *)
Fixpoint read_repeatedly (l : list read_answers) (p : async_pipe) (w : world)
    : async_pipe * world :=
  match l with
  | [] => (p, w)
  | a :: l' =>
      match read a p w with
      | (_, p', w') => read_repeatedly l' p' w'
      end
  end.

Definition is_bailed {A O} (x : outcome A * O * world) : bool :=
  match x with
  | (Bailed _ _, _, _) => true
  | _ => false
  end.

(** The error codes [try_read] and [check_pending] do not expect. *)
Definition unexpected_ReadFile_error (e : Z) : bool :=
  negb (e =? ERROR_IO_PENDING) && negb (e =? ERROR_BROKEN_PIPE).

Definition unexpected_GetOverlappedResult_error (e : Z) : bool :=
  negb (e =? ERROR_IO_INCOMPLETE) && negb (e =? WAIT_TIMEOUT)
  && negb (e =? ERROR_BROKEN_PIPE).

(** The answers of the system that are fatal to a [read]. *)
Definition fatal_read (pending : bool) (a : read_answers) : bool :=
  if pending then
    (on_WaitForSingleObject a =? WAIT_FAILED)
    || match on_GetOverlappedResult a with
       | Fail e => unexpected_GetOverlappedResult_error e
       | Done _ => false
       end
  else
    match on_ReadFile a with
    | Fail e => unexpected_ReadFile_error e
    | Done _ => false
    end.

Definition pending_pipe : async_pipe := AsyncPipe (Some 12) (Some 14) true.

Definition pipe_broke : read_answers :=
  ReadAnswers (Fail ERROR_BROKEN_PIPE) WAIT_OBJECT_0 0 (Fail ERROR_BROKEN_PIPE).

(** The calls that signal the process group, kill the child, ask for its
    exit code, and create a process. *)
Definition is_break (c : syscall) : bool :=
  match c with
  | GenerateConsoleCtrlEvent _ _ => true
  | _ => false
  end.

Definition is_kill (c : syscall) : bool :=
  match c with
  | TerminateProcess _ _ => true
  | _ => false
  end.

Definition is_exit_query (c : syscall) : bool :=
  match c with
  | GetExitCodeProcess _ => true
  | _ => false
  end.

Definition is_spawn (c : syscall) : bool :=
  match c with
  | CreateProcessA _ _ _ _ _ _ _ => true
  | _ => false
  end.

(** The calls [async_pipe::read] makes. *)
Definition is_pipe_call (c : syscall) : bool :=
  match c with
  | ReadFile _ _ | WaitForSingleObject _ _ | GetOverlappedResult _ _
  | ResetEvent _ => true
  | _ => false
  end.

(** Answers that are fatal to no [read], pending or not. *)
Definition calm_read (a : read_answers) : bool :=
  negb (fatal_read true a) && negb (fatal_read false a).

(** A turn in which the wait on the child times out and the pipes can be
    read. *)
Definition calm_timeout (ev : poll) : bool :=
  (on_wait ev =? WAIT_TIMEOUT)
  && calm_read (on_stdout_read ev) && calm_read (on_stderr_read ev).

(** A turn in which the child is found to have exited and the pipes can be
    read. *)
Definition calm_exit (ev : poll) : bool :=
  (on_wait ev =? WAIT_OBJECT_0)
  && calm_read (on_stdout_read ev) && calm_read (on_stderr_read ev).

(** What a member function may leave unchanged: [f] of the object. *)
Definition preserves {A X} (f : process -> X) (m : M process A) : Prop :=
  forall p w, f (snd (fst (m p w))) = f p.

(** A member function that makes no system call counted by [f]. *)
Definition makes_no {O A} (f : syscall -> bool) (m : M O A) : Prop :=
  forall o w, count f (w_sys (snd (m o w))) = count f (w_sys w).

(** The configuration of a process: what [run] and [join] read. *)
Definition configuration (p : process) :=
  (name_ p, bin_ p, cwd_ p, flags_ p, raw_ p, cmd_ p).

(** What [run] and [join] read or decide on, the pipes apart. *)
Definition supervision (p : process) :=
  (configuration p, handle (impl_ p), interrupt (impl_ p), code_ p).

(** A turn in which the child is still running, the pipes can be read and
    no call of [interrupt()] has arrived. *)
Definition uneventful (ev : poll) : bool :=
  calm_timeout ev && negb (interrupt_called ev).

(** The signals to the process group a call of [join] may still send. *)
Definition budget (interrupted : bool) : Z := if interrupted then 0 else 1.

(** The public member functions of a process, as calls with their
    arguments and, for [run] and [join], the answers of the system. *)
Inductive call :=
| call_name (n : string)
| call_binary (b : string)
| call_cwd (d : string)
| call_stdout_level (l : context.level)
| call_stdout_filter (f : filter_fun)
| call_stderr_level (l : context.level)
| call_stderr_filter (f : filter_fun)
| call_flags (f : Z)
| call_env (e : env)
| call_arg (log_trace : bool) (value : arg_value) (f : Z)
| call_arg2 (log_trace : bool) (name : string) (value : arg_value) (f : Z)
| call_args (log_trace : bool) (v : list string) (f : Z)
| call_args2 (log_trace : bool) (v : list (string * arg_value)) (f : Z)
| call_run (dry : bool) (a : spawn_answers)
| call_interrupt
| call_join (evs : list poll).

Definition perform (for_each_line : string -> list string) (c : call)
    : M process unit :=
  match c with
  | call_name n => assign (name n)
  | call_binary b => assign (binary b)
  | call_cwd d => assign (cwd d)
  | call_stdout_level l => assign (stdout_level l)
  | call_stdout_filter f => assign (stdout_filter f)
  | call_stderr_level l => assign (stderr_level l)
  | call_stderr_filter f => assign (stderr_filter f)
  | call_flags f => assign (flags f)
  | call_env e => assign (with_env e)
  | call_arg t v f => assign (arg t v f)
  | call_arg2 t n v f => assign (arg2 t n v f)
  | call_args t v f => assign (args t v f)
  | call_args2 t v f => assign (args2 t v f)
  | call_run dry a => run dry a
  | call_interrupt => process_interrupt
  | call_join evs => join for_each_line evs
  end.

(** A sequence of calls on one process; a caller that catches what a call
    throws goes on with the process as the call left it. *)
Fixpoint perform_all (for_each_line : string -> list string) (cs : list call)
    (p : process) (w : world) : process * world :=
  match cs with
  | [] => (p, w)
  | c :: cs' =>
      match perform for_each_line c p w with
      | (_, p', w') => perform_all for_each_line cs' p' w'
      end
  end.

(** A call of [join] that finds the child exited. *)
Definition finds_exit (c : call) : bool :=
  match c with
  | call_join evs => existsb (fun ev => on_wait ev =? WAIT_OBJECT_0) evs
  | _ => false
  end.

(** ** Sample supervisors *)

(** The raw command [a] with a name, its child running. *)
Definition named_child (f : Z) : process :=
  running (flags f (name "b2" (raw "a"))).

(** A process whose child has exited with the code 7, [allow_failure]
    set. *)
Definition finished_child : process * world :=
  perform_all whole_chunk
    [call_flags allow_failure; call_run false spawn_fine; call_join [exited 7]]
    (raw "a") empty_world.

(** A child started with [terminate_on_interrupt], then [interrupt()]. *)
Definition interrupted_child : process * world :=
  perform_all whole_chunk
    [call_flags terminate_on_interrupt; call_run false spawn_fine; call_interrupt]
    (raw "a") empty_world.

From Stdlib Require DecimalN DecimalPos.

(** ** Vocabulary of the further statements *)

(** A turn in which both pipes can be read, whatever the wait answers. *)
Definition calm_reads (ev : poll) : bool :=
  calm_read (on_stdout_read ev) && calm_read (on_stderr_read ev).

Definition is_ok {A O} (x : outcome A * O * world) : bool :=
  match x with
  | (Ok _, _, _) => true
  | _ => false
  end.

(** The call that sends [CTRL_BREAK_EVENT] to the process group [pid]. *)
Definition breaks_group (pid : Z) (c : syscall) : bool :=
  match c with
  | GenerateConsoleCtrlEvent e q => (e =? CTRL_BREAK_EVENT) && (q =? pid)
  | _ => false
  end.

(** A property of the object that a member function keeps. *)
Definition keeps {A} (P : process -> Prop) (m : M process A) : Prop :=
  forall p w, P p -> P (snd (fst (m p w))).

(** A member function that leaves [f] of the object unchanged when it
    throws. *)
Definition throwing_keeps {A X} (f : process -> X) (m : M process A) : Prop :=
  forall p w, is_bailed (m p w) = true -> f (snd (fst (m p w))) = f p.

(** A member function that does not throw. *)
Definition never_throws {O A} (m : M O A) : Prop :=
  forall o w, is_bailed (m o w) = false.

(** The system makes a pipe: it answers each call of [async_pipe::create]
    with a handle, [output_read] for the end the parent reads,
    [output_write] for the end of the child and [hEvent] for the event.
    A call that succeeds does not answer the value that reports its
    failure: [INVALID_HANDLE_VALUE] for [CreateNamedPipeA] and
    [CreateFileA], [NULL] for [CreateEvent]. *)
Definition pipe_made (a : create_answers) (output_read output_write hEvent : HANDLE)
    : Prop :=
  (exists pipe_handle,
     on_CreateNamedPipeA a = Done pipe_handle /\
     pipe_handle <> INVALID_HANDLE_VALUE) /\
  on_DuplicateHandle a = Done output_read /\
  on_CreateFileA a = Done output_write /\
  on_CreateEvent a = Done hEvent /\
  output_write <> INVALID_HANDLE_VALUE /\
  hEvent <> 0.

Definition is_create_directories (c : syscall) : bool :=
  match c with
  | create_directories _ => true
  | _ => false
  end.

(** The name [create_pipe] gives the pipe when the counter reaches [n]. *)
Definition pipe_name (n : Z) : string := (pipe_name_prefix ++ to_string n)%string.

(** The names of the pipes created so far, oldest first. *)
Fixpoint pipe_names (l : list syscall) : list string :=
  match l with
  | [] => []
  | CreateNamedPipeA n :: l' => n :: pipe_names l'
  | _ :: l' => pipe_names l'
  end.

(** The pipes created so far are named after counts from 1 to the counter,
    each count at most once. *)
Definition pipes_named_apart (w : world) : Prop :=
  0 <= pipe_id w /\
  NoDup (pipe_names (w_sys w)) /\
  forall n, In n (pipe_names (w_sys w)) ->
            exists k, 1 <= k <= pipe_id w /\ n = pipe_name k.

(** A property of the world that a member function keeps. *)
Definition world_keeps {O A} (J : world -> Prop) (m : M O A) : Prop :=
  forall o w, J w -> J (snd (m o w)).

(** The strings of a list, one after the other. *)
Fixpoint join_strings (l : list string) : string :=
  match l with
  | [] => EmptyString
  | x :: l' => (x ++ join_strings l')%string
  end.

(** What [args] adds for one string of its container. *)
Definition key_only_fragment (nospaced : bool) (e : string) : string :=
  if empty e then EmptyString
  else if nospaced || ends_with_equals e then (" " ++ e)%string
  else (" " ++ e ++ " ")%string.

(** Everything of a process that is set before [run]. *)
Definition settings (p : process) :=
  (name_ p, bin_ p, cwd_ p, flags_ p, stdout_level_ p, stdout_filter_ p,
   stderr_level_ p, stderr_filter_ p, env_ p, raw_ p, cmd_ p).

(** A pipeline built two processes at a time, from the left. *)
Definition pipe_chain (p1 : process) (ps : list process) : process :=
  fold_left (fun r q => pipe r [q]) ps p1.

(** What a [read] returns when it returns: the bytes the system delivers,
    or nothing; [None] when it throws. *)
Definition delivered (pending : bool) (a : read_answers) : option string :=
  if fatal_read pending a then None
  else if pending then
    match on_GetOverlappedResult a with
    | Done bytes => Some bytes
    | Fail _ => Some EmptyString
    end
  else
    match on_ReadFile a with
    | Done bytes => Some bytes
    | Fail _ => Some EmptyString
    end.

(** The lines of a stream that reach the log: all of them without a filter,
    those the filter does not ignore with one, with the reason and level
    the filter leaves. *)
Definition forwarded (rs : context.reason) (level : context.level)
    (flt : option filter_fun) (lines : list string) : list log_event :=
  flat_map
    (fun l =>
       match flt with
       | None => [Log rs level l]
       | Some fn =>
           let f := fn (Filter l rs level false) in
           if ignore f then [] else [Log (r f) (lv f) l]
       end)
    lines.

(** A filter function cannot change the line: it is a const member. *)
Definition keeps_line (flt : option filter_fun) : Prop :=
  match flt with
  | None => True
  | Some fn => forall x, line (fn x) = line x
  end.

(** Answers in which [GetOverlappedResult] does not complete a read. *)
Definition incomplete (a : read_answers) : bool :=
  match on_GetOverlappedResult a with
  | Done _ => false
  | Fail _ => true
  end.

(** ** tasks/boost.cpp *)

Section Boost.

(** What [boost.cpp] uses and the sources at hand do not hold: the values
    of [enum arch]; [paths::build()]; [operator/] of [fs::path] on the
    strings of two paths; [versions::boost()], [versions::vs_toolset()]
    and [versions::boost_vs()]; [replace_all] of [utility.h]; [env::vs];
    [conf::log_trace()]; and [std::regex_match] with the regular
    expression of [parse_boost_version], which answers the sub-matches of
    a version that matches, the whole match first, and nothing for one
    that does not. *)
Variables x86 x64 dont_care : Z.
Variable paths_build : string.
Variable path_append : string -> string -> string.
Variables versions_boost vs_toolset boost_vs : string.
Variable regex_match : string -> option (list string).
Variable replace_all : string -> string -> string -> string.
Variable env_vs : Z -> env.
Variable log_trace : bool.

(** [m[i].str()] on a [std::smatch]: the empty string for a sub-match
    that took no part and for an index out of range. *)
Definition str (m : list string) (i : nat) : string := nth i m EmptyString.

(** [boost::parse_boost_version] *)
Definition parse_boost_version {O} : M O (list string) :=
  match regex_match versions_boost with
  | Some m => ret m
  | None => bail_out ("bad boost version '" ++ versions_boost ++ "'")%string None
  end.

(** [boost::boost_version_no_tags] *)
Definition boost_version_no_tags {O} : M O string :=
  m <- parse_boost_version ;;
  let s := (str m 1 ++ "." ++ str m 2)%string in
  let s := if (3 <? List.length m)%nat then (s ++ "." ++ str m 3)%string else s in
  ret s.

(** [boost::boost_version_no_tags_underscores] *)
Definition boost_version_no_tags_underscores {O} : M O string :=
  v <- boost_version_no_tags ;;
  ret (replace_all v "." "_").

(** [boost::source_path] *)
Definition source_path {O} : M O string :=
  v <- boost_version_no_tags_underscores ;;
  ret (path_append paths_build ("boost_" ++ v)%string).

(** [boost::address_model_for_arch] *)
Definition address_model_for_arch {O} (a : Z) : M O string :=
  if a =? x86 then ret "32"
  else if (a =? x64) || (a =? dont_care) then ret "64"
  else bail_out "boost: bad arch" None.

(** [boost::config_jam_file] *)
Definition config_jam_file {O} : M O string :=
  sp <- source_path ;;
  ret (path_append sp "user-config-64.jam").

(** [boost::lib_path] *)
Definition lib_path {O} (a : Z) : M O string :=
  am <- address_model_for_arch a ;;
  let lib := ("lib" ++ am ++ "-msvc-" ++ boost_vs)%string in
  sp <- source_path ;;
  ret (path_append sp lib).

(** [boost::do_b2], up to the process it hands to [run_tool]. The
    arguments of each call of the chain are evaluated after the calls
    before it, as the language has it since C++17: [source_path()] for the
    binary comes first, then [address_model_for_arch(a)], and
    [source_path()] for the working directory last. *)
Definition do_b2 {O} (components : list string) (link runtime_link : string)
    (a : Z) : M O process :=
  sp <- source_path ;;
  let p := binary (path_append sp "b2") process_ctor in
  am <- address_model_for_arch a ;;
  let p := arg2 log_trace "address-model=" (text am) noargflags p in
  let p := arg2 log_trace "link=" (text link) noargflags p in
  let p := arg2 log_trace "runtime-link=" (text runtime_link) noargflags p in
  let p := arg2 log_trace "toolset=" (text ("msvc-" ++ vs_toolset)%string)
             noargflags p in
  jam <- config_jam_file ;;
  let p := arg2 log_trace "--user-config=" (path jam) noargflags p in
  stagedir <- lib_path a ;;
  let p := arg2 log_trace "--stagedir=" (path stagedir) noargflags p in
  libdir <- lib_path a ;;
  let p := arg2 log_trace "--libdir=" (path libdir) noargflags p in
  let p := args log_trace (map (fun c => ("--with-" ++ c)%string) components)
             noargflags p in
  let p := with_env (env_vs a) p in
  cwd_path <- source_path ;;
  ret (cwd cwd_path p).

End Boost.

(** ** Further sample inputs *)

(** A read that fails with [ERROR_ACCESS_DENIED]. *)
Definition read_denied : read_answers := ReadAnswers (Fail 5) WAIT_OBJECT_0 0 (Fail 5).

(** The child has exited, and its standard output cannot be read. *)
Definition exited_unreadable : poll :=
  Poll false WAIT_OBJECT_0 0 read_denied no_data 7 4242.

(** [interrupt()] arrives and [GetProcessId] answers 0. *)
Definition interrupt_arrives_no_pid : poll :=
  Poll true WAIT_TIMEOUT 0 no_data no_data 0 0.

(** Both pipes deliver a chunk at once. *)
Definition data_arrives : poll :=
  Poll false WAIT_TIMEOUT 0
    (ReadAnswers (Done "out") WAIT_OBJECT_0 0 (Fail ERROR_IO_INCOMPLETE))
    (ReadAnswers (Done "err") WAIT_OBJECT_0 0 (Fail ERROR_IO_INCOMPLETE))
    0 4242.

(** The system makes two pipes with handles of their own and creates the
    process. *)
Definition spawn_apart : spawn_answers :=
  SpawnAnswers (CreateAnswers (Done 11) (Done 12) (Done 13) (Done 14))
    (CreateAnswers (Done 21) (Done 22) (Done 23) (Done 24)) "cmd.exe"
    (Done (ProcessInformation 77 78 4242)).

(** The system makes the pipes and refuses the process. *)
Definition spawn_refused : spawn_answers :=
  let c := CreateAnswers (Done 11) (Done 12) (Done 13) (Done 14) in
  SpawnAnswers c c "cmd.exe" (Fail 2).

(** Two paths joined by a backslash, for the samples. *)
Definition backslash (a b : string) : string := (a ++ "\" ++ b)%string.

(** A stand-in for [std::regex_match] that knows one version, for the
    samples. *)
Definition matches_1_72_0 (v : string) : option (list string) :=
  if String.eqb v "1.72.0"
  then Some ["1.72.0"; "1"; "72"; "0"; EmptyString; EmptyString]
  else None.

(** A stand-in for [replace_all] on patterns of one character, for the
    samples. *)
Fixpoint replace_character (s from to : string) : string :=
  match s with
  | EmptyString => EmptyString
  | String c s' =>
      if String.eqb (String c EmptyString) from
      then (to ++ replace_character s' from to)%string
      else String c (replace_character s' from to)
  end.

Unset Implicit Arguments.

(** ** Strings *)

Lemma empty_append (a b : string) :
  empty (a ++ b)%string = empty a && empty b.
Proof. destruct a; reflexivity. Qed.

(** ** Exit codes *)

Lemma to_DWORD_range (z : Z) : 0 <= to_DWORD z < DWORD_modulus.
Proof. unfold to_DWORD, DWORD_modulus. apply Z.mod_pos_bound. lia. Qed.

Lemma static_cast_int_range (d : Z) : - 2 ^ 31 <= static_cast_int d < 2 ^ 31.
Proof.
  unfold static_cast_int, DWORD_modulus.
  pose proof (Z.mod_pos_bound (d + 2 ^ 31) (2 ^ 32)). lia.
Qed.

(** The [int] has the bits of the [DWORD]: converted back, it is the
    [DWORD]. *)
Lemma to_DWORD_static_cast_int (d : Z) :
  0 <= d < DWORD_modulus -> to_DWORD (static_cast_int d) = d.
Proof.
  unfold to_DWORD, static_cast_int, DWORD_modulus. intros H.
  destruct (Z_lt_ge_dec d (2 ^ 31)) as [Hlt | Hge].
  - rewrite (Z.mod_small (d + 2 ^ 31)) by lia.
    replace (d + 2 ^ 31 - 2 ^ 31) with d by lia. apply Z.mod_small. lia.
  - replace (d + 2 ^ 31) with (d - 2 ^ 31 + 1 * 2 ^ 32) by lia.
    rewrite Z.mod_add by lia. rewrite (Z.mod_small (d - 2 ^ 31)) by lia.
    replace (d - 2 ^ 31 - 2 ^ 31) with (d + (-1) * 2 ^ 32) by lia.
    rewrite Z.mod_add by lia. apply Z.mod_small. lia.
Qed.



(** ** Pipelines *)

Lemma make_cmd_raw (text : string) (p : process) :
  empty text = false -> make_cmd (set_raw_ text p) = text.
Proof. intros H. unfold make_cmd. simpl. now rewrite H. Qed.

Lemma make_cmd_copy (p : process) : make_cmd (process_copy p) = make_cmd p.
Proof. reflexivity. Qed.

(** Whatever follows the second process, the command of a pipeline is the
    command of the first process piped into that of the second. *)
Lemma make_cmd_pipe (p1 p2 : process) (ps : list process) :
  make_cmd (pipe p1 (p2 :: ps)) = (make_cmd p1 ++ " | " ++ make_cmd p2)%string.
Proof.
  simpl. unfold pipe_into. rewrite make_cmd_raw.
  - now rewrite make_cmd_copy.
  - rewrite empty_append. simpl. apply andb_false_r.
Qed.

(** The settings of a pipeline other than its command are those of the
    first process. *)
Lemma pipe_settings (p1 : process) (ps : list process) :
  cwd_ (pipe p1 ps) = cwd_ p1 /\ env_ (pipe p1 ps) = env_ p1 /\
  flags_ (pipe p1 ps) = flags_ p1.
Proof. destruct ps; simpl; auto. Qed.

(** C2, at the failing input: the pipeline of the three raw commands [a],
    [b] and [c] has the command [a | b], not [a | b | c]; the third stage is
    lost because the process returned by the inner call of [pipe] is
    dropped. *)
Theorem C2_pipe_of_three_loses_third_stage :
  make_cmd (pipe (raw "a") [raw "b"; raw "c"]) = "a | b" /\
  make_cmd (pipe (raw "a") [raw "b"; raw "c"]) <> "a | b | c".
Proof. split; [reflexivity | discriminate]. Qed.

(** ** Arguments *)

Lemma has_noargflags (flag : Z) : has noargflags flag = false.
Proof. reflexivity. Qed.

Lemma add_arg_excluded (log_trace : bool) (k v : string) (f : Z) (p : process) :
  included log_trace f = false -> add_arg log_trace k v f p = p.
Proof.
  unfold included, add_arg. intros H.
  destruct (has f verbose && negb log_trace); [reflexivity |].
  destruct (has f quiet && log_trace); [reflexivity | discriminate].
Qed.

Lemma add_arg_value_only (log_trace : bool) (v : string) (f : Z) (p : process) :
  included log_trace f = true -> empty v = false ->
  add_arg log_trace EmptyString v f p = set_cmd_ (cmd_ p ++ " " ++ v)%string p.
Proof.
  unfold included, add_arg. intros H Hv.
  destruct (has f verbose && negb log_trace); [discriminate |].
  destruct (has f quiet && log_trace); [discriminate |].
  simpl. now rewrite Hv.
Qed.

Lemma empty_arg_to_string_path (d : string) (q : bool) :
  empty (arg_to_string (path d) q) = false.
Proof. reflexivity. Qed.

Lemma back_snoc (k : string) (c : ascii) :
  back (k ++ String c EmptyString) = Some c.
Proof.
  induction k as [| a k IH]; [reflexivity |].
  simpl. simpl in IH. destruct (k ++ String c EmptyString)%string; [discriminate | exact IH].
Qed.

Lemma back_some (k : string) (c : ascii) :
  back k = Some c -> exists k', k = (k' ++ String c EmptyString)%string.
Proof.
  induction k as [| a k IH]; [discriminate |].
  destruct k as [| b k].
  - simpl. intros H. injection H as H. subst a. now exists EmptyString.
  - intros H. destruct (IH H) as [k' Hk]. exists (String a k'). simpl. now rewrite <- Hk.
Qed.

(** [k.back() == '='] on a string: the string ends in an equals sign. *)
Lemma ends_with_equals_spec (k : string) :
  ends_with_equals k = true <-> exists k', k = (k' ++ "=")%string.
Proof.
  unfold ends_with_equals. split.
  - destruct (back k) as [c |] eqn:Hb; [| discriminate].
    intros H. apply Ascii.eqb_eq in H. subst c. now apply back_some.
  - intros [k' Hk]. subst k. rewrite back_snoc. reflexivity.
Qed.

Lemma add_arg_joined (log_trace : bool) (k v : string) (f : Z) (p : process) :
  included log_trace f = true -> empty k = false ->
  add_arg log_trace k v f p
    = if has f nospace || ends_with_equals k
      then set_cmd_ (cmd_ p ++ " " ++ k ++ v)%string p
      else set_cmd_ (cmd_ p ++ " " ++ k ++ " " ++ v)%string p.
Proof.
  unfold included, add_arg. intros H Hk.
  destruct (has f verbose && negb log_trace); [discriminate |].
  destruct (has f quiet && log_trace); [discriminate |].
  now rewrite Hk.
Qed.

Lemma add_arg_nothing (log_trace : bool) (f : Z) (p : process) :
  add_arg log_trace EmptyString EmptyString f p = p.
Proof.
  unfold add_arg.
  destruct (has f verbose && negb log_trace); [reflexivity |].
  destruct (has f quiet && log_trace); reflexivity.
Qed.

Lemma included_by_tags (log_trace : bool) (f : Z) :
  (has f verbose = true -> log_trace = true) ->
  (has f quiet = true -> log_trace = false) ->
  included log_trace f = true.
Proof.
  unfold included. intros Hv Hq.
  destruct (has f verbose), (has f quiet), log_trace; simpl; try reflexivity;
    try (specialize (Hv eq_refl); discriminate);
    try (specialize (Hq eq_refl); discriminate).
Qed.

(** C7: the rules of rendering an argument, for every key, value and set
    of tags. Quoting: a path is always put in quotes, a string or a URL
    when [quote] is set and otherwise left as it is. Inclusion: a fragment
    tagged [verbose] is left out when [conf::log_trace()] is off, one
    tagged [quiet] when it is on, and the process is then unchanged; in
    every other case the fragment is appended to the arguments after a
    space, and nothing else changes. Join: with an empty key the value
    alone is appended (nothing when the value is empty as well); with
    [nospace] set or a key that ends in an equals sign, key and value are
    appended with nothing between them; otherwise with one space between
    them. So [arg("--stagedir=", path)] appends [--stagedir="<path>"], and
    [arg("--with", "thread")] appends [--with thread]; a value tagged
    [quiet] is appended when [conf::log_trace()] is off and one tagged
    [verbose] when it is on. *)
Theorem C7_argument_rendering (p : process) (log_trace : bool) (dir key s : string)
    (value : arg_value) (f : Z) :
  cmd_ (arg2 log_trace "--stagedir=" (path dir) noargflags p)
    = (cmd_ p ++ " --stagedir=" ++ dquote ++ dir ++ dquote)%string /\
  cmd_ (arg2 log_trace "--with" (text "thread") noargflags p)
    = (cmd_ p ++ " --with thread")%string /\
  (forall f, has f quiet = true ->
     arg true value f p = p /\ arg2 true key value f p = p) /\
  (forall f, has f verbose = true ->
     arg false value f p = p /\ arg2 false key value f p = p) /\
  (empty (arg_to_string value false) = false ->
   cmd_ (arg false value quiet p)
     = (cmd_ p ++ " " ++ arg_to_string value false)%string /\
   cmd_ (arg true value verbose p)
     = (cmd_ p ++ " " ++ arg_to_string value false)%string) /\
  arg_to_string (path s) (has f quote) = (dquote ++ s ++ dquote)%string /\
  (has f quote = true ->
   arg_to_string (text s) (has f quote) = (dquote ++ s ++ dquote)%string /\
   arg_to_string (url s) (has f quote) = (dquote ++ s ++ dquote)%string) /\
  (has f quote = false ->
   arg_to_string (text s) (has f quote) = s /\
   arg_to_string (url s) (has f quote) = s) /\
  ((has f verbose = true -> log_trace = true) ->
   (has f quiet = true -> log_trace = false) ->
   let v := arg_to_string value (has f quote) in
   (empty v = false ->
    arg log_trace value f p = set_cmd_ (cmd_ p ++ " " ++ v)%string p /\
    arg2 log_trace EmptyString value f p
      = set_cmd_ (cmd_ p ++ " " ++ v)%string p) /\
   (empty v = true ->
    arg log_trace value f p = p /\ arg2 log_trace EmptyString value f p = p) /\
   (empty key = false ->
    has f nospace = true \/ (exists k', key = (k' ++ "=")%string) ->
    arg2 log_trace key value f p
      = set_cmd_ (cmd_ p ++ " " ++ key ++ v)%string p) /\
   (empty key = false ->
    has f nospace = false -> (forall k', key <> (k' ++ "=")%string) ->
    arg2 log_trace key value f p
      = set_cmd_ (cmd_ p ++ " " ++ key ++ " " ++ v)%string p)).
Proof.
  split; [destruct log_trace; reflexivity |].
  split; [destruct log_trace; reflexivity |].
  split.
  { intros f0 Hf. unfold arg, arg2.
    split; apply add_arg_excluded; unfold included; rewrite Hf; simpl;
      apply andb_false_r. }
  split.
  { intros f0 Hf. unfold arg, arg2.
    split; apply add_arg_excluded; unfold included; rewrite Hf; reflexivity. }
  split.
  { intros H. unfold arg.
    split; (rewrite add_arg_value_only; [reflexivity | reflexivity | exact H]). }
  split; [reflexivity |].
  split; [intros Hq; rewrite Hq; split; reflexivity |].
  split; [intros Hq; rewrite Hq; split; reflexivity |].
  intros Hv Hq v.
  pose proof (included_by_tags log_trace f Hv Hq) as Hin.
  split; [| split; [| split]].
  - intros He. unfold arg, arg2. fold v.
    split; now apply add_arg_value_only.
  - intros He. unfold arg, arg2. fold v.
    destruct v; [| discriminate]. split; apply add_arg_nothing.
  - intros Hk Hj. unfold arg2. fold v.
    rewrite (add_arg_joined log_trace key v f p Hin Hk).
    destruct Hj as [Hn | Heq].
    + now rewrite Hn.
    + apply ends_with_equals_spec in Heq. rewrite Heq, orb_true_r. reflexivity.
  - intros Hk Hn Hneq. unfold arg2. fold v.
    rewrite (add_arg_joined log_trace key v f p Hin Hk), Hn.
    destruct (ends_with_equals key) eqn:Heq; [| reflexivity].
    apply ends_with_equals_spec in Heq. destruct Heq as [k' Hk'].
    now destruct (Hneq k').
Qed.

Lemma C7_argument_rendering_witness :
  empty (arg_to_string (text "-q") false) = false /\
  cmd_ (arg false (text "-q") quiet (binary "b2" process_ctor)) = " -q" /\
  make_cmd (arg false (text "-q") quiet (binary "b2" process_ctor))
    = (dquote ++ "b2" ++ dquote ++ " -q")%string /\
  make_cmd (arg true (text "-q") quiet (binary "b2" process_ctor))
    = (dquote ++ "b2" ++ dquote)%string /\
  has (Z.lor nospace quote) nospace = true /\
  make_cmd (arg2 false "-D" (text "X") (Z.lor nospace quote)
              (binary "b2" process_ctor))
    = (dquote ++ "b2" ++ dquote ++ " -D" ++ dquote ++ "X" ++ dquote)%string /\
  make_cmd (arg2 false "-D" (text "X") noargflags (binary "b2" process_ctor))
    = (dquote ++ "b2" ++ dquote ++ " -D X")%string.
Proof.
  split; [reflexivity |].
  split.
  - exact (proj1 (proj1 (proj2 (proj2 (proj2 (proj2
      (C7_argument_rendering (binary "b2" process_ctor) false "lib" "-k" "lib"
         (text "-q") noargflags)))))
      eq_refl)).
  - split; [reflexivity |]. split; [reflexivity |]. split; [reflexivity |].
    pose proof (C7_argument_rendering (binary "b2" process_ctor) false "lib" "-D"
                  "lib" (text "X") (Z.lor nospace quote)) as H.
    destruct H as [_ [_ [_ [_ [_ [_ [_ [_ H]]]]]]]].
    assert (Hv : has (Z.lor nospace quote) verbose = true -> false = true)
      by (intros H0; discriminate H0).
    assert (Hq : has (Z.lor nospace quote) quiet = true -> false = false)
      by reflexivity.
    destruct (H Hv Hq) as [_ [_ [Hj _]]].
    split.
    + unfold make_cmd. rewrite (Hj eq_refl (or_introl eq_refl)). reflexivity.
    + reflexivity.
Defined.

(** ** Counting system calls *)

Lemma count_app (f : syscall -> bool) (l l' : list syscall) :
  count f (l ++ l') = count f l + count f l'.
Proof. unfold count. rewrite filter_app, length_app. lia. Qed.

Lemma count_add_sys (f : syscall -> bool) (c : syscall) (w : world) :
  count f (w_sys (add_sys c w)) = count f (w_sys w) + (if f c then 1 else 0).
Proof. simpl. rewrite count_app. unfold count. simpl. destruct (f c); reflexivity. Qed.

Lemma count_add_log (f : syscall -> bool) (e : log_event) (w : world) :
  count f (w_sys (add_log e w)) = count f (w_sys w).
Proof. reflexivity. Qed.

Lemma count_nonneg (f : syscall -> bool) (l : list syscall) : 0 <= count f l.
Proof. unfold count. lia. Qed.

(** ** The overlapped reads of a pipe *)

Ltac run_member :=
  unfold read, try_read, check_pending, bind, this, system, assign, ret,
    bail_out; simpl.

Lemma read_keeps_handles (a : read_answers) (p : async_pipe) (w : world) :
  stdout_ (snd (fst (read a p w))) = stdout_ p /\
  event_ (snd (fst (read a p w))) = event_ p.
Proof.
  run_member. destruct (pending_ p); simpl.
  - destruct (on_WaitForSingleObject a =? WAIT_FAILED); simpl; auto.
    destruct (on_GetOverlappedResult a) as [bytes | e]; simpl; auto.
    destruct (e =? ERROR_IO_INCOMPLETE); simpl; auto.
    destruct (e =? WAIT_TIMEOUT); simpl; auto.
    destruct (e =? ERROR_BROKEN_PIPE); simpl; auto.
  - destruct (on_ReadFile a) as [bytes | e]; simpl; auto.
    destruct (e =? ERROR_IO_PENDING); simpl; auto.
    destruct (e =? ERROR_BROKEN_PIPE); simpl; auto.
Qed.

Lemma count_snoc (f : syscall -> bool) (l : list syscall) (c : syscall) :
  count f (l ++ [c]) = count f l + (if f c then 1 else 0).
Proof. rewrite count_app. unfold count. simpl. destruct (f c); reflexivity. Qed.

Lemma outstanding_snoc (h : HANDLE) (l : list syscall) (c : syscall) :
  outstanding h (l ++ [c])
    = outstanding h l + (if starts_read h c then 1 else 0)
      - (if completes_read h c then 1 else 0).
Proof. unfold outstanding. rewrite !count_snoc. lia. Qed.

Lemma read_keeps_pending_is_outstanding (a : read_answers) (p : async_pipe)
    (w : world) :
  pending_is_outstanding p w ->
  pending_is_outstanding (snd (fst (read a p w))) (snd (read a p w)).
Proof.
  unfold pending_is_outstanding. run_member.
  destruct (pending_ p) eqn:Hp; simpl; intros H.
  - destruct (on_WaitForSingleObject a =? WAIT_FAILED); simpl.
    { rewrite Hp, outstanding_snoc. simpl. lia. }
    destruct (on_GetOverlappedResult a) as [bytes | e]; simpl.
    { rewrite !outstanding_snoc. simpl. rewrite Z.eqb_refl. lia. }
    destruct (e =? ERROR_IO_INCOMPLETE); simpl;
      [| destruct (e =? WAIT_TIMEOUT); simpl;
         [| destruct (e =? ERROR_BROKEN_PIPE); simpl]];
      rewrite Hp, !outstanding_snoc; simpl; lia.
  - destruct (on_ReadFile a) as [bytes | e]; simpl.
    { rewrite Hp, outstanding_snoc. simpl. lia. }
    destruct (e =? ERROR_IO_PENDING) eqn:He; simpl.
    { rewrite outstanding_snoc. simpl. rewrite Z.eqb_refl, He. simpl. lia. }
    destruct (e =? ERROR_BROKEN_PIPE); simpl;
      rewrite Hp, outstanding_snoc; simpl; rewrite He, andb_false_r; lia.
Qed.

Lemma read_repeatedly_keeps_handle (l : list read_answers) :
  forall p w, stdout_ (fst (read_repeatedly l p w)) = stdout_ p.
Proof.
  induction l as [| a l IH]; intros p w; simpl; [reflexivity |].
  pose proof (read_keeps_handles a p w) as [H _].
  destruct (read a p w) as [[o p'] w']. simpl in H. now rewrite IH.
Qed.

Lemma read_repeatedly_keeps_pending_is_outstanding (l : list read_answers) :
  forall p w,
    pending_is_outstanding p w ->
    pending_is_outstanding (fst (read_repeatedly l p w))
      (snd (read_repeatedly l p w)).
Proof.
  induction l as [| a l IH]; intros p w H; simpl; [exact H |].
  pose proof (read_keeps_pending_is_outstanding a p w H) as H'.
  destruct (read a p w) as [[o p'] w']. simpl in H'. now apply IH.
Qed.

(** C5: [read] keeps at most one overlapped read outstanding. On a pipe
    with no read pending, when [ReadFile] finds no data, [read] returns an
    empty result and sets [pending_]; on a pipe with a read pending, [read]
    waits on the event and calls no [ReadFile]; and through any number of
    calls of [read], the number of reads started and not over is one when
    [pending_] is set and zero when it is not. *)
Theorem C5_one_outstanding_read (a : read_answers) (p : async_pipe) (w : world) :
  (pending_ p = false -> on_ReadFile a = Fail ERROR_IO_PENDING ->
   read a p w =
     (Ok EmptyString, set_pending_ true p,
      add_sys (ReadFile (get (stdout_ p)) (Fail ERROR_IO_PENDING)) w)) /\
  (pending_ p = true ->
   exists rest,
     w_sys (snd (read a p w))
       = w_sys w ++ WaitForSingleObject (get (event_ p)) pipe_timeout :: rest /\
     count is_ReadFile rest = 0) /\
  (pending_is_outstanding p w ->
   forall l,
     pending_is_outstanding (fst (read_repeatedly (a :: l) p w))
       (snd (read_repeatedly (a :: l) p w)) /\
     0 <= outstanding (get (stdout_ p)) (w_sys (snd (read_repeatedly (a :: l) p w)))
       <= 1).
Proof.
  split; [| split].
  - intros Hp Ha. run_member. rewrite Hp, Ha. reflexivity.
  - intros Hp. run_member. rewrite Hp. simpl.
    destruct (on_WaitForSingleObject a =? WAIT_FAILED); simpl.
    { exists []. split; reflexivity. }
    destruct (on_GetOverlappedResult a) as [bytes | e]; simpl.
    { eexists. rewrite <- !app_assoc. simpl. split; reflexivity. }
    destruct (e =? ERROR_IO_INCOMPLETE); simpl;
      [| destruct (e =? WAIT_TIMEOUT); simpl;
         [| destruct (e =? ERROR_BROKEN_PIPE); simpl]];
      (eexists; rewrite <- !app_assoc; simpl; split; reflexivity).
  - intros H l.
    pose proof (read_repeatedly_keeps_pending_is_outstanding (a :: l) p w H) as H'.
    split; [exact H' |].
    unfold pending_is_outstanding in H'.
    rewrite read_repeatedly_keeps_handle in H'. rewrite H'.
    destruct (pending_ (fst (read_repeatedly (a :: l) p w))); lia.
Qed.

(** C5 on a fresh pipe: the first [read] finds no data and leaves the pipe
    pending, and a second [read] makes no second call of [ReadFile]. *)
Lemma C5_one_outstanding_read_witness :
  pending_ async_pipe_ctor = false /\
  on_ReadFile no_data = Fail ERROR_IO_PENDING /\
  read no_data async_pipe_ctor empty_world =
    (Ok EmptyString, set_pending_ true async_pipe_ctor,
     add_sys (ReadFile 0 (Fail ERROR_IO_PENDING)) empty_world) /\
  count is_ReadFile
    (w_sys (snd (read_repeatedly [no_data; no_data] async_pipe_ctor empty_world)))
    = 1.
Proof.
  split; [reflexivity |].
  split; [reflexivity |].
  split.
  - exact (proj1 (C5_one_outstanding_read no_data async_pipe_ctor empty_world)
             eq_refl eq_refl).
  - reflexivity.
Defined.

(** ** Errors of a read *)

Lemma read_bails_iff_fatal (a : read_answers) (p : async_pipe) (w : world) :
  is_bailed (read a p w) = fatal_read (pending_ p) a.
Proof.
  unfold fatal_read, unexpected_ReadFile_error,
    unexpected_GetOverlappedResult_error.
  run_member. destruct (pending_ p); simpl.
  - destruct (on_WaitForSingleObject a =? WAIT_FAILED); simpl; [reflexivity |].
    destruct (on_GetOverlappedResult a) as [bytes | e]; simpl; [reflexivity |].
    destruct (e =? ERROR_IO_INCOMPLETE); simpl; [reflexivity |].
    destruct (e =? WAIT_TIMEOUT); simpl; [reflexivity |].
    destruct (e =? ERROR_BROKEN_PIPE); reflexivity.
  - destruct (on_ReadFile a) as [bytes | e]; simpl; [reflexivity |].
    destruct (e =? ERROR_IO_PENDING); simpl; [reflexivity |].
    destruct (e =? ERROR_BROKEN_PIPE); reflexivity.
Qed.

Lemma read_never_polls (a : read_answers) (p : async_pipe) (w : world) :
  fst (fst (read a p w)) <> Polling.
Proof.
  run_member. destruct (pending_ p); simpl.
  - destruct (on_WaitForSingleObject a =? WAIT_FAILED); simpl; [discriminate |].
    destruct (on_GetOverlappedResult a) as [bytes | e]; simpl; [discriminate |].
    destruct (e =? ERROR_IO_INCOMPLETE); simpl; [discriminate |].
    destruct (e =? WAIT_TIMEOUT); simpl; [discriminate |].
    destruct (e =? ERROR_BROKEN_PIPE); discriminate.
  - destruct (on_ReadFile a) as [bytes | e]; simpl; [discriminate |].
    destruct (e =? ERROR_IO_PENDING); simpl; [discriminate |].
    destruct (e =? ERROR_BROKEN_PIPE); discriminate.
Qed.

(** C6: a broken pipe, reported by [ReadFile] or by [GetOverlappedResult],
    makes [read] return an empty result without throwing; [read] throws
    exactly when the wait on the event fails or when [ReadFile] or
    [GetOverlappedResult] fails with an error code it does not expect. *)
Theorem C6_broken_pipe_is_end_of_stream (a : read_answers) (p : async_pipe)
    (w : world) :
  (pending_ p = false -> on_ReadFile a = Fail ERROR_BROKEN_PIPE ->
   fst (read a p w) = (Ok EmptyString, p)) /\
  (pending_ p = true -> on_WaitForSingleObject a <> WAIT_FAILED ->
   on_GetOverlappedResult a = Fail ERROR_BROKEN_PIPE ->
   fst (read a p w) = (Ok EmptyString, p)) /\
  is_bailed (read a p w) = fatal_read (pending_ p) a /\
  (forall e, on_ReadFile a = Fail e -> pending_ p = false ->
   unexpected_ReadFile_error e = true ->
   fst (fst (read a p w)) = Bailed "async_pipe read failed" (Some e)) /\
  (forall e, on_GetOverlappedResult a = Fail e -> pending_ p = true ->
   on_WaitForSingleObject a <> WAIT_FAILED ->
   unexpected_GetOverlappedResult_error e = true ->
   fst (fst (read a p w))
     = Bailed "GetOverlappedResult failed in async_pipe" (Some e)) /\
  (pending_ p = true -> on_WaitForSingleObject a = WAIT_FAILED ->
   fst (fst (read a p w))
     = Bailed "WaitForSingleObject in async_pipe failed"
         (Some (on_WaitForSingleObject_error a))).
Proof.
  split; [| split; [| split; [| split; [| split]]]].
  - intros Hp Ha. run_member. rewrite Hp, Ha. reflexivity.
  - intros Hp Hw Ha. run_member. rewrite Hp. simpl.
    apply Z.eqb_neq in Hw. rewrite Hw, Ha. reflexivity.
  - apply read_bails_iff_fatal.
  - intros e Ha Hp He. unfold unexpected_ReadFile_error in He.
    apply andb_true_iff in He. destruct He as [H1 H2].
    apply negb_true_iff in H1, H2.
    run_member. rewrite Hp, Ha. simpl. rewrite H1. simpl. rewrite H2. reflexivity.
  - intros e Ha Hp Hw He. unfold unexpected_GetOverlappedResult_error in He.
    apply andb_true_iff in He. destruct He as [He H3].
    apply andb_true_iff in He. destruct He as [H1 H2].
    apply negb_true_iff in H1, H2, H3.
    run_member. rewrite Hp. simpl. apply Z.eqb_neq in Hw. rewrite Hw, Ha. simpl.
    rewrite H1. simpl. rewrite H2. simpl. rewrite H3. reflexivity.
  - intros Hp Hw. run_member. rewrite Hp. simpl.
    apply Z.eqb_eq in Hw. rewrite Hw. reflexivity.
Qed.

Lemma C6_broken_pipe_is_end_of_stream_witness :
  fst (read pipe_broke async_pipe_ctor empty_world) = (Ok EmptyString, async_pipe_ctor) /\
  fst (read pipe_broke pending_pipe empty_world) = (Ok EmptyString, pending_pipe) /\
  fst (fst (read (ReadAnswers (Fail 5) 0 0 (Fail 5)) async_pipe_ctor empty_world))
    = Bailed "async_pipe read failed" (Some 5).
Proof.
  pose proof (C6_broken_pipe_is_end_of_stream pipe_broke async_pipe_ctor
                empty_world) as [H1 _].
  pose proof (C6_broken_pipe_is_end_of_stream pipe_broke pending_pipe
                empty_world) as [_ [H2 _]].
  pose proof (C6_broken_pipe_is_end_of_stream (ReadAnswers (Fail 5) 0 0 (Fail 5))
                async_pipe_ctor empty_world) as [_ [_ [_ [H3 _]]]].
  split; [exact (H1 eq_refl eq_refl) |].
  split; [apply H2; [reflexivity | discriminate | reflexivity] |].
  exact (H3 5 eq_refl eq_refl eq_refl).
Defined.

(** ** What member functions leave unchanged *)

Section Frame.

Context {X : Type} (f : process -> X).

Lemma preserves_ret A (a : A) : preserves f (ret a).
Proof. intros p w. reflexivity. Qed.

Lemma preserves_this : preserves f this.
Proof. intros p w. reflexivity. Qed.

Lemma preserves_the_world : preserves f the_world.
Proof. intros p w. reflexivity. Qed.

Lemma preserves_system (c : syscall) : preserves f (system c).
Proof. intros p w. reflexivity. Qed.

Lemma preserves_log rs level s : preserves f (log rs level s).
Proof. intros p w. reflexivity. Qed.

Lemma preserves_bail_out A msg e : preserves f (@bail_out process A msg e).
Proof. intros p w. reflexivity. Qed.

Lemma preserves_still_polling A : preserves f (@still_polling process A).
Proof. intros p w. reflexivity. Qed.

Lemma preserves_assign (g : process -> process) :
  (forall p, f (g p) = f p) -> preserves f (assign g).
Proof. intros H p w. apply H. Qed.

Lemma preserves_bind A B (m : M process A) (k : A -> M process B) :
  preserves f m -> (forall a, preserves f (k a)) -> preserves f (bind m k).
Proof.
  intros Hm Hk p w. unfold bind. specialize (Hm p w).
  destruct (m p w) as [[[a | msg e |] p'] w']; simpl in *; try exact Hm.
  now rewrite Hk.
Qed.

Lemma preserves_when (c : bool) (m : M process unit) :
  preserves f m -> preserves f (when c m).
Proof. destruct c; simpl; [auto | intros _; apply preserves_ret]. Qed.

Lemma preserves_for_each A (l : list A) (k : A -> M process unit) :
  (forall a, preserves f (k a)) -> preserves f (for_each l k).
Proof.
  intros Hk. induction l as [| a l IH]; simpl.
  - apply preserves_ret.
  - apply preserves_bind; auto.
Qed.

Lemma preserves_try_catch_all (m : M process unit) :
  preserves f m -> preserves f (try_catch_all m).
Proof.
  intros Hm p w. unfold try_catch_all. specialize (Hm p w).
  destruct (m p w) as [[[a | msg e |] p'] w']; exact Hm.
Qed.

Lemma preserves_on_stdout_pipe A (m : M async_pipe A) :
  (forall a p, f (set_impl_stdout_pipe a p) = f p) ->
  preserves f (on_stdout_pipe m).
Proof.
  intros H p w. unfold on_stdout_pipe, on_member.
  destruct (m (stdout_pipe (impl_ p)) w) as [[o a] w']. apply H.
Qed.

Lemma preserves_on_stderr_pipe A (m : M async_pipe A) :
  (forall a p, f (set_impl_stderr_pipe a p) = f p) ->
  preserves f (on_stderr_pipe m).
Proof.
  intros H p w. unfold on_stderr_pipe, on_member.
  destruct (m (stderr_pipe (impl_ p)) w) as [[o a] w']. apply H.
Qed.

End Frame.

(** Goes through a member function, leaving the assignments to check. *)
Ltac frame :=
  repeat first
    [ apply preserves_ret | apply preserves_this | apply preserves_the_world
    | apply preserves_system | apply preserves_log | apply preserves_bail_out
    | apply preserves_still_polling
    | apply preserves_bind; [| intros ?]
    | apply preserves_when | apply preserves_for_each; intros ?
    | apply preserves_on_stdout_pipe; intros ? ?
    | apply preserves_on_stderr_pipe; intros ? ?
    | apply preserves_assign; intros ?
    | match goal with
      | |- preserves _ (if ?c then _ else _) => destruct c
      | |- preserves _ (match ?c with _ => _ end) => destruct c
      | |- preserves _ (let _ := _ in _) => cbv zeta
      end ].

(** ** System calls member functions do not make *)

Section Calls.

Context (f : syscall -> bool).

Lemma makes_no_ret O A (a : A) : makes_no f (@ret O A a).
Proof. intros o w. reflexivity. Qed.

Lemma makes_no_this O : makes_no f (@this O).
Proof. intros o w. reflexivity. Qed.

Lemma makes_no_the_world O : makes_no f (@the_world O).
Proof. intros o w. reflexivity. Qed.

Lemma makes_no_assign O (g : O -> O) : makes_no f (assign g).
Proof. intros o w. reflexivity. Qed.

Lemma makes_no_log O rs level s : makes_no f (@log O rs level s).
Proof. intros o w. reflexivity. Qed.

Lemma makes_no_bail_out O A msg e : makes_no f (@bail_out O A msg e).
Proof. intros o w. reflexivity. Qed.

Lemma makes_no_still_polling O A : makes_no f (@still_polling O A).
Proof. intros o w. reflexivity. Qed.

Lemma makes_no_system O (c : syscall) : f c = false -> makes_no f (@system O c).
Proof. intros H o w. unfold system. simpl snd. rewrite count_add_sys, H. lia. Qed.

Lemma makes_no_bind O A B (m : M O A) (k : A -> M O B) :
  makes_no f m -> (forall a, makes_no f (k a)) -> makes_no f (bind m k).
Proof.
  intros Hm Hk o w. unfold bind. specialize (Hm o w).
  destruct (m o w) as [[[a | msg e |] o'] w']; simpl in *; try exact Hm.
  rewrite Hk. exact Hm.
Qed.

Lemma makes_no_when O (c : bool) (m : M O unit) :
  makes_no f m -> makes_no f (when c m).
Proof. destruct c; simpl; [auto | intros _; apply makes_no_ret]. Qed.

Lemma makes_no_for_each O A (l : list A) (k : A -> M O unit) :
  (forall a, makes_no f (k a)) -> makes_no f (for_each l k).
Proof.
  intros Hk. induction l as [| a l IH]; simpl.
  - apply makes_no_ret.
  - apply makes_no_bind; auto.
Qed.

Lemma makes_no_try_catch_all O (m : M O unit) :
  makes_no f m -> makes_no f (try_catch_all m).
Proof.
  intros Hm o w. unfold try_catch_all. specialize (Hm o w).
  destruct (m o w) as [[[a | msg e |] o'] w']; exact Hm.
Qed.

Lemma makes_no_on_member O P A (g : O -> P) (s : P -> O -> O) (m : M P A) :
  makes_no f m -> makes_no f (on_member g s m).
Proof.
  intros Hm o w. unfold on_member. specialize (Hm (g o) w).
  destruct (m (g o) w) as [[r p'] w']. exact Hm.
Qed.

End Calls.

(** Goes through a member function, leaving the system calls to check. *)
Ltac calls :=
  repeat first
    [ apply makes_no_ret | apply makes_no_this | apply makes_no_the_world
    | apply makes_no_assign | apply makes_no_log | apply makes_no_bail_out
    | apply makes_no_still_polling
    | apply makes_no_bind; [| intros ?]
    | apply makes_no_when | apply makes_no_for_each; intros ?
    | apply makes_no_on_member
    | apply makes_no_system
    | match goal with
      | |- makes_no _ (if ?c then _ else _) => destruct c
      | |- makes_no _ (match ?c with _ => _ end) => destruct c
      | |- makes_no _ (let _ := _ in _) => cbv zeta
      end ].

Lemma read_makes_pipe_calls (f : syscall -> bool) (a : read_answers) :
  (forall c, is_pipe_call c = true -> f c = false) -> makes_no f (read a).
Proof.
  intros H. unfold read, try_read, check_pending. calls; apply H; reflexivity.
Qed.

Section SupervisorFacts.

Variable for_each_line : string -> list string.

Lemma log_line_preserves X (f : process -> X) rs level flt l :
  preserves f (log_line rs level flt l).
Proof. unfold log_line. frame. Qed.

Lemma read_pipes_preserves X (f : process -> X) (ev : poll) :
  (forall a p, f (set_impl_stdout_pipe a p) = f p) ->
  (forall a p, f (set_impl_stderr_pipe a p) = f p) ->
  preserves f (read_pipes for_each_line ev).
Proof.
  intros H1 H2. unfold read_pipes.
  frame; try apply log_line_preserves; auto.
Qed.

Lemma read_pipes_makes_pipe_calls (f : syscall -> bool) (ev : poll) :
  (forall c, is_pipe_call c = true -> f c = false) ->
  makes_no f (read_pipes for_each_line ev).
Proof.
  intros H. unfold read_pipes, on_stdout_pipe, on_stderr_pipe, log_line.
  calls; apply H; reflexivity.
Qed.

(** *** Reading the pipes *)

Lemma read_calm (a : read_answers) (p : async_pipe) (w : world) :
  calm_read a = true -> exists s, fst (fst (read a p w)) = Ok s.
Proof.
  unfold calm_read. intros H. apply andb_true_iff in H. destruct H as [Ht Hf].
  apply negb_true_iff in Ht, Hf.
  pose proof (read_bails_iff_fatal a p w) as Hb.
  pose proof (read_never_polls a p w) as Hp.
  destruct (read a p w) as [[[s | msg e |] p'] w']; simpl in Hb, Hp; simpl.
  - now exists s.
  - destruct (pending_ p); congruence.
  - congruence.
Qed.

Lemma for_each_log_line rs level flt (l : list string) :
  forall (p : process) (w : world),
    exists w', for_each l (log_line rs level flt) p w = (Ok tt, p, w').
Proof.
  induction l as [| x l IH]; intros p w; simpl.
  - now exists w.
  - unfold bind, log_line.
    destruct flt as [fn |]; [destruct (ignore (fn _)) |]; simpl; apply IH.
Qed.

Lemma read_pipes_calm (ev : poll) (p : process) (w : world) :
  calm_read (on_stdout_read ev) = true -> calm_read (on_stderr_read ev) = true ->
  fst (fst (read_pipes for_each_line ev p w)) = Ok tt.
Proof.
  intros Ho He. unfold read_pipes, bind, this, on_stdout_pipe, on_stderr_pipe,
    on_member.
  destruct (read_calm _ (stdout_pipe (impl_ p)) w Ho) as [s Hs].
  destruct (read (on_stdout_read ev) (stdout_pipe (impl_ p)) w) as [[o a] w1].
  simpl in Hs. subst o.
  destruct (for_each_log_line context.std_out (stdout_level_ p) (stdout_filter_ p)
              (for_each_line s) (set_impl_stdout_pipe a p) w1) as [w2 H2].
  rewrite H2.
  destruct (read_calm _ (stderr_pipe (impl_ (set_impl_stdout_pipe a p))) w2 He)
    as [s' Hs'].
  destruct (read (on_stderr_read ev) _ w2) as [[o a'] w3].
  simpl in Hs'. subst o.
  destruct (for_each_log_line context.std_err (stderr_level_ p) (stderr_filter_ p)
              (for_each_line s') (set_impl_stderr_pipe a' (set_impl_stdout_pipe a p))
              w3) as [w4 H4].
  rewrite H4. reflexivity.
Qed.

Lemma read_pipes_supervision (ev : poll) (p : process) (w : world) :
  supervision (snd (fst (read_pipes for_each_line ev p w))) = supervision p.
Proof. apply read_pipes_preserves; reflexivity. Qed.

(** *** Signals to the process group *)

Ltac run_turn :=
  unfold join_turn, bind, when, process_interrupt, this, system, assign, ret,
    bail_out, trace, debug, error, log; simpl.

Lemma read_pipes_count (f : syscall -> bool) (ev : poll) (p : process) (w : world) :
  (forall c, is_pipe_call c = true -> f c = false) ->
  count f (w_sys (snd (read_pipes for_each_line ev p w))) = count f (w_sys w).
Proof. intros H. now apply read_pipes_makes_pipe_calls. Qed.

Lemma is_break_not_pipe_call (c : syscall) : is_pipe_call c = true -> is_break c = false.
Proof. destruct c; simpl; congruence. Qed.

(** A turn of the loop signals the process group only if [interrupted] is
    not set, and sets it when it does. *)
Lemma join_turn_breaks (ev : poll) (b : bool) (p : process) (w : world) :
  match join_turn for_each_line ev b p w with
  | (Ok (Continue b'), _, w') =>
      count is_break (w_sys w') + budget b' = count is_break (w_sys w) + budget b
      /\ (b = true -> b' = true)
  | (_, _, w') => count is_break (w_sys w') = count is_break (w_sys w)
  end.
Proof.
  unfold join_turn.
  destruct (interrupt_called ev); destruct (on_wait ev =? WAIT_OBJECT_0);
    [| destruct (on_wait ev =? WAIT_TIMEOUT) | | destruct (on_wait ev =? WAIT_TIMEOUT)];
    run_turn;
    try match goal with
      | |- context [read_pipes for_each_line ev ?q ?v] =>
          pose proof (read_pipes_count is_break ev q v is_break_not_pipe_call) as H;
          destruct (read_pipes for_each_line ev q v) as [[[[] | msg e |] p2] w2];
          simpl in H
      end;
    try (rewrite count_snoc in H; simpl in H);
    destruct b; rewrite ?andb_false_r, ?andb_true_r;
    repeat match goal with
      | |- context [if ?c then _ else _] => destruct c; simpl
      end;
    rewrite ?count_snoc; simpl; try split; try lia; auto; discriminate.
Qed.


Lemma budget_nonneg (b : bool) : 0 <= budget b <= 1.
Proof. destruct b; simpl; lia. Qed.

Lemma join_loop_breaks (evs : list poll) :
  forall b p w,
    count is_break (w_sys w)
      <= count is_break (w_sys (snd (join_loop for_each_line evs b p w)))
      <= count is_break (w_sys w) + budget b.
Proof.
  induction evs as [| ev evs IH]; intros b p w; simpl.
  - pose proof (budget_nonneg b). lia.
  - unfold bind. pose proof (join_turn_breaks ev b p w) as H.
    pose proof (budget_nonneg b).
    destruct (join_turn for_each_line ev b p w) as [[[[b' | b'] | msg e |] p'] w'];
      simpl; try lia.
    destruct H as [H Hb]. specialize (IH b' p' w').
    destruct b; [rewrite (Hb eq_refl) in *; simpl in *; lia |].
    pose proof (budget_nonneg b'). simpl in *. lia.
Qed.

(** C4: whatever the system answers and however many turns the loop takes,
    one call of [join] sends [CTRL_BREAK_EVENT] to the process group of the
    child at most once; and once [interrupted] is set, the loop sends
    none. *)
Theorem C4_break_signal_sent_at_most_once (evs : list poll) (p : process)
    (w : world) :
  count is_break (w_sys (snd (join for_each_line evs p w)))
    <= count is_break (w_sys w) + 1 /\
  count is_break (w_sys (snd (join_loop for_each_line evs true p w)))
    = count is_break (w_sys w).
Proof.
  split.
  - unfold join, bind, this, trace, log, when, assign, ret. simpl.
    destruct (is_empty (handle (impl_ p))); simpl; [lia |].
    pose proof (join_loop_breaks evs false p
                  (add_log (Log context.cmd context.trace "joining") w)) as H.
    destruct (join_loop for_each_line evs false p _) as [[[b | msg e |] p'] w'];
      simpl in *; try lia.
    destruct b; simpl; lia.
  - pose proof (join_loop_breaks evs true p w) as H. simpl in H. lia.
Qed.

(** *** Turns of the loop *)

Lemma supervision_interrupt (p p' : process) :
  supervision p' = supervision p -> interrupt (impl_ p') = interrupt (impl_ p).
Proof. unfold supervision. congruence. Qed.

Lemma supervision_handle (p p' : process) :
  supervision p' = supervision p -> handle (impl_ p') = handle (impl_ p).
Proof. unfold supervision. congruence. Qed.

Lemma supervision_code (p p' : process) :
  supervision p' = supervision p -> code_ p' = code_ p.
Proof. unfold supervision. congruence. Qed.

Lemma supervision_flags (p p' : process) :
  supervision p' = supervision p -> flags_ p' = flags_ p.
Proof. unfold supervision, configuration. congruence. Qed.

Lemma supervision_make_name (p p' : process) :
  supervision p' = supervision p -> make_name p' = make_name p.
Proof.
  unfold supervision, configuration, make_name, make_cmd. intros H.
  injection H as Hn Hb Hc Hf Hr Hm Hh Hi Hk. now rewrite Hn, Hb, Hr, Hm.
Qed.

Lemma calm_timeout_inv (ev : poll) :
  calm_timeout ev = true ->
  (on_wait ev =? WAIT_OBJECT_0) = false /\ (on_wait ev =? WAIT_TIMEOUT) = true /\
  calm_read (on_stdout_read ev) = true /\ calm_read (on_stderr_read ev) = true.
Proof.
  unfold calm_timeout. intros H.
  apply andb_true_iff in H. destruct H as [H He].
  apply andb_true_iff in H. destruct H as [Hw Ho].
  repeat split; auto.
  apply Z.eqb_eq in Hw. rewrite Hw. reflexivity.
Qed.

Lemma calm_exit_inv (ev : poll) :
  calm_exit ev = true ->
  (on_wait ev =? WAIT_OBJECT_0) = true /\
  calm_read (on_stdout_read ev) = true /\ calm_read (on_stderr_read ev) = true.
Proof.
  unfold calm_exit. intros H.
  apply andb_true_iff in H. destruct H as [H He].
  apply andb_true_iff in H. destruct H as [Hw Ho].
  auto.
Qed.

(** The pipes are read in a turn that finds the child running or exited. *)
Ltac read_the_pipes ev Ho He :=
  match goal with
  | |- context [read_pipes for_each_line ev ?q ?v] =>
      let Hok := fresh "Hok" in
      let Hsup := fresh "Hsup" in
      let Hcnt := fresh "Hcnt" in
      pose proof (read_pipes_calm ev q v Ho He) as Hok;
      pose proof (read_pipes_supervision ev q v) as Hsup;
      pose proof (fun f Hf => read_pipes_count f ev q v Hf) as Hcnt;
      destruct (read_pipes for_each_line ev q v) as [[o2 p2] w2];
      simpl in Hok, Hsup, Hcnt; subst o2
  end.

(** An uneventful turn changes nothing but the pipes and goes on. *)
Lemma join_turn_uneventful (ev : poll) (b : bool) (p : process) (w : world) :
  uneventful ev = true -> interrupt (impl_ p) = false ->
  exists p' w',
    join_turn for_each_line ev b p w = (Ok (Continue b), p', w') /\
    supervision p' = supervision p /\
    forall f, (forall c, is_pipe_call c = true -> f c = false) ->
              count f (w_sys w') = count f (w_sys w).
Proof.
  unfold uneventful. intros H Hi.
  apply andb_true_iff in H. destruct H as [H Hc]. apply negb_true_iff in Hc.
  apply calm_timeout_inv in H. destruct H as [Hw0 [Hw [Ho He]]].
  unfold join_turn. rewrite Hc, Hw0, Hw. run_turn.
  read_the_pipes ev Ho He.
  rewrite (supervision_interrupt _ _ Hsup), Hi. simpl.
  exists p2, w2. split; [reflexivity |]. split; [exact Hsup |].
  intros f Hf. rewrite (Hcnt f Hf), count_snoc, Hf by reflexivity. lia.
Qed.

Lemma join_loop_uneventful_calls (pre rest : list poll) :
  forall (b : bool) (p : process) (w : world),
    forallb uneventful pre = true -> interrupt (impl_ p) = false ->
    exists p' w',
      join_loop for_each_line (pre ++ rest) b p w
        = join_loop for_each_line rest b p' w' /\
      supervision p' = supervision p /\
      forall f, (forall c, is_pipe_call c = true -> f c = false) ->
                count f (w_sys w') = count f (w_sys w).
Proof.
  induction pre as [| ev pre IH]; intros b p w Hpre Hi; simpl in *.
  - exists p, w. repeat split; reflexivity.
  - apply andb_true_iff in Hpre. destruct Hpre as [Hev Hpre].
    destruct (join_turn_uneventful ev b p w Hev Hi) as [p1 [w1 [H1 [Hs1 Hn1]]]].
    unfold bind at 1. rewrite H1.
    destruct (IH b p1 w1 Hpre) as [p2 [w2 [H2 [Hs2 Hn2]]]].
    { now rewrite (supervision_interrupt _ _ Hs1). }
    exists p2, w2. split; [exact H2 |]. split; [congruence |].
    intros f Hf. now rewrite (Hn2 f Hf), (Hn1 f Hf).
Qed.

(** The turn that finds the child exited, when [interrupt()] has not been
    called: the exit code is stored and judged. *)
Lemma join_turn_exit (ev : poll) (b : bool) (p : process) (w : world) :
  calm_exit ev = true -> interrupt_called ev = false ->
  interrupt (impl_ p) = false ->
  let code := to_DWORD (on_GetExitCodeProcess ev) in
  exists p' w',
    supervision p' = supervision p /\
    join_turn for_each_line ev b p w =
      if code =? 0 then (Ok (Break b), set_code_ code p', w')
      else if has (flags_ p) allow_failure then
        (Ok (Break b), set_code_ code p',
         add_log (Log context.cmd context.debug
                    "process failed but failure was allowed") w')
      else
        (Bailed (make_name p ++ " returned " ++ to_string code)%string None,
         set_impl_handle None (set_code_ code p'), w').
Proof.
  intros H Hc Hi code.
  apply calm_exit_inv in H. destruct H as [Hw [Ho He]].
  unfold join_turn. rewrite Hc, Hw. run_turn.
  read_the_pipes ev Ho He.
  rewrite (supervision_interrupt _ _ Hsup), Hi.
  rewrite (supervision_flags _ _ Hsup).
  fold code.
  eexists p2, _. split; [exact Hsup |].
  destruct (code =? 0); simpl; [reflexivity |].
  destruct (has (flags_ p) allow_failure); [reflexivity |].
  replace (make_name (set_code_ code p2)) with (make_name p)
    by (symmetry; apply (supervision_make_name p p2 Hsup)).
  reflexivity.
Qed.

Lemma join_running (evs : list poll) (p : process) (w : world) :
  is_empty (handle (impl_ p)) = false ->
  join for_each_line evs p w =
    match join_loop for_each_line evs false p
            (add_log (Log context.cmd context.trace "joining") w) with
    | (Ok b, p', w') =>
        (Ok tt, set_impl_handle None p',
         if b then add_log (Log context.cmd context.trace
                              "process interrupted and finished") w'
         else w')
    | (Bailed msg e, p', w') => (Bailed msg e, p', w')
    | (Polling, p', w') => (Polling, p', w')
    end.
Proof.
  intros Hh. unfold join, bind, this, trace, log, when, assign, ret.
  rewrite Hh.
  destruct (join_loop for_each_line evs false p _) as [[[[|] | msg e |] p'] w'];
    reflexivity.
Qed.

Lemma join_not_running (evs : list poll) (p : process) (w : world) :
  is_empty (handle (impl_ p)) = true -> join for_each_line evs p w = (Ok tt, p, w).
Proof. intros Hh. unfold join, bind, this, ret. now rewrite Hh. Qed.

Lemma is_kill_not_pipe_call (c : syscall) : is_pipe_call c = true -> is_kill c = false.
Proof. destruct c; simpl; congruence. Qed.

Lemma is_exit_query_not_pipe_call (c : syscall) :
  is_pipe_call c = true -> is_exit_query c = false.
Proof. destruct c; simpl; congruence. Qed.

(** A turn that finds the child running and [interrupt()] called, with
    [terminate_on_interrupt]: the child is killed and the loop is left. *)
Lemma join_turn_terminate (ev : poll) (p : process) (w : world) :
  calm_timeout ev = true ->
  has (flags_ p) terminate_on_interrupt = true ->
  interrupt (impl_ p) || interrupt_called ev = true ->
  exists p' w',
    join_turn for_each_line ev false p w
      = (Ok (Break false), p',
         add_sys (TerminateProcess (get (handle (impl_ p))) 65535) w') /\
    code_ p' = code_ p /\ handle (impl_ p') = handle (impl_ p) /\
    forall f, (forall c, is_pipe_call c = true -> f c = false) ->
              count f (w_sys w') = count f (w_sys w).
Proof.
  intros H Hf Hi.
  apply calm_timeout_inv in H. destruct H as [Hw0 [Hw [Ho He]]].
  unfold join_turn. rewrite Hw0, Hw.
  destruct (interrupt_called ev); run_turn; read_the_pipes ev Ho He.
  - rewrite (supervision_interrupt _ _ Hsup), (supervision_flags _ _ Hsup).
    simpl. rewrite Hf. rewrite (supervision_handle _ _ Hsup). simpl.
    eexists p2, _. split; [reflexivity |].
    split; [apply (supervision_code _ _ Hsup) |].
    split; [apply (supervision_handle _ _ Hsup) |].
    intros f Hp. simpl. rewrite (Hcnt f Hp), count_snoc, Hp by reflexivity. lia.
  - rewrite orb_false_r in Hi.
    rewrite (supervision_interrupt _ _ Hsup), (supervision_flags _ _ Hsup), Hi, Hf.
    simpl. rewrite (supervision_handle _ _ Hsup).
    eexists p2, _. split; [reflexivity |].
    split; [apply (supervision_code _ _ Hsup) |].
    split; [apply (supervision_handle _ _ Hsup) |].
    intros f Hp. simpl. rewrite (Hcnt f Hp), count_snoc, Hp by reflexivity. lia.
Qed.

Lemma join_loop_terminate (pre rest : list poll) (ev : poll) :
  forall (p : process) (w : world),
    forallb calm_timeout (pre ++ [ev]) = true ->
    has (flags_ p) terminate_on_interrupt = true ->
    interrupt (impl_ p) || existsb interrupt_called (pre ++ [ev]) = true ->
    exists p' w',
      join_loop for_each_line (pre ++ ev :: rest) false p w
        = (Ok false, p',
           add_sys (TerminateProcess (get (handle (impl_ p))) 65535) w') /\
      code_ p' = code_ p /\
      forall f, (forall c, is_pipe_call c = true -> f c = false) ->
                count f (w_sys w') = count f (w_sys w).
Proof.
  induction pre as [| ev0 pre IH]; intros p w Hcalm Hf Hi; simpl in *.
  - rewrite andb_true_r in Hcalm. rewrite orb_false_r in Hi.
    destruct (join_turn_terminate ev p w Hcalm Hf Hi) as [p1 [w1 [H1 [Hc [_ Hn]]]]].
    unfold bind. rewrite H1. exists p1, w1. auto.
  - apply andb_true_iff in Hcalm. destruct Hcalm as [Hcalm0 Hcalm].
    destruct (interrupt (impl_ p) || interrupt_called ev0) eqn:Hnow.
    + destruct (join_turn_terminate ev0 p w Hcalm0 Hf Hnow)
        as [p1 [w1 [H1 [Hc [_ Hn]]]]].
      unfold bind. rewrite H1. exists p1, w1. auto.
    + apply orb_false_iff in Hnow. destruct Hnow as [Hip Hic].
      rewrite Hip, Hic in Hi. simpl in Hi.
      assert (Hun : uneventful ev0 = true).
      { unfold uneventful. now rewrite Hcalm0, Hic. }
      destruct (join_turn_uneventful ev0 false p w Hun Hip)
        as [p1 [w1 [H1 [Hs1 Hn1]]]].
      unfold bind at 1. rewrite H1.
      destruct (IH p1 w1 Hcalm) as [p2 [w2 [H2 [Hc2 Hn2]]]].
      { now rewrite (supervision_flags _ _ Hs1). }
      { now rewrite (supervision_interrupt _ _ Hs1), Hip. }
      rewrite (supervision_handle _ _ Hs1) in H2.
      exists p2, w2. split; [exact H2 |].
      split; [now rewrite Hc2, (supervision_code _ _ Hs1) |].
      intros f Hp. now rewrite (Hn2 f Hp), (Hn1 f Hp).
Qed.

(** The turn that finds the child exited after [interrupt()] has been
    called: the exit code is stored and not judged, and nothing is killed. *)
Lemma join_turn_exit_interrupted (ev : poll) (b : bool) (p : process) (w : world) :
  calm_exit ev = true ->
  interrupt (impl_ p) || interrupt_called ev = true ->
  let code := to_DWORD (on_GetExitCodeProcess ev) in
  exists p' w',
    join_turn for_each_line ev b p w
      = (Ok (Break b), set_code_ code p',
         add_log (Log context.cmd context.debug
                    ("process completed, exit code " ++ to_string code)%string)
           (add_sys (GetExitCodeProcess (get (handle (impl_ p)))) w')) /\
    forall f, (forall c, is_pipe_call c = true -> f c = false) ->
              count f (w_sys w') = count f (w_sys w).
Proof.
  intros H Hi code.
  apply calm_exit_inv in H. destruct H as [Hw [Ho He]].
  unfold join_turn. rewrite Hw.
  destruct (interrupt_called ev); run_turn; read_the_pipes ev Ho He.
  - rewrite (supervision_interrupt _ _ Hsup). simpl.
    eexists p2, _. split; [reflexivity |].
    intros f Hp. rewrite (Hcnt f Hp), count_snoc, Hp by reflexivity. lia.
  - rewrite orb_false_r in Hi. rewrite (supervision_interrupt _ _ Hsup), Hi.
    eexists p2, _. split; [reflexivity |].
    intros f Hp. rewrite (Hcnt f Hp), count_snoc, Hp by reflexivity. lia.
Qed.

(** C3, as the code has it: with [terminate_on_interrupt], when
    [interrupt()] has been called by a turn that finds the child running,
    [join] kills the child with [TerminateProcess] and returns at once: it
    does not ask for the exit code, does not store one and does not judge
    one, whatever the system would have answered in later turns. When the
    first turn to see the call finds the child exited already, [join]
    asks for the exit code, stores it and returns as well without judging
    it, whatever it is, and kills nothing. Both parts are for turns in
    which the reads of the pipes do not fail. *)
Theorem C3_interrupt_terminates (pre rest : list poll) (ev : poll) (p : process)
    (w : world) :
  is_empty (handle (impl_ p)) = false ->
  has (flags_ p) terminate_on_interrupt = true ->
  let result := join for_each_line (pre ++ ev :: rest) p w in
  (forallb calm_timeout (pre ++ [ev]) = true ->
   interrupt (impl_ p) || existsb interrupt_called (pre ++ [ev]) = true ->
   fst (fst result) = Ok tt /\
   (exists earlier,
      w_sys (snd result)
        = earlier ++ [TerminateProcess (get (handle (impl_ p))) 65535]) /\
   count is_kill (w_sys (snd result)) = count is_kill (w_sys w) + 1 /\
   count is_exit_query (w_sys (snd result)) = count is_exit_query (w_sys w) /\
   code_ (snd (fst result)) = code_ p) /\
  (forallb uneventful pre = true -> calm_exit ev = true ->
   pre = [] \/ interrupt (impl_ p) = false ->
   interrupt (impl_ p) || interrupt_called ev = true ->
   fst (fst result) = Ok tt /\
   (exists earlier,
      w_log (snd result)
        = earlier ++ [Log context.cmd context.debug
                        ("process completed, exit code "
                         ++ to_string (to_DWORD (on_GetExitCodeProcess ev)))%string]) /\
   count is_kill (w_sys (snd result)) = count is_kill (w_sys w) /\
   code_ (snd (fst result)) = to_DWORD (on_GetExitCodeProcess ev) /\
   count is_exit_query (w_sys (snd result))
     = count is_exit_query (w_sys w) + 1 /\
   handle (impl_ (snd (fst result))) = None).
Proof.
  intros Hh Hf result. split.
  - intros Hcalm Hi.
    destruct (join_loop_terminate pre rest ev p
                (add_log (Log context.cmd context.trace "joining") w) Hcalm Hf Hi)
      as [p1 [w1 [H1 [Hc Hn]]]].
    subst result. rewrite (join_running _ p w Hh), H1. simpl.
    split; [reflexivity |].
    split; [eexists; reflexivity |].
    rewrite !count_snoc. simpl.
    rewrite (Hn is_kill is_kill_not_pipe_call).
    rewrite (Hn is_exit_query is_exit_query_not_pipe_call). simpl.
    split; [lia |]. split; [lia | exact Hc].
  - intros Hpre Hev Hor Hc.
    assert (exists p1 w1,
              join_loop for_each_line (pre ++ ev :: rest) false p
                (add_log (Log context.cmd context.trace "joining") w)
                = join_loop for_each_line (ev :: rest) false p1 w1 /\
              supervision p1 = supervision p /\
              forall f, (forall c, is_pipe_call c = true -> f c = false) ->
                        count f (w_sys w1) = count f (w_sys w))
      as [p1 [w1 [H1 [Hs1 Hn1]]]].
    { destruct Hor as [Hnil | Hi].
      - subst pre. eexists p, _. repeat split; reflexivity.
      - destruct (join_loop_uneventful_calls pre (ev :: rest) false p
                    (add_log (Log context.cmd context.trace "joining") w) Hpre Hi)
          as [p1 [w1 [H1 [Hs1 Hn1]]]].
        exists p1, w1. auto. }
    destruct (join_turn_exit_interrupted ev false p1 w1 Hev) as [p2 [w2 [H2 Hn2]]].
    { now rewrite (supervision_interrupt _ _ Hs1). }
    subst result. rewrite (join_running _ p w Hh), H1.
    simpl join_loop. unfold bind. rewrite H2. simpl.
    split; [reflexivity |].
    split; [eexists; reflexivity |].
    rewrite !count_snoc. simpl.
    rewrite (Hn2 is_kill is_kill_not_pipe_call).
    rewrite (Hn1 is_kill is_kill_not_pipe_call).
    rewrite (Hn2 is_exit_query is_exit_query_not_pipe_call).
    rewrite (Hn1 is_exit_query is_exit_query_not_pipe_call). simpl.
    split; [lia |]. split; [reflexivity |]. split; [lia | reflexivity].
Qed.


(** *** Dry runs *)

(** C8: with [conf::dry()] set, [run] logs the change of directory, when
    there is a working directory, and the command, makes no system call and
    leaves the process as it was; [join] on a process that has no child
    returns at once, with nothing logged and no system call. *)
Theorem C8_dry_run_spawns_nothing (a : spawn_answers) (evs : list poll)
    (p : process) (w : world) :
  let logged :=
    add_log (Log context.cmd context.debug ("> " ++ make_cmd p)%string)
      (if empty (cwd_ p) then w
       else add_log (Log context.cmd context.debug ("> cd " ++ cwd_ p)%string) w) in
  run true a p w = (Ok tt, p, logged) /\
  w_sys logged = w_sys w /\
  (is_empty (handle (impl_ p)) = true ->
   join for_each_line evs p logged = (Ok tt, p, logged)).
Proof.
  intros logged. split; [| split].
  - unfold run, bind, this, when, debug, log, ret. subst logged.
    destruct (empty (cwd_ p)); reflexivity.
  - subst logged. destruct (empty (cwd_ p)); reflexivity.
  - intros Hh. now apply join_not_running.
Qed.

(** *** The destructor *)

(** C9: the destructor does what [join] does and never throws: when [join]
    returns or throws, the destructor returns. *)
Theorem C9_destructor_never_throws (evs : list poll) (p : process) (w : world) :
  is_bailed (process_dtor for_each_line evs p w) = false /\
  snd (fst (process_dtor for_each_line evs p w))
    = snd (fst (join for_each_line evs p w)) /\
  snd (process_dtor for_each_line evs p w) = snd (join for_each_line evs p w) /\
  (fst (fst (join for_each_line evs p w)) <> Polling ->
   fst (fst (process_dtor for_each_line evs p w)) = Ok tt).
Proof.
  unfold process_dtor, try_catch_all.
  destruct (join for_each_line evs p w) as [[[[] | msg e |] p'] w']; simpl;
    repeat split; auto; congruence.
Qed.

(** *** The stored exit code *)

Lemma add_arg_code (t : bool) (k v : string) (f : Z) (p : process) :
  code_ (add_arg t k v f p) = code_ p.
Proof.
  unfold add_arg.
  repeat match goal with
    | |- context [if ?c then _ else _] => destruct c
    end; reflexivity.
Qed.

Lemma args_code (t : bool) (v : list string) (f : Z) :
  forall p, code_ (args t v f p) = code_ p.
Proof.
  unfold args. induction v as [| e v IH]; intros p; simpl; [reflexivity |].
  now rewrite IH, add_arg_code.
Qed.

Lemma args2_code (t : bool) (v : list (string * arg_value)) (f : Z) :
  forall p, code_ (args2 t v f p) = code_ p.
Proof.
  unfold args2. induction v as [| e v IH]; intros p; simpl; [reflexivity |].
  rewrite IH. apply add_arg_code.
Qed.

Lemma run_preserves_code (dry : bool) (a : spawn_answers) :
  preserves code_ (run dry a).
Proof.
  unfold run, do_run, debug, trace, create, create_pipe. frame; reflexivity.
Qed.

Lemma join_turn_preserves_code (ev : poll) (b : bool) :
  (on_wait ev =? WAIT_OBJECT_0) = false ->
  preserves code_ (join_turn for_each_line ev b).
Proof.
  intros H. unfold join_turn. rewrite H.
  unfold process_interrupt, trace, debug, error.
  frame; try reflexivity; apply log_line_preserves.
Qed.

Lemma join_loop_preserves_code (evs : list poll) :
  forall b,
    existsb (fun ev => on_wait ev =? WAIT_OBJECT_0) evs = false ->
    preserves code_ (join_loop for_each_line evs b).
Proof.
  induction evs as [| ev evs IH]; intros b H; simpl in *.
  - apply preserves_still_polling.
  - apply orb_false_iff in H. destruct H as [Hev Hevs].
    apply preserves_bind; [now apply join_turn_preserves_code |].
    intros [b' | b']; [apply preserves_ret | now apply IH].
Qed.

Lemma join_preserves_code (evs : list poll) :
  existsb (fun ev => on_wait ev =? WAIT_OBJECT_0) evs = false ->
  preserves code_ (join for_each_line evs).
Proof.
  intros H. unfold join, trace.
  apply preserves_bind; [apply preserves_this | intros q].
  destruct (is_empty (handle (impl_ q))); [apply preserves_ret |].
  apply preserves_bind; [apply preserves_log | intros _].
  apply preserves_bind; [now apply join_loop_preserves_code | intros b].
  frame; reflexivity.
Qed.

Lemma perform_preserves_code (c : call) :
  finds_exit c = false -> preserves code_ (perform for_each_line c).
Proof.
  destruct c; simpl; intros H;
    try (apply preserves_assign; intros p; reflexivity).
  - apply preserves_assign; intros p. apply add_arg_code.
  - apply preserves_assign; intros p. apply add_arg_code.
  - apply preserves_assign; intros p. apply args_code.
  - apply preserves_assign; intros p. apply args2_code.
  - apply run_preserves_code.
  - now apply join_preserves_code.
Qed.

Lemma pipe_code (p : process) (ps : list process) : code_ (pipe p ps) = code_ p.
Proof. destruct ps; reflexivity. Qed.

(** C10, as the code has it: the stored exit code is 0 in a process made
    by the constructor or by [raw], and no sequence of calls of member
    functions changes it unless one of them is a [join] that finds the
    child exited; so [exit_code()] of such a process is 0 until then,
    before [run], after a dry run and after a [join] that was left by a
    kill or by an error of the wait. A copy is another matter: the copy
    constructor and the copy assignment take the stored code of the
    process they copy, and so does [pipe], which returns a copy of its
    first process; [exit_code()] of a copy is that of its original,
    whether the copy has run a child or not. *)
Theorem C10_exit_code_is_zero_until_exit (calls : list call) (p q : process)
    (ps : list process) (cmd : string) (w : world) :
  exit_code process_ctor = 0 /\
  (existsb finds_exit calls = false ->
   code_ (fst (perform_all for_each_line calls p w)) = code_ p) /\
  (existsb finds_exit calls = false ->
   exit_code (fst (perform_all for_each_line calls process_ctor w)) = 0) /\
  exit_code (raw cmd) = 0 /\
  (existsb finds_exit calls = false ->
   exit_code (fst (perform_all for_each_line calls (raw cmd) w)) = 0) /\
  exit_code (process_copy p) = exit_code p /\
  exit_code (process_assign q p) = exit_code q /\
  exit_code (pipe p ps) = exit_code p /\
  is_empty (handle (impl_ (process_copy p))) = true /\
  is_empty (handle (impl_ (pipe p ps))) = true.
Proof.
  assert (H : forall cs q v, existsb finds_exit cs = false ->
                code_ (fst (perform_all for_each_line cs q v)) = code_ q).
  { induction cs as [| c cs IH]; intros q0 v Hcs; simpl in *; [reflexivity |].
    apply orb_false_iff in Hcs. destruct Hcs as [Hc Hcs].
    pose proof (perform_preserves_code c Hc q0 v) as Hp.
    destruct (perform for_each_line c q0 v) as [[o q'] v']. simpl in Hp.
    now rewrite (IH q' v' Hcs). }
  split; [reflexivity |].
  split; [apply H |].
  split; [intros Hc; unfold exit_code; now rewrite (H calls process_ctor w Hc) |].
  split; [reflexivity |].
  split; [intros Hc; unfold exit_code; now rewrite (H calls (raw cmd) w Hc) |].
  split; [reflexivity |].
  split; [reflexivity |].
  split; [unfold exit_code; now rewrite pipe_code |].
  split; [reflexivity |].
  destruct ps; reflexivity.
Qed.

End SupervisorFacts.

(** ** The theorems at sample inputs *)


(** C3, as stated, fails when the child is found exited in the first turn
    after [interrupt()]: [join] returns and [TerminateProcess] is not
    called. *)
Lemma C3_interrupted_child_exits_unkilled :
  has (flags_ (fst interrupted_child)) terminate_on_interrupt = true /\
  is_empty (handle (impl_ (fst interrupted_child))) = false /\
  interrupt (impl_ (fst interrupted_child)) = true /\
  fst (fst (join whole_chunk [exited 0] (fst interrupted_child)
              (snd interrupted_child))) = Ok tt /\
  count is_kill (w_sys (snd (join whole_chunk [exited 0] (fst interrupted_child)
                               (snd interrupted_child)))) = 0.
Proof. repeat split; reflexivity. Qed.

(** C3 at a child that is found running when [interrupt()] arrives in the
    second turn: it is killed, whatever it would have returned. *)
Lemma C3_interrupt_terminates_witness :
  forallb calm_timeout ([still_running] ++ [interrupt_arrives]) = true /\
  fst (fst (join whole_chunk [still_running; interrupt_arrives; exited 0]
              (named_child terminate_on_interrupt) empty_world)) = Ok tt /\
  count is_kill
    (w_sys (snd (join whole_chunk [still_running; interrupt_arrives; exited 0]
                   (named_child terminate_on_interrupt) empty_world))) = 1.
Proof.
  pose proof (C3_interrupt_terminates whole_chunk [still_running] [exited 0]
                interrupt_arrives (named_child terminate_on_interrupt)
                empty_world eq_refl eq_refl) as H.
  cbv zeta in H. destruct H as [H _].
  destruct (H eq_refl eq_refl) as [Hok [_ [Hkill _]]].
  split; [reflexivity |].
  split; [exact Hok | exact Hkill].
Defined.

(** One signal is sent, however many turns follow it. *)
Example break_signal_sent_once :
  count is_break
    (w_sys (snd (join whole_chunk
                   [interrupt_arrives; still_running; still_running;
                    still_running; exited 0]
                   (named_child noflags) empty_world))) = 1.
Proof. reflexivity. Qed.

(** C8 at a raw command with a working directory. *)
Lemma C8_dry_run_spawns_nothing_witness :
  is_empty (handle (impl_ (cwd "build" (raw "a")))) = true /\
  run true spawn_fine (cwd "build" (raw "a")) empty_world
    = (Ok tt, cwd "build" (raw "a"),
       World [Log context.cmd context.debug "> cd build";
              Log context.cmd context.debug "> a"] [] 0) /\
  join whole_chunk [exited 7] (cwd "build" (raw "a"))
    (World [Log context.cmd context.debug "> cd build";
            Log context.cmd context.debug "> a"] [] 0)
    = (Ok tt, cwd "build" (raw "a"),
       World [Log context.cmd context.debug "> cd build";
              Log context.cmd context.debug "> a"] [] 0).
Proof.
  pose proof (C8_dry_run_spawns_nothing whole_chunk spawn_fine [exited 7]
                (cwd "build" (raw "a")) empty_world) as H.
  cbv zeta in H. destruct H as [Hrun [_ Hjoin]].
  split; [reflexivity |].
  split; [exact Hrun | exact (Hjoin eq_refl)].
Defined.

(** Without [conf::dry()], the same [run] creates a process. *)
Example run_spawns :
  count is_spawn
    (w_sys (snd (run false spawn_fine (cwd "build" (raw "a")) empty_world))) = 1 /\
  handle (impl_ (snd (fst (run false spawn_fine (cwd "build" (raw "a"))
                             empty_world)))) = Some 77.
Proof. split; reflexivity. Qed.

(** C9 at a child that exits with code 7 without [allow_failure]: [join]
    throws, the destructor returns. *)
Lemma C9_destructor_never_throws_witness :
  fst (fst (join whole_chunk [exited 7] (named_child noflags) empty_world))
    = Bailed "b2 returned 7" None /\
  fst (fst (process_dtor whole_chunk [exited 7] (named_child noflags) empty_world))
    = Ok tt.
Proof.
  split; [reflexivity |].
  apply (C9_destructor_never_throws whole_chunk [exited 7] (named_child noflags)
           empty_world).
  discriminate.
Defined.

(** C10 at a process that is configured, run dry, run, interrupted and
    joined until the wait fails. *)
Lemma C10_exit_code_is_zero_until_exit_witness :
  existsb finds_exit
    [call_binary "b2"; call_arg2 false "--with" (text "thread") noargflags;
     call_run true spawn_fine; call_join [still_running];
     call_run false spawn_fine; call_interrupt;
     call_join [still_running; wait_fails]] = false /\
  exit_code
    (fst (perform_all whole_chunk
            [call_binary "b2"; call_arg2 false "--with" (text "thread") noargflags;
             call_run true spawn_fine; call_join [still_running];
             call_run false spawn_fine; call_interrupt;
             call_join [still_running; wait_fails]]
            process_ctor empty_world)) = 0.
Proof.
  split; [reflexivity |].
  exact (proj1 (proj2 (proj2
    (C10_exit_code_is_zero_until_exit whole_chunk
       [call_binary "b2"; call_arg2 false "--with" (text "thread") noargflags;
        call_run true spawn_fine; call_join [still_running];
        call_run false spawn_fine; call_interrupt;
        call_join [still_running; wait_fails]]
       process_ctor process_ctor [] "a" empty_world))) eq_refl).
Defined.

(** C10, as stated, fails for a copy: [pipe] of a process whose child has
    exited with the code 7 and of a second process returns a process that
    holds no child and was never run, and whose [exit_code()] is 7. *)
Lemma C10_copy_of_exited_process_keeps_its_code :
  exit_code (fst finished_child) = 7 /\
  is_empty (handle (impl_ (pipe (fst finished_child) [raw "b"]))) = true /\
  make_cmd (pipe (fst finished_child) [raw "b"]) = "a | b" /\
  exit_code (pipe (fst finished_child) [raw "b"]) = 7 /\
  exit_code (process_copy (fst finished_child)) = 7.
Proof. repeat split; reflexivity. Qed.

(** * Properties member functions keep *)

Section Keeps.

Context (P : process -> Prop).

Lemma keeps_ret A (a : A) : keeps P (ret a).
Proof. intros p w H. exact H. Qed.

Lemma keeps_this : keeps P this.
Proof. intros p w H. exact H. Qed.

Lemma keeps_system (c : syscall) : keeps P (system c).
Proof. intros p w H. exact H. Qed.

Lemma keeps_log rs level s : keeps P (log rs level s).
Proof. intros p w H. exact H. Qed.

Lemma keeps_bail_out A msg e : keeps P (@bail_out process A msg e).
Proof. intros p w H. exact H. Qed.

Lemma keeps_still_polling A : keeps P (@still_polling process A).
Proof. intros p w H. exact H. Qed.

Lemma keeps_assign (g : process -> process) :
  (forall p, P p -> P (g p)) -> keeps P (assign g).
Proof. intros Hg p w H. now apply Hg. Qed.

Lemma keeps_bind A B (m : M process A) (k : A -> M process B) :
  keeps P m -> (forall a, keeps P (k a)) -> keeps P (bind m k).
Proof.
  intros Hm Hk p w H. unfold bind. specialize (Hm p w H).
  destruct (m p w) as [[[a | msg e |] p'] w']; simpl in *; try exact Hm.
  now apply Hk.
Qed.

Lemma keeps_when (c : bool) (m : M process unit) :
  keeps P m -> keeps P (when c m).
Proof. destruct c; simpl; [auto | intros _; apply keeps_ret]. Qed.

Lemma keeps_for_each A (l : list A) (k : A -> M process unit) :
  (forall a, keeps P (k a)) -> keeps P (for_each l k).
Proof.
  intros Hk. induction l as [| a l IH]; simpl.
  - apply keeps_ret.
  - apply keeps_bind; auto.
Qed.

Lemma keeps_on_stdout_pipe A (m : M async_pipe A) :
  (forall a p, P p -> P (set_impl_stdout_pipe a p)) ->
  keeps P (on_stdout_pipe m).
Proof.
  intros H p w Hp. unfold on_stdout_pipe, on_member.
  destruct (m (stdout_pipe (impl_ p)) w) as [[o a] w']. now apply H.
Qed.

Lemma keeps_on_stderr_pipe A (m : M async_pipe A) :
  (forall a p, P p -> P (set_impl_stderr_pipe a p)) ->
  keeps P (on_stderr_pipe m).
Proof.
  intros H p w Hp. unfold on_stderr_pipe, on_member.
  destruct (m (stderr_pipe (impl_ p)) w) as [[o a] w']. now apply H.
Qed.

Lemma keeps_preserved A X (f : process -> X) (m : M process A) :
  (forall p q, f q = f p -> P p -> P q) -> preserves f m -> keeps P m.
Proof. intros Hf Hm p w H. apply (Hf p); [apply Hm | exact H]. Qed.

End Keeps.

(** Goes through a member function, leaving the assignments to check. *)
Ltac keep :=
  repeat first
    [ apply keeps_ret | apply keeps_this | apply keeps_system | apply keeps_log
    | apply keeps_bail_out | apply keeps_still_polling
    | apply keeps_bind; [| intros ?]
    | apply keeps_when | apply keeps_for_each; intros ?
    | apply keeps_assign; intros ? ?
    | apply keeps_on_stdout_pipe; intros ? ? ?
    | apply keeps_on_stderr_pipe; intros ? ? ?
    | match goal with
      | |- keeps _ (if ?c then _ else _) => destruct c
      | |- keeps _ (match ?c with _ => _ end) => destruct c
      | |- keeps _ (let _ := _ in _) => cbv zeta
      end ].

(** * Further properties of the arguments *)

Lemma string_append_assoc (a b c : string) :
  ((a ++ b) ++ c)%string = (a ++ (b ++ c))%string.
Proof. induction a as [| x a IH]; simpl; [reflexivity | now rewrite IH]. Qed.

Lemma string_append_empty (a : string) : (a ++ EmptyString)%string = a.
Proof. induction a as [| x a IH]; simpl; [reflexivity | now rewrite IH]. Qed.

Lemma string_append_inj (a b c : string) : (a ++ b)%string = (a ++ c)%string -> b = c.
Proof.
  induction a as [| x a IH]; simpl; intros H; [exact H |].
  injection H as H. now apply IH.
Qed.

Lemma set_cmd_same (p : process) (suffix : string) :
  suffix = EmptyString -> set_cmd_ (cmd_ p ++ suffix)%string p = p.
Proof. intros H. subst. rewrite string_append_empty. now destruct p. Qed.

Lemma add_arg_appends (t : bool) (k v : string) (f : Z) (p : process) :
  exists suffix, add_arg t k v f p = set_cmd_ (cmd_ p ++ suffix)%string p.
Proof.
  unfold add_arg.
  destruct (has f verbose && negb t);
    [exists EmptyString; symmetry; now apply set_cmd_same |].
  destruct (has f quiet && t);
    [exists EmptyString; symmetry; now apply set_cmd_same |].
  destruct (empty k && empty v);
    [exists EmptyString; symmetry; now apply set_cmd_same |].
  destruct (empty k); [eexists; reflexivity |].
  destruct (has f nospace || ends_with_equals k); eexists; reflexivity.
Qed.

Lemma fold_add_arg_appends (A : Type) (step : process -> A -> process) :
  (forall q x, exists suffix, step q x = set_cmd_ (cmd_ q ++ suffix)%string q) ->
  forall (l : list A) (p : process),
    exists suffix, fold_left step l p = set_cmd_ (cmd_ p ++ suffix)%string p.
Proof.
  intros Hstep. induction l as [| x l IH]; intros p; simpl.
  - exists EmptyString. symmetry. now apply set_cmd_same.
  - destruct (Hstep p x) as [s1 H1]. destruct (IH (step p x)) as [s2 H2].
    exists (s1 ++ s2)%string. rewrite H2, H1. simpl.
    now rewrite string_append_assoc.
Qed.

(** X6: [arg] and [args], in all their forms and under all flags, only add
    to the end of the arguments: what was there stays in front, in its
    order, and nothing else of the process changes. *)
Theorem arguments_are_only_appended (t : bool) (k : string) (value : arg_value)
    (names : list string) (pairs : list (string * arg_value)) (f : Z)
    (p : process) :
  (exists suffix, arg t value f p = set_cmd_ (cmd_ p ++ suffix)%string p) /\
  (exists suffix, arg2 t k value f p = set_cmd_ (cmd_ p ++ suffix)%string p) /\
  (exists suffix, args t names f p = set_cmd_ (cmd_ p ++ suffix)%string p) /\
  (exists suffix, args2 t pairs f p = set_cmd_ (cmd_ p ++ suffix)%string p).
Proof.
  split; [apply add_arg_appends |].
  split; [apply add_arg_appends |].
  split.
  - unfold args. apply fold_add_arg_appends. intros q x. apply add_arg_appends.
  - unfold args2. apply fold_add_arg_appends. intros q x. apply add_arg_appends.
Qed.

Lemma string_append_same (a s : string) : (a ++ s)%string = a -> s = EmptyString.
Proof.
  intros H. apply (string_append_inj a). now rewrite string_append_empty.
Qed.

(** X12: [add_arg] leaves the arguments as they are exactly when a tag
    shuts the fragment out or its key and value are both empty; a fragment
    tagged both [verbose] and [quiet] is never taken, whatever
    [conf::log_trace()] says. *)
Theorem add_arg_drops_exactly_the_excluded (t : bool) (k v : string) (f : Z)
    (p : process) :
  (cmd_ (add_arg t k v f p) = cmd_ p
   <-> included t f = false \/ empty k && empty v = true) /\
  (has f verbose = true -> has f quiet = true ->
   add_arg true k v f p = p /\ add_arg false k v f p = p).
Proof.
  split.
  - unfold add_arg, included.
    destruct (has f verbose && negb t); simpl; [tauto |].
    destruct (has f quiet && t); simpl; [tauto |].
    destruct (empty k && empty v) eqn:Hkv; simpl; [tauto |].
    split; [| intros [H | H]; discriminate].
    intros H. exfalso.
    destruct (empty k);
      [| destruct (has f nospace || ends_with_equals k)];
      simpl in H; apply string_append_same in H; discriminate.
  - intros Hv Hq. split; apply add_arg_excluded; unfold included;
      rewrite Hv, Hq; reflexivity.
Qed.

Lemma args_excluded (t : bool) (names : list string) (f : Z) :
  included t f = false -> forall p, args t names f p = p.
Proof.
  intros H. unfold args.
  induction names as [| e names IH]; intros p; simpl; [reflexivity |].
  now rewrite add_arg_excluded, IH.
Qed.

Lemma add_arg_key_only (t : bool) (e : string) (f : Z) (p : process) :
  included t f = true ->
  cmd_ (add_arg t e EmptyString f p)
    = (cmd_ p ++ key_only_fragment (has f nospace) e)%string.
Proof.
  unfold included, add_arg, key_only_fragment. intros H.
  destruct (has f verbose && negb t); [discriminate |].
  destruct (has f quiet && t); [discriminate |].
  destruct (empty e); simpl; [now rewrite string_append_empty |].
  destruct (has f nospace || ends_with_equals e); simpl;
    rewrite ?string_append_empty; reflexivity.
Qed.

Lemma args_fragments (t : bool) (names : list string) (f : Z) :
  included t f = true ->
  forall p,
    cmd_ (args t names f p)
      = (cmd_ p ++ join_strings (map (key_only_fragment (has f nospace)) names))%string.
Proof.
  intros H. unfold args.
  induction names as [| e names IH]; intros p; simpl.
  - now rewrite string_append_empty.
  - rewrite IH, add_arg_key_only by exact H. apply string_append_assoc.
Qed.

(** X13: [args] on a container of strings adds them in their order, each
    after a space; an empty string adds nothing, and a string that does not
    end in [=] is followed by one more space, unless [nospace] is set. When
    a tag shuts the fragments out, nothing is added. *)
Theorem args_adds_each_string_in_order (t : bool) (names : list string) (f : Z)
    (p : process) :
  (included t f = true ->
   cmd_ (args t names f p)
     = (cmd_ p ++ join_strings (map (key_only_fragment (has f nospace)) names))%string) /\
  (included t f = false -> args t names f p = p).
Proof.
  split; [| intros H; now apply args_excluded].
  intros H. now apply args_fragments.
Qed.

(** X14: the command of a process is never empty. It is the raw text when
    there is one; [raw] with an empty text gives the process that the
    constructor gives, whose command is the empty binary in quotes. *)
Theorem make_cmd_is_never_empty (p : process) (raw_text : string) :
  empty (make_cmd p) = false /\
  empty (make_name p) = false /\
  (empty raw_text = false -> make_cmd (raw raw_text) = raw_text) /\
  raw EmptyString = process_ctor /\
  make_cmd (raw EmptyString) = (dquote ++ dquote)%string.
Proof.
  assert (H : empty (make_cmd p) = false).
  { unfold make_cmd. destruct (empty (raw_ p)) eqn:Hr; simpl; [reflexivity | exact Hr]. }
  split; [exact H |].
  split.
  { unfold make_name. destruct (empty (name_ p)) eqn:Hn; simpl; [exact H | exact Hn]. }
  split; [intros Ht; now apply make_cmd_raw |].
  split; reflexivity.
Qed.

Lemma pipe_two (p1 p2 : process) :
  make_cmd (pipe p1 [p2]) = (make_cmd p1 ++ " | " ++ make_cmd p2)%string /\
  settings (pipe p1 [p2])
    = (name_ p1, bin_ p1, cwd_ p1, flags_ p1, stdout_level_ p1, stdout_filter_ p1,
       stderr_level_ p1, stderr_filter_ p1, env_ p1,
       (make_cmd p1 ++ " | " ++ make_cmd p2)%string, cmd_ p1) /\
  handle (impl_ (pipe p1 [p2])) = None.
Proof.
  split; [apply make_cmd_pipe |]. split; reflexivity.
Qed.

(** X15: [pipe] on two processes gives the command of the first, a bar and
    the command of the second, with the other settings of the first and no
    child; and it composes: a pipeline built two processes at a time has
    every stage, in order. *)
Theorem pipe_of_two_composes (p1 : process) (ps : list process) :
  make_cmd (pipe_chain p1 ps)
    = fold_left (fun s q => (s ++ " | " ++ make_cmd q)%string) ps (make_cmd p1) /\
  cwd_ (pipe_chain p1 ps) = cwd_ p1 /\ env_ (pipe_chain p1 ps) = env_ p1 /\
  flags_ (pipe_chain p1 ps) = flags_ p1 /\ name_ (pipe_chain p1 ps) = name_ p1 /\
  (ps <> [] -> handle (impl_ (pipe_chain p1 ps)) = None).
Proof.
  unfold pipe_chain. revert p1.
  induction ps as [| q ps IH]; intros p1; cbn [fold_left].
  - repeat split; try reflexivity. intros H. now destruct H.
  - destruct (IH (pipe p1 [q])) as [Hc [Hw [He [Hf [Hn Hh]]]]].
    destruct (pipe_two p1 q) as [Hm _].
    rewrite Hc, Hw, He, Hf, Hn, Hm.
    split; [reflexivity |]. split; [reflexivity |]. split; [reflexivity |].
    split; [reflexivity |]. split; [reflexivity |].
    intros _. destruct ps as [| q' ps]; [reflexivity |].
    apply Hh. discriminate.
Qed.

(** * Further properties of the pipes *)

Lemma read_delivers (a : read_answers) (q : async_pipe) (w : world) (s : string) :
  delivered (pending_ q) a = Some s ->
  exists q' calls,
    read a q w = (Ok s, q', World (w_log w) (w_sys w ++ calls) (pipe_id w)).
Proof.
  unfold delivered, fatal_read, unexpected_ReadFile_error,
    unexpected_GetOverlappedResult_error.
  unfold read, try_read, check_pending, bind, this, system, assign, ret, bail_out,
    add_sys. simpl.
  destruct (pending_ q); simpl.
  - destruct (on_WaitForSingleObject a =? WAIT_FAILED); simpl; [discriminate |].
    destruct (on_GetOverlappedResult a) as [bytes | e]; simpl.
    + intros H. injection H as H. subst s.
      eexists _, _. rewrite <- !app_assoc. reflexivity.
    + destruct (e =? ERROR_IO_INCOMPLETE); simpl;
        [| destruct (e =? WAIT_TIMEOUT); simpl;
           [| destruct (e =? ERROR_BROKEN_PIPE); simpl; [| discriminate]]];
        intros H; injection H as H; subst s;
        eexists _, _; rewrite <- !app_assoc; reflexivity.
  - destruct (on_ReadFile a) as [bytes | e]; simpl.
    + intros H. injection H as H. subst s. eexists _, _. reflexivity.
    + destruct (e =? ERROR_IO_PENDING); simpl;
        [| destruct (e =? ERROR_BROKEN_PIPE); simpl; [| discriminate]];
        intros H; injection H as H; subst s; eexists _, _; reflexivity.
Qed.

(** X18: [read] returns bytes only when the system delivers them: at once
    from [ReadFile] on a pipe with no read pending, or from
    [GetOverlappedResult] on a pipe with one, which then has none pending
    and its event reset. Every other [read] that returns, returns
    nothing. *)
Theorem read_returns_what_the_system_delivers (a : read_answers) (p : async_pipe)
    (w : world) :
  (forall bytes, pending_ p = false -> on_ReadFile a = Done bytes ->
     read a p w
       = (Ok bytes, p, add_sys (ReadFile (get (stdout_ p)) (Done bytes)) w)) /\
  (forall bytes, pending_ p = true -> on_WaitForSingleObject a <> WAIT_FAILED ->
     on_GetOverlappedResult a = Done bytes ->
     read a p w
       = (Ok bytes, set_pending_ false p,
          add_sys (ResetEvent (get (event_ p)))
            (add_sys (GetOverlappedResult (get (stdout_ p)) (Done bytes))
               (add_sys (WaitForSingleObject (get (event_ p)) pipe_timeout) w)))) /\
  (forall s, fst (fst (read a p w)) = Ok s -> s <> EmptyString ->
     (pending_ p = false /\ on_ReadFile a = Done s) \/
     (pending_ p = true /\ on_GetOverlappedResult a = Done s)).
Proof.
  split; [| split].
  - intros bytes Hp Ha. run_member. rewrite Hp, Ha. reflexivity.
  - intros bytes Hp Hw Ha. run_member. rewrite Hp. simpl.
    apply Z.eqb_neq in Hw. rewrite Hw, Ha. reflexivity.
  - intros s. run_member. destruct (pending_ p); simpl.
    + destruct (on_WaitForSingleObject a =? WAIT_FAILED); simpl; [discriminate |].
      destruct (on_GetOverlappedResult a) as [bytes | e]; simpl.
      * intros H _. injection H as H. subst. right. auto.
      * destruct (e =? ERROR_IO_INCOMPLETE); simpl;
          [| destruct (e =? WAIT_TIMEOUT); simpl;
             [| destruct (e =? ERROR_BROKEN_PIPE); simpl; [| discriminate]]];
          intros H Hs; injection H as H; subst; now destruct Hs.
    + destruct (on_ReadFile a) as [bytes | e]; simpl.
      * intros H _. injection H as H. subst. left. auto.
      * destruct (e =? ERROR_IO_PENDING); simpl;
          [| destruct (e =? ERROR_BROKEN_PIPE); simpl; [| discriminate]];
          intros H Hs; injection H as H; subst; now destruct Hs.
Qed.

Lemma read_incomplete (a : read_answers) (p : async_pipe) (w : world) :
  pending_ p = true -> incomplete a = true ->
  pending_ (snd (fst (read a p w))) = true /\
  count is_ReadFile (w_sys (snd (read a p w))) = count is_ReadFile (w_sys w) /\
  (fst (fst (read a p w)) = Ok EmptyString \/ is_bailed (read a p w) = true).
Proof.
  unfold incomplete. intros Hp Ha. run_member. rewrite Hp. simpl.
  destruct (on_WaitForSingleObject a =? WAIT_FAILED); simpl.
  { rewrite count_snoc. simpl. repeat split; auto; lia. }
  destruct (on_GetOverlappedResult a) as [bytes | e]; [discriminate |]. simpl.
  destruct (e =? ERROR_IO_INCOMPLETE); simpl;
    [| destruct (e =? WAIT_TIMEOUT); simpl;
       [| destruct (e =? ERROR_BROKEN_PIPE); simpl]];
    rewrite !count_snoc; simpl; repeat split; auto; lia.
Qed.

(** X19: a pipe with a read pending calls [ReadFile] again only after
    [GetOverlappedResult] has completed that read. While it does not, be it
    for want of data or because the pipe is broken, every [read] leaves the
    read pending and calls no [ReadFile]. *)
Theorem pending_pipe_reads_again_only_after_completion (l : list read_answers)
    (p : async_pipe) (w : world) :
  pending_ p = true ->
  forallb incomplete l = true ->
  pending_ (fst (read_repeatedly l p w)) = true /\
  count is_ReadFile (w_sys (snd (read_repeatedly l p w)))
    = count is_ReadFile (w_sys w).
Proof.
  revert p w. induction l as [| a l IH]; intros p w Hp Hl; simpl in *.
  - split; [exact Hp | reflexivity].
  - apply andb_true_iff in Hl. destruct Hl as [Ha Hl].
    destruct (read_incomplete a p w Hp Ha) as [Hp' [Hc _]].
    destruct (read a p w) as [[o p'] w']. simpl in Hp', Hc.
    destruct (IH p' w' Hp' Hl) as [H1 H2].
    split; [exact H1 | now rewrite H2].
Qed.

(** * Further properties of [run] *)

Lemma throwing_keeps_preserved A X (f : process -> X) (m : M process A) :
  preserves f m -> throwing_keeps f m.
Proof. intros H p w _. apply H. Qed.

Lemma throwing_keeps_never A X (f : process -> X) (m : M process A) :
  never_throws m -> throwing_keeps f m.
Proof. intros H p w Hb. rewrite H in Hb. discriminate. Qed.

Lemma throwing_keeps_bind A B X (f : process -> X) (m : M process A)
    (k : A -> M process B) :
  preserves f m -> (forall a, throwing_keeps f (k a)) ->
  throwing_keeps f (bind m k).
Proof.
  intros Hm Hk p w. unfold bind. specialize (Hm p w).
  destruct (m p w) as [[[a | msg e |] p'] w']; simpl in *; intros Hb;
    try exact Hm; try discriminate.
  rewrite (Hk a p' w' Hb). exact Hm.
Qed.

Lemma do_run_throwing_keeps_handle (a : spawn_answers) (what : string) :
  throwing_keeps (fun p => (handle (impl_ p), code_ p)) (do_run a what).
Proof.
  unfold do_run.
  apply throwing_keeps_bind;
    [apply preserves_on_stdout_pipe; reflexivity | intros process_stdout].
  apply throwing_keeps_bind;
    [apply preserves_on_stderr_pipe; reflexivity | intros process_stderr].
  cbv zeta.
  apply throwing_keeps_bind; [apply preserves_this | intros p].
  apply throwing_keeps_bind; [unfold when; frame | intros _].
  apply throwing_keeps_bind; [apply preserves_log | intros _].
  apply throwing_keeps_bind; [apply preserves_system | intros _].
  destruct (on_CreateProcessA a) as [pi | e].
  - apply throwing_keeps_never. intros q v. reflexivity.
  - apply throwing_keeps_preserved, preserves_bail_out.
Qed.

(** X9: when [run] throws, whichever call of the system failed, the
    process holds the handle it held before: a process that had no child
    has none, and [join] and the destructor after the failed [run] do
    nothing. A dry [run] never throws. *)
Theorem run_that_throws_leaves_no_child (for_each_line : string -> list string)
    (dry : bool) (a : spawn_answers) (evs : list poll) (p : process) (w : world) :
  is_bailed (run dry a p w) = true ->
  let p' := snd (fst (run dry a p w)) in
  let w' := snd (run dry a p w) in
  dry = false /\
  handle (impl_ p') = handle (impl_ p) /\ code_ p' = code_ p /\
  (is_empty (handle (impl_ p)) = true ->
   join for_each_line evs p' w' = (Ok tt, p', w') /\
   process_dtor for_each_line evs p' w' = (Ok tt, p', w')).
Proof.
  intros Hb p' w'.
  assert (Hk : throwing_keeps (fun q => (handle (impl_ q), code_ q)) (run dry a)).
  { unfold run, debug.
    apply throwing_keeps_bind; [apply preserves_this | intros q].
    apply throwing_keeps_bind; [unfold when; frame | intros _].
    cbv zeta.
    apply throwing_keeps_bind; [apply preserves_log | intros _].
    destruct dry.
    - apply throwing_keeps_never. intros o v. reflexivity.
    - apply do_run_throwing_keeps_handle. }
  pose proof (Hk p w Hb) as Hsame. fold p' in Hsame.
  injection Hsame as Hh Hc.
  split.
  { destruct dry; [| reflexivity].
    unfold run, bind, this, when, debug, log, ret in Hb.
    destruct (negb (empty (cwd_ p))); discriminate. }
  split; [exact Hh |]. split; [exact Hc |].
  intros He. rewrite <- Hh in He.
  assert (Hj : join for_each_line evs p' w' = (Ok tt, p', w'))
    by now apply join_not_running.
  split; [exact Hj |].
  unfold process_dtor, try_catch_all. now rewrite Hj.
Qed.

Lemma count_one (f : syscall -> bool) (c : syscall) :
  count f [c] = if f c then 1 else 0.
Proof. unfold count. simpl. destruct (f c); reflexivity. Qed.

Lemma get_reset_not_invalid (h : HANDLE) :
  h <> INVALID_HANDLE_VALUE -> (get (reset h) =? INVALID_HANDLE_VALUE) = false.
Proof.
  intros H. unfold reset. destruct (h =? 0); simpl; [reflexivity |].
  now apply Z.eqb_neq.
Qed.

Lemma pipe_names_app (l l' : list syscall) :
  pipe_names (l ++ l') = pipe_names l ++ pipe_names l'.
Proof.
  induction l as [| c l IH]; simpl; [reflexivity |].
  destruct c; simpl; now rewrite ?IH.
Qed.

(** What [create] does when the system makes the pipe. *)
Lemma create_made (a : create_answers) (output_read output_write hEvent : HANDLE)
    (q : async_pipe) (w : world) :
  pipe_made a output_read output_write hEvent ->
  exists calls,
    create a q w =
      (Ok (reset output_write),
       AsyncPipe (reset output_read) (reset hEvent) (pending_ q),
       World (w_log w) (w_sys w ++ calls) (pipe_id w + 1)) /\
    count is_spawn calls = 0 /\ count is_create_directories calls = 0 /\
    pipe_names calls = [pipe_name (pipe_id w + 1)].
Proof.
  intros [[pipe_handle [Hn _]] [Hd [Hf [He [Hv _]]]]].
  unfold create, create_pipe, bind, the_world, system, assign, ret.
  rewrite Hn. simpl. rewrite Hd. simpl. rewrite Hf. simpl.
  rewrite (get_reset_not_invalid _ Hv), He. simpl.
  unfold add_sys, set_pipe_id, set_event_, set_stdout_. simpl.
  eexists. rewrite <- !app_assoc. simpl. split; [reflexivity |].
  split; [reflexivity |]. split; reflexivity.
Qed.

Lemma get_reset (h : HANDLE) : get (reset h) = h.
Proof.
  unfold reset. destruct (h =? 0) eqn:H; simpl; [| reflexivity].
  apply Z.eqb_eq in H. now subst h.
Qed.

Lemma bind_ok O A B (m : M O A) (k : A -> M O B) (o o' : O) (w w' : world) (a : A) :
  m o w = (Ok a, o', w') -> bind m k o w = k a o' w'.
Proof. intros H. unfold bind. now rewrite H. Qed.

Lemma run_is_do_run (a : spawn_answers) (p : process) (w : world) :
  run false a p w
    = do_run a (make_cmd p) p
        (add_log (Log context.cmd context.debug ("> " ++ make_cmd p)%string)
           (if empty (cwd_ p) then w
            else add_log (Log context.cmd context.debug ("> cd " ++ cwd_ p)%string)
                   w)).
Proof.
  unfold run, bind, this, when, debug, log, ret.
  destruct (empty (cwd_ p)); reflexivity.
Qed.

Lemma on_stdout_pipe_eval A (m : M async_pipe A) (p : process) (w v : world)
    (r : outcome A) (q : async_pipe) :
  m (stdout_pipe (impl_ p)) w = (r, q, v) ->
  on_stdout_pipe m p w = (r, set_impl_stdout_pipe q p, v).
Proof. intros H. unfold on_stdout_pipe, on_member. now rewrite H. Qed.

Lemma on_stderr_pipe_eval A (m : M async_pipe A) (p : process) (w v : world)
    (r : outcome A) (q : async_pipe) :
  m (stderr_pipe (impl_ p)) w = (r, q, v) ->
  on_stderr_pipe m p w = (r, set_impl_stderr_pipe q p, v).
Proof. intros H. unfold on_stderr_pipe, on_member. now rewrite H. Qed.

(** What [do_run] does up to the creation of the process, when the system
    makes both pipes. *)
Lemma do_run_made (a : spawn_answers) (what : string)
    (r1 w1 e1 r2 w2 e2 : HANDLE) (p : process) (w : world) :
  pipe_made (on_stdout_create a) r1 w1 e1 ->
  pipe_made (on_stderr_create a) r2 w2 e2 ->
  let child :=
    CreateProcessA (COMSPEC a) ("/C " ++ dquote ++ what ++ dquote)%string
      CREATE_NEW_PROCESS_GROUP
      (if empty (cwd_ p) then None else Some (cwd_ p)) (env_ p) w1 w2 in
  let p1 :=
    set_impl_stderr_pipe
      (AsyncPipe (reset r2) (reset e2) (pending_ (stderr_pipe (impl_ p))))
      (set_impl_stdout_pipe
         (AsyncPipe (reset r1) (reset e1) (pending_ (stdout_pipe (impl_ p)))) p) in
  exists calls,
    count is_spawn calls = 0 /\
    count is_create_directories calls = (if empty (cwd_ p) then 0 else 1) /\
    pipe_names calls = [pipe_name (pipe_id w + 1); pipe_name (pipe_id w + 2)] /\
    let v :=
      World (w_log w ++ [Log context.cmd context.trace "creating process"])
        (w_sys w ++ calls ++ [child]) (pipe_id w + 2) in
    do_run a what p w =
      match on_CreateProcessA a with
      | Done pi =>
          (Ok tt, set_impl_handle (reset (hProcess pi)) p1,
           add_sys (CloseHandle (hThread pi))
             (add_log (Log context.cmd context.trace
                         ("pid " ++ to_string (dwProcessId pi))%string) v))
      | Fail e =>
          (Bailed ("failed to start '" ++ COMSPEC a ++ "'")%string (Some e), p1, v)
      end.
Proof.
  intros Hout Herr child p1.
  destruct (create_made (on_stdout_create a) r1 w1 e1 (stdout_pipe (impl_ p)) w Hout)
    as [c1 [H1 [Hs1 [Hd1 Hn1]]]].
  set (pa := set_impl_stdout_pipe
               (AsyncPipe (reset r1) (reset e1) (pending_ (stdout_pipe (impl_ p)))) p).
  set (va := World (w_log w) (w_sys w ++ c1) (pipe_id w + 1)) in *.
  destruct (create_made (on_stderr_create a) r2 w2 e2 (stderr_pipe (impl_ pa)) va Herr)
    as [c2 [H2 [Hs2 [Hd2 Hn2]]]].
  exists (c1 ++ c2 ++ (if empty (cwd_ p) then [] else [create_directories (cwd_ p)])).
  split.
  { rewrite !count_app, Hs1, Hs2. destruct (empty (cwd_ p)); reflexivity. }
  split.
  { rewrite !count_app, Hd1, Hd2. destruct (empty (cwd_ p)); reflexivity. }
  split.
  { rewrite !pipe_names_app, Hn1, Hn2. subst va. simpl pipe_id.
    replace (pipe_id w + 1 + 1) with (pipe_id w + 2) by lia.
    destruct (empty (cwd_ p)); reflexivity. }
  intros v. unfold do_run.
  erewrite bind_ok by (apply on_stdout_pipe_eval; exact H1).
  erewrite bind_ok by (apply on_stderr_pipe_eval; exact H2).
  rewrite !get_reset.
  subst v va pa p1 child.
  unfold bind, this, when, trace, log, system, assign, ret, bail_out,
    add_sys, add_log; simpl.
  replace (pipe_id w + 1 + 1) with (pipe_id w + 2) by lia.
  destruct (empty (cwd_ p)); simpl;
    destruct (on_CreateProcessA a) as [pi | e]; simpl;
    repeat (rewrite <- !app_assoc; simpl); reflexivity.
Qed.



(** X10: when the system makes both pipes, [run] starts the child through
    the command interpreter named by [COMSPEC], with the arguments [/C]
    and the command of the process in quotes, in a new process group, with
    the environment of the process, with the write ends of the two pipes
    as its standard output and standard error, and in the working
    directory of the process when it has one, which it creates first. The
    two pipes are named after the next two counts. If the system creates
    the process, [run] returns and the process holds its handle and both
    pipes; if not, [run] throws [failed to start] with the error of the
    system and holds no new handle. *)
Theorem run_starts_the_child_through_the_interpreter (a : spawn_answers)
    (r1 w1 e1 r2 w2 e2 : HANDLE) (p : process) (w : world) :
  pipe_made (on_stdout_create a) r1 w1 e1 ->
  pipe_made (on_stderr_create a) r2 w2 e2 ->
  0 <= pipe_id w -> pipe_id w + 2 < 2 ^ 31 ->
  let child :=
    CreateProcessA (COMSPEC a) ("/C " ++ dquote ++ make_cmd p ++ dquote)%string
      CREATE_NEW_PROCESS_GROUP
      (if empty (cwd_ p) then None else Some (cwd_ p)) (env_ p) w1 w2 in
  let result := run false a p w in
  count is_spawn (w_sys (snd result)) = count is_spawn (w_sys w) + 1 /\
  count is_create_directories (w_sys (snd result))
    = count is_create_directories (w_sys w) + (if empty (cwd_ p) then 0 else 1) /\
  pipe_names (w_sys (snd result))
    = pipe_names (w_sys w) ++ [pipe_name (pipe_id w + 1); pipe_name (pipe_id w + 2)] /\
  pipe_id (snd result) = pipe_id w + 2 /\
  configuration (snd (fst result)) = configuration p /\
  (forall pi, on_CreateProcessA a = Done pi ->
     fst (fst result) = Ok tt /\
     impl_ (snd (fst result))
       = Impl (reset (hProcess pi)) (interrupt (impl_ p))
           (AsyncPipe (reset r1) (reset e1) (pending_ (stdout_pipe (impl_ p))))
           (AsyncPipe (reset r2) (reset e2) (pending_ (stderr_pipe (impl_ p)))) /\
     exists earlier,
       w_sys (snd result) = earlier ++ [child; CloseHandle (hThread pi)]) /\
  (forall e, on_CreateProcessA a = Fail e ->
     fst (fst result)
       = Bailed ("failed to start '" ++ COMSPEC a ++ "'")%string (Some e) /\
     handle (impl_ (snd (fst result))) = handle (impl_ p) /\
     exists earlier, w_sys (snd result) = earlier ++ [child]).
Proof.
  intros Hout Herr _ _ child result.
  destruct (do_run_made a (make_cmd p) r1 w1 e1 r2 w2 e2 p
              (add_log (Log context.cmd context.debug ("> " ++ make_cmd p)%string)
                 (if empty (cwd_ p) then w
                  else add_log (Log context.cmd context.debug
                                  ("> cd " ++ cwd_ p)%string) w))
              Hout Herr) as [calls [Hs [Hd [Hn Hrun]]]].
  cbv zeta in Hrun. fold child in Hrun.
  assert (Hw : w_sys (add_log (Log context.cmd context.debug
                                 ("> " ++ make_cmd p)%string)
                        (if empty (cwd_ p) then w
                         else add_log (Log context.cmd context.debug
                                         ("> cd " ++ cwd_ p)%string) w))
               = w_sys w /\
               pipe_id (add_log (Log context.cmd context.debug
                                   ("> " ++ make_cmd p)%string)
                          (if empty (cwd_ p) then w
                           else add_log (Log context.cmd context.debug
                                           ("> cd " ++ cwd_ p)%string) w))
               = pipe_id w).
  { destruct (empty (cwd_ p)); split; reflexivity. }
  destruct Hw as [Hw Hid]. rewrite Hw, Hid in Hrun. rewrite Hid in Hn.
  subst result. rewrite run_is_do_run, Hrun.
  destruct (on_CreateProcessA a) as [pi | e]; simpl.
  - rewrite !count_app, !count_one, !pipe_names_app, Hs, Hd, Hn.
    unfold child. simpl.
    split; [lia |]. split; [lia |]. split; [now rewrite ?app_nil_r |].
    split; [reflexivity |].
    split; [reflexivity |]. split; [| intros e He; discriminate].
    intros pi' Hpi. injection Hpi as Hpi. subst pi'.
    split; [reflexivity |]. split; [reflexivity |].
    exists (w_sys w ++ calls). now rewrite <- !app_assoc.
  - rewrite !count_app, !count_one, !pipe_names_app, Hs, Hd, Hn.
    unfold child. simpl.
    split; [lia |]. split; [lia |]. split; [now rewrite ?app_nil_r |].
    split; [reflexivity |].
    split; [reflexivity |]. split; [intros pi Hpi; discriminate |].
    intros e' He. injection He as He. subst e'.
    split; [reflexivity |]. split; [reflexivity |].
    exists (w_sys w ++ calls). now rewrite <- !app_assoc.
Qed.

(** * The names of the pipes *)

Lemma to_string_inj (n m : Z) :
  0 <= n -> 0 <= m -> to_string n = to_string m -> n = m.
Proof.
  unfold to_string. intros Hn Hm H.
  assert (Hnil : forall x, N.to_uint x <> Decimal.Nil).
  { intros [| q]; simpl; [discriminate |].
    apply DecimalPos.Unsigned.to_uint_nonnil. }
  apply (f_equal NilZero.uint_of_string) in H.
  rewrite !NilZero.usu in H by apply Hnil.
  injection H as H. apply DecimalN.Unsigned.to_uint_inj in H.
  now apply Z2N.inj.
Qed.

Lemma pipe_name_inj (n m : Z) :
  0 <= n -> 0 <= m -> pipe_name n = pipe_name m -> n = m.
Proof.
  unfold pipe_name. intros Hn Hm H.
  apply string_append_inj in H. now apply to_string_inj.
Qed.


Section WorldKeeps.

Context (J : world -> Prop).
Hypothesis J_log : forall e w, J w -> J (add_log e w).

Lemma world_keeps_ret O A (a : A) : world_keeps J (@ret O A a).
Proof. intros o w H. exact H. Qed.

Lemma world_keeps_this O : world_keeps J (@this O).
Proof. intros o w H. exact H. Qed.

Lemma world_keeps_the_world O : world_keeps J (@the_world O).
Proof. intros o w H. exact H. Qed.

Lemma world_keeps_assign O (g : O -> O) : world_keeps J (assign g).
Proof. intros o w H. exact H. Qed.

Lemma world_keeps_bail_out O A msg e : world_keeps J (@bail_out O A msg e).
Proof. intros o w H. exact H. Qed.

Lemma world_keeps_still_polling O A : world_keeps J (@still_polling O A).
Proof. intros o w H. exact H. Qed.

Lemma world_keeps_log O rs level s : world_keeps J (@log O rs level s).
Proof. intros o w H. now apply J_log. Qed.

Lemma world_keeps_system O (c : syscall) :
  (forall w, J w -> J (add_sys c w)) -> world_keeps J (@system O c).
Proof. intros Hc o w H. now apply Hc. Qed.

Lemma world_keeps_bind O A B (m : M O A) (k : A -> M O B) :
  world_keeps J m -> (forall a, world_keeps J (k a)) -> world_keeps J (bind m k).
Proof.
  intros Hm Hk o w H. unfold bind. specialize (Hm o w H).
  destruct (m o w) as [[[a | msg e |] o'] w']; simpl in *; try exact Hm.
  now apply Hk.
Qed.

Lemma world_keeps_when O (c : bool) (m : M O unit) :
  world_keeps J m -> world_keeps J (when c m).
Proof. destruct c; simpl; [auto | intros _; apply world_keeps_ret]. Qed.

Lemma world_keeps_for_each O A (l : list A) (k : A -> M O unit) :
  (forall a, world_keeps J (k a)) -> world_keeps J (for_each l k).
Proof.
  intros Hk. induction l as [| a l IH]; simpl.
  - apply world_keeps_ret.
  - apply world_keeps_bind; auto.
Qed.

Lemma world_keeps_on_member O Q A (g : O -> Q) (s : Q -> O -> O) (m : M Q A) :
  world_keeps J m -> world_keeps J (on_member g s m).
Proof.
  intros Hm o w H. unfold on_member. specialize (Hm (g o) w H).
  destruct (m (g o) w) as [[r q'] w']. exact Hm.
Qed.

End WorldKeeps.

Lemma pipes_named_apart_log (e : log_event) (w : world) :
  pipes_named_apart w -> pipes_named_apart (add_log e w).
Proof. intros H. exact H. Qed.

Lemma pipes_named_apart_sys (c : syscall) (w : world) :
  pipe_names [c] = [] -> pipes_named_apart w -> pipes_named_apart (add_sys c w).
Proof.
  intros Hc [H0 [Hd Hn]]. unfold pipes_named_apart. simpl.
  rewrite pipe_names_app, Hc, app_nil_r. auto.
Qed.

(** [create_pipe] takes the next count for the name of its pipe. *)
Lemma create_pipe_named_apart (a : create_answers) :
  world_keeps pipes_named_apart (create_pipe a).
Proof.
  intros q w [H0 [Hd Hn]].
  assert (Hnew : pipes_named_apart
                   (add_sys (CreateNamedPipeA (pipe_name (pipe_id w + 1)))
                      (set_pipe_id (pipe_id w + 1) w))).
  { unfold pipes_named_apart. simpl. rewrite pipe_names_app. simpl.
    split; [lia |]. split.
    - apply NoDup_app; [exact Hd | repeat constructor; intros [] |].
      intros n Hin [Hx | []]. subst n.
      destruct (Hn _ Hin) as [k [Hk Heq]].
      apply pipe_name_inj in Heq; lia.
    - intros n Hin. apply in_app_or in Hin. destruct Hin as [Hin | [Hx | []]].
      + destruct (Hn _ Hin) as [k [Hk Heq]]. exists k. split; [lia | exact Heq].
      + exists (pipe_id w + 1). split; [lia | now symmetry]. }
  unfold create_pipe, bind, the_world, system, assign, ret, bail_out. simpl.
  fold (pipe_name (pipe_id w + 1)).
  destruct (on_CreateNamedPipeA a) as [pipe_handle | e]; simpl; [| exact Hnew].
  destruct (on_DuplicateHandle a) as [output_read | e]; simpl;
    [| now apply pipes_named_apart_sys].
  destruct (on_CreateFileA a) as [output_write | e]; simpl;
    repeat (apply pipes_named_apart_sys; [reflexivity |]); exact Hnew.
Qed.

(** Goes through a member function that names pipes in [create_pipe] only. *)
Ltac named_apart :=
  repeat first
    [ apply create_pipe_named_apart
    | apply world_keeps_ret | apply world_keeps_this | apply world_keeps_the_world
    | apply world_keeps_assign | apply world_keeps_bail_out
    | apply world_keeps_still_polling
    | apply world_keeps_log; exact pipes_named_apart_log
    | apply world_keeps_bind; [| intros ?]
    | apply world_keeps_when | apply world_keeps_for_each; intros ?
    | apply world_keeps_on_member
    | apply world_keeps_system; intros ? ?; apply pipes_named_apart_sys;
      [reflexivity | assumption]
    | match goal with
      | |- world_keeps _ (if ?c then _ else _) => destruct c
      | |- world_keeps _ (match ?c with _ => _ end) => destruct c
      | |- world_keeps _ (let _ := _ in _) => cbv zeta
      end ].

Lemma run_named_apart (dry : bool) (a : spawn_answers) :
  world_keeps pipes_named_apart (run dry a).
Proof.
  unfold run, do_run, on_stdout_pipe, on_stderr_pipe, create, debug, trace.
  named_apart.
Qed.

(** * Further properties of the supervisor *)

Section SupervisorMore.

Variable for_each_line : string -> list string.

Ltac run_turn :=
  unfold join_turn, bind, when, process_interrupt, this, system, assign, ret,
    bail_out, trace, debug, error, log; simpl.

Ltac read_the_pipes ev Ho He :=
  match goal with
  | |- context [read_pipes for_each_line ev ?q ?v] =>
      let Hok := fresh "Hok" in
      let Hsup := fresh "Hsup" in
      let Hcnt := fresh "Hcnt" in
      pose proof (read_pipes_calm for_each_line ev q v Ho He) as Hok;
      pose proof (read_pipes_supervision for_each_line ev q v) as Hsup;
      pose proof (fun f Hf => read_pipes_count for_each_line f ev q v Hf) as Hcnt;
      destruct (read_pipes for_each_line ev q v) as [[o2 p2] w2];
      simpl in Hok, Hsup, Hcnt; subst o2
  end.

(** ** A wait that fails *)

Lemma join_turn_wait_fails (ev : poll) (b : bool) (p : process) (w : world) :
  (on_wait ev =? WAIT_OBJECT_0) = false -> (on_wait ev =? WAIT_TIMEOUT) = false ->
  exists p' w',
    join_turn for_each_line ev b p w
      = (Bailed "failed to wait on process" (Some (on_wait_error ev)), p', w') /\
    handle (impl_ p') = None /\ code_ p' = code_ p /\
    forall f, (forall c, is_pipe_call c = true -> f c = false) ->
              count f (w_sys w') = count f (w_sys w).
Proof.
  intros H0 Ht. unfold join_turn. rewrite H0, Ht.
  destruct (interrupt_called ev); run_turn.
  - eexists _, _. split; [reflexivity |]. repeat split.
    intros f Hf. rewrite count_add_sys, ?count_add_log, Hf by reflexivity. lia.
  - eexists _, _. split; [reflexivity |]. repeat split.
    intros f Hf. rewrite count_add_sys, ?count_add_log, Hf by reflexivity. lia.
Qed.

(** X1: when the wait on the child answers neither [WAIT_OBJECT_0] nor
    [WAIT_TIMEOUT], [join] throws [failed to wait on process] with the
    error code of the system; it gives up the handle, and neither asks for
    an exit code nor kills the child. *)
Theorem join_throws_when_wait_fails (pre rest : list poll) (ev : poll)
    (p : process) (w : world) :
  is_empty (handle (impl_ p)) = false ->
  interrupt (impl_ p) = false ->
  forallb uneventful pre = true ->
  (on_wait ev =? WAIT_OBJECT_0) = false ->
  (on_wait ev =? WAIT_TIMEOUT) = false ->
  let result := join for_each_line (pre ++ ev :: rest) p w in
  fst (fst result)
    = Bailed "failed to wait on process" (Some (on_wait_error ev)) /\
  handle (impl_ (snd (fst result))) = None /\
  code_ (snd (fst result)) = code_ p /\
  count is_exit_query (w_sys (snd result)) = count is_exit_query (w_sys w) /\
  count is_kill (w_sys (snd result)) = count is_kill (w_sys w).
Proof.
  intros Hh Hi Hpre H0 Ht result.
  destruct (join_loop_uneventful_calls for_each_line pre (ev :: rest) false p
              (add_log (Log context.cmd context.trace "joining") w) Hpre Hi)
    as [p1 [w1 [H1 [Hs1 Hn1]]]].
  destruct (join_turn_wait_fails ev false p1 w1 H0 Ht)
    as [p2 [w2 [H2 [Hh2 [Hc2 Hn2]]]]].
  subst result. rewrite (join_running for_each_line _ p w Hh), H1.
  simpl join_loop. unfold bind. rewrite H2. simpl.
  split; [reflexivity |]. split; [exact Hh2 |].
  split; [now rewrite Hc2, (supervision_code _ _ Hs1) |].
  rewrite (Hn2 is_exit_query is_exit_query_not_pipe_call),
    (Hn1 is_exit_query is_exit_query_not_pipe_call),
    (Hn2 is_kill is_kill_not_pipe_call), (Hn1 is_kill is_kill_not_pipe_call).
  split; reflexivity.
Qed.

(** ** The handle of the child after [join] *)

Lemma calm_reads_inv (ev : poll) :
  calm_reads ev = true ->
  calm_read (on_stdout_read ev) = true /\ calm_read (on_stderr_read ev) = true.
Proof. unfold calm_reads. intros H. now apply andb_true_iff in H. Qed.

Lemma join_turn_throw_releases (ev : poll) (b : bool) (p : process) (w : world) :
  calm_reads ev = true ->
  match join_turn for_each_line ev b p w with
  | (Bailed _ _, p', _) => handle (impl_ p') = None
  | _ => True
  end.
Proof.
  intros H. apply calm_reads_inv in H. destruct H as [Ho He].
  unfold join_turn.
  destruct (interrupt_called ev); destruct (on_wait ev =? WAIT_OBJECT_0);
    [| destruct (on_wait ev =? WAIT_TIMEOUT) | | destruct (on_wait ev =? WAIT_TIMEOUT)];
    run_turn; try reflexivity; read_the_pipes ev Ho He;
    repeat match goal with
      | |- context [if ?c then _ else _] => destruct c; simpl
      end; auto.
Qed.

Lemma join_loop_throw_releases (evs : list poll) :
  forall (b : bool) (p : process) (w : world),
    forallb calm_reads evs = true ->
    match join_loop for_each_line evs b p w with
    | (Bailed _ _, p', _) => handle (impl_ p') = None
    | _ => True
    end.
Proof.
  induction evs as [| ev evs IH]; intros b p w H; simpl in *; [exact I |].
  apply andb_true_iff in H. destruct H as [Hev Hevs].
  unfold bind. pose proof (join_turn_throw_releases ev b p w Hev) as Ht.
  destruct (join_turn for_each_line ev b p w) as [[[[b' | b'] | msg e |] p'] w'];
    simpl; auto.
  now apply IH.
Qed.

(** X2: when the pipes can be read, [join] gives up the handle of the child
    on every way out, whether it returns or throws; a second [join], and
    the destructor after it, then do nothing at all. *)
Theorem join_gives_up_the_handle (evs again : list poll) (p : process)
    (w : world) :
  forallb calm_reads evs = true ->
  fst (fst (join for_each_line evs p w)) <> Polling ->
  let p' := snd (fst (join for_each_line evs p w)) in
  let w' := snd (join for_each_line evs p w) in
  handle (impl_ p') = None /\
  join for_each_line again p' w' = (Ok tt, p', w') /\
  process_dtor for_each_line again p' w' = (Ok tt, p', w').
Proof.
  intros Hcalm Hret p' w'.
  assert (Hnone : handle (impl_ p') = None).
  { subst p'. destruct (is_empty (handle (impl_ p))) eqn:Hh.
    - rewrite (join_not_running for_each_line evs p w Hh). simpl.
      destruct (handle (impl_ p)); [discriminate | reflexivity].
    - rewrite (join_running for_each_line evs p w Hh) in *.
      pose proof (join_loop_throw_releases evs false p
                    (add_log (Log context.cmd context.trace "joining") w) Hcalm)
        as Hl.
      destruct (join_loop for_each_line evs false p _)
        as [[[b | msg e |] q] v]; simpl in *; auto.
      congruence. }
  assert (Hj : join for_each_line again p' w' = (Ok tt, p', w')).
  { apply join_not_running. now rewrite Hnone. }
  split; [exact Hnone |]. split; [exact Hj |].
  unfold process_dtor, try_catch_all. now rewrite Hj.
Qed.

Lemma read_pipes_fatal_stdout (ev : poll) (p : process) (w : world) :
  fatal_read (pending_ (stdout_pipe (impl_ p))) (on_stdout_read ev) = true ->
  is_bailed (read_pipes for_each_line ev p w) = true.
Proof.
  intros H. unfold read_pipes, bind, this, on_stdout_pipe, on_member.
  pose proof (read_bails_iff_fatal (on_stdout_read ev) (stdout_pipe (impl_ p)) w)
    as Hb.
  rewrite H in Hb.
  destruct (read (on_stdout_read ev) (stdout_pipe (impl_ p)) w)
    as [[[s | msg e |] a] w1]; simpl in Hb; try discriminate.
  reflexivity.
Qed.

(** X3: a read of the pipe of standard output that fails for good makes
    [join] throw in the first turn, found running or exited alike, and this
    one way out keeps the handle of the child: the exit code is not asked
    for and a later [join] waits for the child again. *)
Theorem join_keeps_the_handle_when_a_read_throws (ev : poll) (rest : list poll)
    (p : process) (w : world) :
  is_empty (handle (impl_ p)) = false ->
  (on_wait ev =? WAIT_OBJECT_0) || (on_wait ev =? WAIT_TIMEOUT) = true ->
  fatal_read (pending_ (stdout_pipe (impl_ p))) (on_stdout_read ev) = true ->
  let result := join for_each_line (ev :: rest) p w in
  is_bailed result = true /\
  handle (impl_ (snd (fst result))) = handle (impl_ p) /\
  code_ (snd (fst result)) = code_ p /\
  count is_exit_query (w_sys (snd result)) = count is_exit_query (w_sys w).
Proof.
  intros Hh Hw Hf result. subst result.
  rewrite (join_running for_each_line _ p w Hh). simpl join_loop. unfold bind.
  assert (Ht : exists msg e p' w',
            join_turn for_each_line ev false p
              (add_log (Log context.cmd context.trace "joining") w)
              = (Bailed msg e, p', w') /\
            handle (impl_ p') = handle (impl_ p) /\ code_ p' = code_ p /\
            count is_exit_query (w_sys w') = count is_exit_query (w_sys w)).
  { unfold join_turn.
    destruct (interrupt_called ev); destruct (on_wait ev =? WAIT_OBJECT_0);
      [| destruct (on_wait ev =? WAIT_TIMEOUT); [| discriminate]
       | | destruct (on_wait ev =? WAIT_TIMEOUT); [| discriminate]];
      run_turn;
      match goal with
      | |- context [read_pipes for_each_line ev ?q ?v] =>
          pose proof (read_pipes_fatal_stdout ev q v Hf) as Hb;
          pose proof (read_pipes_supervision for_each_line ev q v) as Hsup;
          pose proof (read_pipes_count for_each_line is_exit_query ev q v
                        is_exit_query_not_pipe_call) as Hcnt;
          destruct (read_pipes for_each_line ev q v) as [[[[] | msg e |] p2] w2];
          simpl in Hb, Hsup, Hcnt; try discriminate
      end;
      exists msg, e, p2, w2;
      (split; [reflexivity |]);
      rewrite (supervision_handle _ _ Hsup), (supervision_code _ _ Hsup), Hcnt;
      rewrite ?count_snoc; simpl; repeat split; lia. }
  destruct Ht as [msg [e [p' [w' [Ht [Hh' [Hc' Hn']]]]]]].
  rewrite Ht. simpl. auto.
Qed.

(** ** Interrupting without [terminate_on_interrupt] *)

Lemma is_break_not_pipe (c : syscall) : is_pipe_call c = true -> is_break c = false.
Proof. destruct c; simpl; congruence. Qed.

Lemma breaks_group_not_pipe (pid : Z) (c : syscall) :
  is_pipe_call c = true -> breaks_group pid c = false.
Proof. destruct c; simpl; congruence. Qed.

Lemma supervision_interrupted (p : process) :
  interrupt (impl_ p) = true ->
  supervision (set_impl_interrupt true p) = supervision p.
Proof. intros H. unfold supervision. simpl. now rewrite H. Qed.

(** The turn in which a running child is to be interrupted gently. *)
Lemma join_turn_signal (ev : poll) (p : process) (w : world) :
  calm_timeout ev = true ->
  has (flags_ p) terminate_on_interrupt = false ->
  interrupt (impl_ p) || interrupt_called ev = true ->
  let pid := to_DWORD (on_GetProcessId ev) in
  exists p' w',
    supervision p' = supervision (set_impl_interrupt true p) /\
    (forall f, (forall c, is_pipe_call c = true -> f c = false) ->
               count f (w_sys w') = count f (w_sys w)) /\
    join_turn for_each_line ev false p w =
      if pid =? 0 then
        (Ok (Break false), p',
         add_sys (TerminateProcess (get (handle (impl_ p))) 65535)
           (add_log (Log context.cmd context.error
                       "process id is 0, terminating instead")
              (add_sys (GetProcessId (get (handle (impl_ p)))) w')))
      else
        (Ok (Continue true), p',
         add_sys (GenerateConsoleCtrlEvent CTRL_BREAK_EVENT pid)
           (add_log (Log context.cmd context.error
                       ("sending sigint to " ++ to_string pid)%string)
              (add_sys (GetProcessId (get (handle (impl_ p)))) w'))).
Proof.
  intros H Hf Hi pid.
  apply calm_timeout_inv in H. destruct H as [Hw0 [Hw [Ho He]]].
  unfold join_turn. rewrite Hw0, Hw. fold pid.
  destruct (interrupt_called ev) eqn:Hc; run_turn; read_the_pipes ev Ho He.
  - rewrite (supervision_interrupt _ _ Hsup), (supervision_flags _ _ Hsup),
      (supervision_handle _ _ Hsup). simpl. rewrite Hf.
    exists p2, w2. split; [exact Hsup |]. split.
    + intros f Hp. rewrite (Hcnt f Hp), count_snoc, Hp by reflexivity. lia.
    + destruct (pid =? 0); reflexivity.
  - rewrite orb_false_r in Hi.
    rewrite (supervision_interrupt _ _ Hsup), (supervision_flags _ _ Hsup),
      (supervision_handle _ _ Hsup), Hi, Hf. simpl.
    exists p2, w2. split; [now rewrite Hsup, supervision_interrupted |]. split.
    + intros f Hp. rewrite (Hcnt f Hp), count_snoc, Hp by reflexivity. lia.
    + destruct (pid =? 0); reflexivity.
Qed.

(** A turn after the signal, the child still running. *)
Lemma join_turn_signalled (ev : poll) (p : process) (w : world) :
  calm_timeout ev = true -> interrupt (impl_ p) = true ->
  exists p' w',
    join_turn for_each_line ev true p w = (Ok (Continue true), p', w') /\
    supervision p' = supervision p /\
    forall f, (forall c, is_pipe_call c = true -> f c = false) ->
              count f (w_sys w') = count f (w_sys w).
Proof.
  intros H Hi.
  apply calm_timeout_inv in H. destruct H as [Hw0 [Hw [Ho He]]].
  unfold join_turn. rewrite Hw0, Hw.
  destruct (interrupt_called ev) eqn:Hc; run_turn; read_the_pipes ev Ho He;
    rewrite andb_false_r; exists p2, w2; (split; [reflexivity |]).
  - split; [now rewrite Hsup, supervision_interrupted |].
    intros f Hp. rewrite (Hcnt f Hp), count_snoc, Hp by reflexivity. lia.
  - split; [exact Hsup |].
    intros f Hp. rewrite (Hcnt f Hp), count_snoc, Hp by reflexivity. lia.
Qed.

Lemma join_loop_signalled (later rest : list poll) :
  forall (p : process) (w : world),
    forallb calm_timeout later = true -> interrupt (impl_ p) = true ->
    exists p' w',
      join_loop for_each_line (later ++ rest) true p w
        = join_loop for_each_line rest true p' w' /\
      supervision p' = supervision p /\
      forall f, (forall c, is_pipe_call c = true -> f c = false) ->
                count f (w_sys w') = count f (w_sys w).
Proof.
  induction later as [| ev later IH]; intros p w Hl Hi; simpl in *.
  - exists p, w. repeat split; reflexivity.
  - apply andb_true_iff in Hl. destruct Hl as [Hev Hl].
    destruct (join_turn_signalled ev p w Hev Hi) as [p1 [w1 [H1 [Hs1 Hn1]]]].
    unfold bind at 1. rewrite H1.
    destruct (IH p1 w1 Hl) as [p2 [w2 [H2 [Hs2 Hn2]]]].
    { now rewrite (supervision_interrupt _ _ Hs1). }
    exists p2, w2. split; [exact H2 |]. split; [congruence |].
    intros f Hf. now rewrite (Hn2 f Hf), (Hn1 f Hf).
Qed.

(** The turns up to the one that sees the call of [interrupt()]. *)
Lemma join_loop_up_to_interrupt (pre rest : list poll) (p : process) (w : world) :
  forallb uneventful pre = true ->
  pre = [] \/ interrupt (impl_ p) = false ->
  exists p' w',
    join_loop for_each_line (pre ++ rest) false p w
      = join_loop for_each_line rest false p' w' /\
    supervision p' = supervision p /\
    forall f, (forall c, is_pipe_call c = true -> f c = false) ->
              count f (w_sys w') = count f (w_sys w).
Proof.
  intros Hpre [Hnil | Hi].
  - subst pre. exists p, w. repeat split; reflexivity.
  - apply (join_loop_uneventful_calls for_each_line pre rest false p w Hpre Hi).
Qed.

(** X4: without [terminate_on_interrupt], the first turn that sees the call
    of [interrupt()] and finds the child running sends [CTRL_BREAK_EVENT]
    to the process group of the child, and [join] goes on waiting; when the
    child is then found exited, [join] stores the exit code, logs that the
    process was interrupted and returns, whatever the code and the flag
    [allow_failure]. Exactly one signal is sent and nothing is killed. *)
Theorem interrupt_signals_once_and_waits (pre later rest : list poll)
    (signal last : poll) (p : process) (w : world) :
  is_empty (handle (impl_ p)) = false ->
  has (flags_ p) terminate_on_interrupt = false ->
  forallb uneventful pre = true ->
  pre = [] \/ interrupt (impl_ p) = false ->
  calm_timeout signal = true ->
  interrupt (impl_ p) || interrupt_called signal = true ->
  to_DWORD (on_GetProcessId signal) <> 0 ->
  forallb calm_timeout later = true ->
  calm_exit last = true ->
  let result :=
    join for_each_line (pre ++ signal :: later ++ last :: rest) p w in
  fst (fst result) = Ok tt /\
  code_ (snd (fst result)) = to_DWORD (on_GetExitCodeProcess last) /\
  (exists earlier,
     w_log (snd result)
       = earlier ++ [Log context.cmd context.trace
                       "process interrupted and finished"]) /\
  count (breaks_group (to_DWORD (on_GetProcessId signal))) (w_sys (snd result))
    = count (breaks_group (to_DWORD (on_GetProcessId signal))) (w_sys w) + 1 /\
  count is_break (w_sys (snd result)) = count is_break (w_sys w) + 1 /\
  count is_kill (w_sys (snd result)) = count is_kill (w_sys w).
Proof.
  intros Hh Hf Hpre Hor Hsig Hi Hpid Hlater Hlast result.
  destruct (join_loop_up_to_interrupt pre (signal :: later ++ last :: rest) p
              (add_log (Log context.cmd context.trace "joining") w) Hpre Hor)
    as [p1 [w1 [H1 [Hs1 Hn1]]]].
  destruct (join_turn_signal signal p1 w1 Hsig) as [p2 [w2 [Hs2 [Hn2 H2]]]].
  { now rewrite (supervision_flags _ _ Hs1). }
  { now rewrite (supervision_interrupt _ _ Hs1). }
  apply Z.eqb_neq in Hpid. rewrite Hpid in H2.
  match type of H2 with _ = (_, _, ?v) => set (w3 := v) in * end.
  destruct (join_loop_signalled later (last :: rest) p2 w3 Hlater)
    as [p4 [w4 [H4 [Hs4 Hn4]]]].
  { now rewrite (supervision_interrupt _ _ Hs2). }
  destruct (join_turn_exit_interrupted for_each_line last true p4 w4 Hlast)
    as [p5 [w5 [H5 Hn5]]].
  { now rewrite (supervision_interrupt _ _ Hs4), (supervision_interrupt _ _ Hs2). }
  assert (Hj : join for_each_line (pre ++ signal :: later ++ last :: rest) p w
               = (Ok tt,
                  set_impl_handle None
                    (set_code_ (to_DWORD (on_GetExitCodeProcess last)) p5),
                  add_log (Log context.cmd context.trace
                             "process interrupted and finished")
                    (add_log (Log context.cmd context.debug
                                ("process completed, exit code "
                                 ++ to_string (to_DWORD (on_GetExitCodeProcess last)))%string)
                       (add_sys (GetExitCodeProcess (get (handle (impl_ p4)))) w5)))).
  { rewrite (join_running for_each_line _ p w Hh), H1.
    simpl join_loop. unfold bind at 1. rewrite H2.
    simpl in H4. rewrite H4. simpl join_loop. unfold bind. rewrite H5.
    reflexivity. }
  subst result. rewrite Hj. simpl.
  split; [reflexivity |]. split; [reflexivity |].
  split; [eexists; reflexivity |].
  assert (Hcount : forall f, (forall c, is_pipe_call c = true -> f c = false) ->
            f (GetProcessId (get (handle (impl_ p1)))) = false ->
            f (GetExitCodeProcess (get (handle (impl_ p4)))) = false ->
            count f (w_sys w5 ++ [GetExitCodeProcess (get (handle (impl_ p4)))])
              = count f (w_sys w)
                + (if f (GenerateConsoleCtrlEvent CTRL_BREAK_EVENT
                           (to_DWORD (on_GetProcessId signal)))
                   then 1 else 0)).
  { intros f Hp Hg He.
    rewrite count_snoc, He, (Hn5 f Hp), (Hn4 f Hp). subst w3.
    rewrite count_add_sys, count_add_log, count_add_sys, Hg, (Hn2 f Hp), (Hn1 f Hp).
    simpl. lia. }
  split; [| split].
  - rewrite (Hcount _ (breaks_group_not_pipe _)) by reflexivity.
    simpl. rewrite !Z.eqb_refl. reflexivity.
  - now rewrite (Hcount _ is_break_not_pipe).
  - rewrite (Hcount _ (is_kill_not_pipe_call)) by reflexivity. simpl. lia.
Qed.

(** X5: when the process id of the child cannot be had ([GetProcessId]
    answers 0), the same turn kills the child with [TerminateProcess]
    instead, and [join] returns without a signal, without an exit code and
    without throwing. *)
Theorem interrupt_falls_back_to_kill (pre rest : list poll) (signal : poll)
    (p : process) (w : world) :
  is_empty (handle (impl_ p)) = false ->
  has (flags_ p) terminate_on_interrupt = false ->
  forallb uneventful pre = true ->
  pre = [] \/ interrupt (impl_ p) = false ->
  calm_timeout signal = true ->
  interrupt (impl_ p) || interrupt_called signal = true ->
  to_DWORD (on_GetProcessId signal) = 0 ->
  let result := join for_each_line (pre ++ signal :: rest) p w in
  fst (fst result) = Ok tt /\
  (exists earlier,
     w_sys (snd result)
       = earlier ++ [TerminateProcess (get (handle (impl_ p))) 65535]) /\
  (exists earlier,
     w_log (snd result)
       = earlier ++ [Log context.cmd context.error
                       "process id is 0, terminating instead"]) /\
  count is_kill (w_sys (snd result)) = count is_kill (w_sys w) + 1 /\
  count is_break (w_sys (snd result)) = count is_break (w_sys w) /\
  count is_exit_query (w_sys (snd result)) = count is_exit_query (w_sys w) /\
  code_ (snd (fst result)) = code_ p.
Proof.
  intros Hh Hf Hpre Hor Hsig Hi Hpid result.
  destruct (join_loop_up_to_interrupt pre (signal :: rest) p
              (add_log (Log context.cmd context.trace "joining") w) Hpre Hor)
    as [p1 [w1 [H1 [Hs1 Hn1]]]].
  destruct (join_turn_signal signal p1 w1 Hsig) as [p2 [w2 [Hs2 [Hn2 H2]]]].
  { now rewrite (supervision_flags _ _ Hs1). }
  { now rewrite (supervision_interrupt _ _ Hs1). }
  rewrite Hpid in H2. simpl in H2.
  rewrite (supervision_handle _ _ Hs1) in H2.
  subst result. rewrite (join_running for_each_line _ p w Hh), H1.
  simpl join_loop. unfold bind. rewrite H2. simpl.
  split; [reflexivity |].
  split; [eexists; reflexivity |].
  split; [eexists; reflexivity |].
  rewrite !count_snoc. simpl.
  rewrite (Hn2 is_kill is_kill_not_pipe_call), (Hn1 is_kill is_kill_not_pipe_call),
    (Hn2 is_break is_break_not_pipe), (Hn1 is_break is_break_not_pipe),
    (Hn2 is_exit_query is_exit_query_not_pipe_call),
    (Hn1 is_exit_query is_exit_query_not_pipe_call).
  simpl. repeat split; try lia.
  rewrite (supervision_code _ _ Hs2). simpl. apply (supervision_code _ _ Hs1).
Qed.

(** ** What every call keeps *)

Section KeptByCalls.

Variable P : process -> Prop.

Hypothesis P_reads_flag_and_code :
  forall p q, interrupt (impl_ q) = interrupt (impl_ p) -> code_ q = code_ p ->
              P p -> P q.
Hypothesis P_interrupted : forall p, P p -> P (set_impl_interrupt true p).
Hypothesis P_exited : forall p z, P p -> P (set_code_ (to_DWORD z) p).

Ltac kept :=
  keep;
  first [ now apply P_interrupted | now apply P_exited
        | match goal with
          | H : P ?p |- P _ => apply (P_reads_flag_and_code p); [| | exact H];
                               reflexivity
          end ].

Lemma run_keeps (dry : bool) (a : spawn_answers) : keeps P (run dry a).
Proof. unfold run, do_run, debug, trace, create, create_pipe. kept. Qed.

Lemma join_turn_keeps (ev : poll) (b : bool) :
  keeps P (join_turn for_each_line ev b).
Proof.
  unfold join_turn, read_pipes, log_line, process_interrupt, trace, debug, error.
  kept.
Qed.

Lemma join_loop_keeps (evs : list poll) :
  forall b, keeps P (join_loop for_each_line evs b).
Proof.
  induction evs as [| ev evs IH]; intros b; simpl.
  - apply keeps_still_polling.
  - apply keeps_bind; [apply join_turn_keeps |].
    intros [b' | b']; [apply keeps_ret | apply IH].
Qed.

Lemma join_keeps (evs : list poll) : keeps P (join for_each_line evs).
Proof.
  unfold join, trace.
  apply keeps_bind; [apply keeps_this | intros q].
  destruct (is_empty (handle (impl_ q))); [apply keeps_ret |].
  apply keeps_bind; [apply keeps_log | intros _].
  apply keeps_bind; [apply join_loop_keeps | intros b].
  kept.
Qed.

Lemma appended_keeps (p q : process) :
  (exists suffix, q = set_cmd_ (cmd_ p ++ suffix)%string p) -> P p -> P q.
Proof.
  intros [suffix H] Hp. subst q.
  apply (P_reads_flag_and_code p); [reflexivity | reflexivity | exact Hp].
Qed.

Lemma perform_keeps (c : call) : keeps P (perform for_each_line c).
Proof.
  destruct c; simpl;
    try (apply keeps_assign; intros p Hp;
         apply (P_reads_flag_and_code p); [reflexivity | reflexivity | exact Hp]).
  - apply keeps_assign; intros p. apply appended_keeps, add_arg_appends.
  - apply keeps_assign; intros p. apply appended_keeps, add_arg_appends.
  - apply keeps_assign; intros p. apply appended_keeps.
    unfold args. apply fold_add_arg_appends. intros q x. apply add_arg_appends.
  - apply keeps_assign; intros p. apply appended_keeps.
    unfold args2. apply fold_add_arg_appends. intros q x. apply add_arg_appends.
  - apply run_keeps.
  - unfold process_interrupt, trace. kept.
  - apply join_keeps.
Qed.

Lemma perform_all_keeps (cs : list call) :
  forall p w, P p -> P (fst (perform_all for_each_line cs p w)).
Proof.
  induction cs as [| c cs IH]; intros p w Hp; simpl; [exact Hp |].
  pose proof (perform_keeps c p w Hp) as Hc.
  destruct (perform for_each_line c p w) as [[o p'] w']. now apply IH.
Qed.

End KeptByCalls.

Lemma join_named_apart (evs : list poll) :
  world_keeps pipes_named_apart (join for_each_line evs).
Proof.
  assert (Hturn : forall ev b,
            world_keeps pipes_named_apart (join_turn for_each_line ev b)).
  { intros ev b.
    unfold join_turn, read_pipes, on_stdout_pipe, on_stderr_pipe, read, try_read,
      check_pending, log_line, process_interrupt, trace, debug, error.
    named_apart. }
  assert (Hloop : forall b,
            world_keeps pipes_named_apart (join_loop for_each_line evs b)).
  { induction evs as [| ev evs IH]; intros b; simpl.
    - apply world_keeps_still_polling.
    - apply world_keeps_bind; [apply Hturn |].
      intros [b' | b']; [apply world_keeps_ret | apply IH]. }
  unfold join, trace.
  apply world_keeps_bind; [apply world_keeps_this | intros q].
  destruct (is_empty (handle (impl_ q))); [apply world_keeps_ret |].
  apply world_keeps_bind;
    [apply world_keeps_log; exact pipes_named_apart_log | intros _].
  apply world_keeps_bind; [apply Hloop | intros b].
  named_apart.
Qed.

Lemma perform_named_apart (c : call) :
  world_keeps pipes_named_apart (perform for_each_line c).
Proof.
  destruct c; simpl; try apply world_keeps_assign.
  - apply run_named_apart.
  - unfold process_interrupt, trace. named_apart.
  - apply join_named_apart.
Qed.

(** X11: however a process is configured, run and joined, and whichever
    calls fail, no two pipes it creates get the same name, as long as the
    counter of pipes stays an [int]: the pipes are named after the counts
    from 1 on. *)
Theorem pipes_are_named_apart (cs : list call) (p : process) (w : world) :
  pipes_named_apart w ->
  pipe_id (snd (perform_all for_each_line cs p w)) < 2 ^ 31 ->
  pipes_named_apart (snd (perform_all for_each_line cs p w)) /\
  NoDup (pipe_names (w_sys (snd (perform_all for_each_line cs p w)))).
Proof.
  intros Hw _.
  assert (H : pipes_named_apart (snd (perform_all for_each_line cs p w))).
  { revert p w Hw. induction cs as [| c cs IH]; intros p w Hw; simpl; [exact Hw |].
    pose proof (perform_named_apart c p w Hw) as Hc.
    destruct (perform for_each_line c p w) as [[o p'] w']. now apply IH. }
  split; [exact H | apply H].
Qed.

(** ** The lines that reach the log *)

Lemma for_each_log_line_forwarded rs level flt (lines : list string) :
  keeps_line flt ->
  forall (p : process) (w : world),
    for_each lines (log_line rs level flt) p w
      = (Ok tt, p,
         World (w_log w ++ forwarded rs level flt lines) (w_sys w) (pipe_id w)).
Proof.
  intros Hk. induction lines as [| l lines IH]; intros p w; simpl.
  - rewrite app_nil_r. now destruct w.
  - unfold bind, log_line. destruct flt as [fn |]; simpl.
    + simpl in Hk. destruct (ignore (fn (Filter l rs level false))) eqn:Hi; simpl.
      * apply IH.
      * unfold log. rewrite IH. simpl. rewrite <- app_assoc.
        now rewrite (Hk (Filter l rs level false)).
    + unfold log. rewrite IH. simpl. now rewrite <- app_assoc.
Qed.

(** X20: in one call of [read_pipes], the lines of what the pipe of
    standard output delivers reach the log before those of standard error,
    each stream in its order and at its level; without a filter every line
    is logged as it is, with a filter the lines it ignores are left out and
    the others logged with the reason and level it leaves. Nothing else is
    logged. *)
Theorem read_pipes_forwards_stdout_then_stderr (ev : poll) (p : process)
    (w : world) (s1 s2 : string) :
  keeps_line (stdout_filter_ p) -> keeps_line (stderr_filter_ p) ->
  delivered (pending_ (stdout_pipe (impl_ p))) (on_stdout_read ev) = Some s1 ->
  delivered (pending_ (stderr_pipe (impl_ p))) (on_stderr_read ev) = Some s2 ->
  fst (fst (read_pipes for_each_line ev p w)) = Ok tt /\
  w_log (snd (read_pipes for_each_line ev p w))
    = w_log w
      ++ forwarded context.std_out (stdout_level_ p) (stdout_filter_ p)
           (for_each_line s1)
      ++ forwarded context.std_err (stderr_level_ p) (stderr_filter_ p)
           (for_each_line s2).
Proof.
  intros Hk1 Hk2 H1 H2.
  assert (H : exists p' calls,
            read_pipes for_each_line ev p w
              = (Ok tt, p',
                 World ((w_log w
                         ++ forwarded context.std_out (stdout_level_ p)
                              (stdout_filter_ p) (for_each_line s1))
                        ++ forwarded context.std_err (stderr_level_ p)
                             (stderr_filter_ p) (for_each_line s2))
                   (w_sys w ++ calls) (pipe_id w))).
  { destruct (read_delivers _ _ w _ H1) as [q1 [c1 Hr1]].
    unfold read_pipes. unfold bind at 1. unfold this at 1.
    erewrite bind_ok by (apply on_stdout_pipe_eval; exact Hr1).
    unfold bind at 1. rewrite for_each_log_line_forwarded by exact Hk1.
    match goal with
    | |- context [bind _ _ _ ?v] =>
        destruct (read_delivers (on_stderr_read ev)
                    (stderr_pipe (impl_ (set_impl_stdout_pipe q1 p))) v s2 H2)
          as [q2 [c2 Hr2]]
    end.
    erewrite bind_ok by (apply on_stderr_pipe_eval; exact Hr2).
    rewrite for_each_log_line_forwarded by exact Hk2.
    simpl. eexists _, (c1 ++ c2). now rewrite app_assoc. }
  destruct H as [p' [calls H]]. rewrite H. simpl.
  split; [reflexivity |]. now rewrite app_assoc.
Qed.

(** ** The settings during a run *)

Lemma run_preserves_settings (dry : bool) (a : spawn_answers) :
  preserves settings (run dry a).
Proof. unfold run, do_run, debug, trace, create, create_pipe. frame; reflexivity. Qed.

Lemma process_interrupt_preserves_settings : preserves settings process_interrupt.
Proof. unfold process_interrupt, trace. frame; reflexivity. Qed.

Lemma join_turn_preserves_settings (ev : poll) (b : bool) :
  preserves settings (join_turn for_each_line ev b).
Proof.
  unfold join_turn, process_interrupt, trace, debug, error.
  frame; try reflexivity; apply log_line_preserves.
Qed.

Lemma join_preserves_settings (evs : list poll) :
  preserves settings (join for_each_line evs).
Proof.
  assert (Hloop : forall b, preserves settings (join_loop for_each_line evs b)).
  { induction evs as [| ev evs IH]; intros b; simpl.
    - apply preserves_still_polling.
    - apply preserves_bind; [apply join_turn_preserves_settings |].
      intros [b' | b']; [apply preserves_ret | apply IH]. }
  unfold join, trace.
  apply preserves_bind; [apply preserves_this | intros q].
  destruct (is_empty (handle (impl_ q))); [apply preserves_ret |].
  apply preserves_bind; [apply preserves_log | intros _].
  apply preserves_bind; [apply Hloop | intros b].
  frame; reflexivity.
Qed.

(** X16: [run], [interrupt], [join] and the destructor change none of the
    settings of a process: name, binary, working directory, flags, levels,
    filters, environment, raw text and arguments are after the call what
    they were before it, whether it returns or throws. *)
Theorem run_and_join_change_no_setting (dry : bool) (a : spawn_answers)
    (evs : list poll) (p : process) (w : world) :
  settings (snd (fst (run dry a p w))) = settings p /\
  settings (snd (fst (process_interrupt p w))) = settings p /\
  settings (snd (fst (join for_each_line evs p w))) = settings p /\
  settings (snd (fst (process_dtor for_each_line evs p w))) = settings p.
Proof.
  split; [apply run_preserves_settings |].
  split; [apply process_interrupt_preserves_settings |].
  split; [apply join_preserves_settings |].
  apply preserves_try_catch_all, join_preserves_settings.
Qed.

Lemma settings_raw (p q : process) : settings q = settings p -> raw_ q = raw_ p.
Proof. unfold settings. congruence. Qed.

Lemma perform_preserves_raw (c : call) : preserves raw_ (perform for_each_line c).
Proof.
  destruct c; simpl; try (apply preserves_assign; intros p; reflexivity).
  - apply preserves_assign; intros p.
    destruct (add_arg_appends log_trace EmptyString
                (arg_to_string value (has f quote)) f p) as [s H].
    unfold arg. now rewrite H.
  - apply preserves_assign; intros p.
    destruct (add_arg_appends log_trace name0
                (arg_to_string value (has f quote)) f p) as [s H].
    unfold arg2. now rewrite H.
  - apply preserves_assign; intros p.
    destruct (fold_add_arg_appends string
                (fun q e => add_arg log_trace e EmptyString f q)
                (fun q x => add_arg_appends _ _ _ _ q) v p) as [s H].
    unfold args. now rewrite H.
  - apply preserves_assign; intros p.
    destruct (fold_add_arg_appends (string * arg_value)
                (fun q nv => arg2 log_trace (fst nv) (snd nv) f q)
                (fun q x => add_arg_appends _ _ _ _ q) v p) as [s H].
    unfold args2. now rewrite H.
  - intros p w. apply settings_raw, run_preserves_settings.
  - intros p w. apply settings_raw, join_preserves_settings.
Qed.

(** X17: a raw text that is not empty is the command of the process for
    good: whatever binary and arguments are set afterwards, and through
    every [run] and [join], the command stays the raw text. *)
Theorem raw_text_overrides_binary_and_arguments (cs : list call) (p : process)
    (w : world) :
  empty (raw_ p) = false ->
  make_cmd (fst (perform_all for_each_line cs p w)) = raw_ p.
Proof.
  intros Hr.
  assert (H : raw_ (fst (perform_all for_each_line cs p w)) = raw_ p).
  { revert p w Hr. induction cs as [| c cs IH]; intros p w Hr; simpl; [reflexivity |].
    pose proof (perform_preserves_raw c p w) as Hc.
    destruct (perform for_each_line c p w) as [[o p'] w']. simpl in Hc.
    rewrite IH; [exact Hc | now rewrite Hc]. }
  unfold make_cmd. now rewrite H, Hr.
Qed.

(** X7: no member function clears the interrupt flag. Once [interrupt()]
    has been called on a process, whatever member functions are called on
    it afterwards, the flag is set, and a [join] that finds a child exited
    returns without judging its exit code, be it not 0 and [allow_failure]
    not set, and kills nothing. Copy assignment is what clears it:
    [impl::operator=] gives the process the flag of the process assigned
    to it and leaves it its handle, so after the assignment of a process
    that was not interrupted, a [join] that finds the child exited judges
    the exit code by the settings assigned, and throws on a code that is
    not 0 when they do not allow failure. *)
Theorem interrupt_is_cleared_only_by_assignment (cs : list call) (ev : poll)
    (rest : list poll) (p q : process) (w : world) :
  interrupt (impl_ p) = true ->
  let p' := fst (perform_all for_each_line cs p w) in
  let w' := snd (perform_all for_each_line cs p w) in
  interrupt (impl_ p') = true /\
  (is_empty (handle (impl_ p')) = false -> calm_exit ev = true ->
   fst (fst (join for_each_line (ev :: rest) p' w')) = Ok tt /\
   code_ (snd (fst (join for_each_line (ev :: rest) p' w')))
     = to_DWORD (on_GetExitCodeProcess ev) /\
   count is_kill (w_sys (snd (join for_each_line (ev :: rest) p' w')))
     = count is_kill (w_sys w')) /\
  interrupt (impl_ (process_assign q p')) = interrupt (impl_ q) /\
  handle (impl_ (process_assign q p')) = handle (impl_ p') /\
  (is_empty (handle (impl_ p')) = false -> calm_exit ev = true ->
   interrupt (impl_ q) = false -> interrupt_called ev = false ->
   to_DWORD (on_GetExitCodeProcess ev) <> 0 ->
   has (flags_ q) allow_failure = false ->
   fst (fst (join for_each_line (ev :: rest) (process_assign q p') w'))
     = Bailed (make_name q ++ " returned "
               ++ to_string (to_DWORD (on_GetExitCodeProcess ev)))%string None).
Proof.
  intros Hi p' w'.
  assert (Hi' : interrupt (impl_ p') = true).
  { subst p'.
    apply (perform_all_keeps (fun q => interrupt (impl_ q) = true)); auto.
    intros q0 r Hq _ Hr. congruence. }
  split; [exact Hi' |].
  split.
  { intros Hh Hev.
    destruct (join_turn_exit_interrupted for_each_line ev false p'
                (add_log (Log context.cmd context.trace "joining") w') Hev)
      as [p2 [w2 [H2 Hn2]]].
    { now rewrite Hi'. }
    rewrite (join_running for_each_line _ p' w' Hh).
    simpl join_loop. unfold bind. rewrite H2. simpl.
    split; [reflexivity |]. split; [reflexivity |].
    rewrite count_snoc. simpl.
    rewrite (Hn2 is_kill is_kill_not_pipe_call). simpl. lia. }
  split; [reflexivity |]. split; [reflexivity |].
  intros Hh Hev Hq Hc Hcode Ha.
  assert (Hh' : is_empty (handle (impl_ (process_assign q p'))) = false)
    by exact Hh.
  destruct (join_turn_exit for_each_line ev false (process_assign q p')
              (add_log (Log context.cmd context.trace "joining") w') Hev Hc)
    as [p2 [w2 [_ H2]]]; [exact Hq |].
  cbv zeta in H2.
  apply Z.eqb_neq in Hcode.
  rewrite Hcode in H2.
  change (flags_ (process_assign q p')) with (flags_ q) in H2.
  change (make_name (process_assign q p')) with (make_name q) in H2.
  rewrite Ha in H2.
  rewrite (join_running for_each_line _ (process_assign q p') w' Hh').
  simpl join_loop. unfold bind. rewrite H2. reflexivity.
Qed.

(** X8: the exit code stored in a process is always a [DWORD], so the [int]
    that [exit_code()] returns has its 32 bits; in particular
    [exit_code()] is 0 exactly when the stored code is 0. *)
Theorem exit_code_is_zero_only_for_code_zero (cs : list call) (w : world) :
  let p' := fst (perform_all for_each_line cs process_ctor w) in
  0 <= code_ p' < DWORD_modulus /\
  - 2 ^ 31 <= exit_code p' < 2 ^ 31 /\
  to_DWORD (exit_code p') = code_ p' /\
  (exit_code p' = 0 <-> code_ p' = 0).
Proof.
  intros p'.
  assert (Hr : 0 <= code_ p' < DWORD_modulus).
  { subst p'.
    apply (perform_all_keeps (fun q => 0 <= code_ q < DWORD_modulus)).
    - intros q r _ Hc Hq. now rewrite Hc.
    - intros q Hq. exact Hq.
    - intros q z _. simpl. apply to_DWORD_range.
    - simpl. unfold DWORD_modulus. lia. }
  split; [exact Hr |].
  split; [apply static_cast_int_range |].
  split; [now apply to_DWORD_static_cast_int |].
  unfold exit_code. split.
  - intros H0. rewrite <- (to_DWORD_static_cast_int _ Hr), H0. reflexivity.
  - intros H0. rewrite H0. reflexivity.
Qed.

End SupervisorMore.

(** * tasks/boost.cpp *)

Lemma included_noargflags (t : bool) : included t noargflags = true.
Proof. destruct t; reflexivity. Qed.

Lemma args_keep_settings (t : bool) (names : list string) (f : Z) (p : process) :
  raw_ (args t names f p) = raw_ p /\ bin_ (args t names f p) = bin_ p.
Proof.
  destruct (fold_add_arg_appends string
              (fun q e => add_arg t e EmptyString f q)
              (fun q x => add_arg_appends _ _ _ _ q) names p) as [s H].
  unfold args. rewrite H. split; reflexivity.
Qed.

Lemma b2_arguments (t : bool) (am link runtime_link toolset jam stagedir libdir b2
    : string) :
  let inner :=
    arg2 t "--libdir=" (path libdir) noargflags
      (arg2 t "--stagedir=" (path stagedir) noargflags
        (arg2 t "--user-config=" (path jam) noargflags
          (arg2 t "toolset=" (text toolset) noargflags
            (arg2 t "runtime-link=" (text runtime_link) noargflags
              (arg2 t "link=" (text link) noargflags
                (arg2 t "address-model=" (text am) noargflags
                  (binary b2 process_ctor))))))) in
  raw_ inner = EmptyString /\ bin_ inner = b2 /\ flags_ inner = noflags /\
  cmd_ inner
    = (" address-model=" ++ am ++ " link=" ++ link
       ++ " runtime-link=" ++ runtime_link ++ " toolset=" ++ toolset
       ++ " --user-config=" ++ dquote ++ jam ++ dquote
       ++ " --stagedir=" ++ dquote ++ stagedir ++ dquote
       ++ " --libdir=" ++ dquote ++ libdir ++ dquote)%string.
Proof.
  intros inner. subst inner.
  destruct t; simpl; (split; [reflexivity |]); (split; [reflexivity |]);
    (split; [reflexivity |]);
    repeat (rewrite !string_append_assoc; simpl); reflexivity.
Qed.

Lemma b2_process (t : bool) (components : list string) (e : env)
    (sp am link runtime_link toolset jam lib b2 : string) :
  let p :=
    cwd sp
      (with_env e
        (args t (map (fun c => ("--with-" ++ c)%string) components) noargflags
          (arg2 t "--libdir=" (path lib) noargflags
            (arg2 t "--stagedir=" (path lib) noargflags
              (arg2 t "--user-config=" (path jam) noargflags
                (arg2 t "toolset=" (text toolset) noargflags
                  (arg2 t "runtime-link=" (text runtime_link) noargflags
                    (arg2 t "link=" (text link) noargflags
                      (arg2 t "address-model=" (text am) noargflags
                        (binary b2 process_ctor)))))))))) in
  make_cmd p
    = (dquote ++ b2 ++ dquote
       ++ " address-model=" ++ am ++ " link=" ++ link
       ++ " runtime-link=" ++ runtime_link ++ " toolset=" ++ toolset
       ++ " --user-config=" ++ dquote ++ jam ++ dquote
       ++ " --stagedir=" ++ dquote ++ lib ++ dquote
       ++ " --libdir=" ++ dquote ++ lib ++ dquote
       ++ join_strings
            (map (fun c => key_only_fragment false ("--with-" ++ c)) components))%string /\
  cwd_ p = sp /\ env_ p = e /\ flags_ p = noflags.
Proof.
  intros p. subst p.
  destruct (b2_arguments t am link runtime_link toolset jam lib lib b2)
    as [Hr [Hb [Hf Hc]]].
  cbv zeta in Hr, Hb, Hf, Hc.
  set (inner := arg2 t "--libdir=" _ _ _) in *. clearbody inner.
  pose proof (args_fragments t (map (fun c => ("--with-" ++ c)%string) components)
                noargflags (included_noargflags t) inner) as Ha.
  destruct (fold_add_arg_appends string
              (fun q x => add_arg t x EmptyString noargflags q)
              (fun q x => add_arg_appends _ _ _ _ q)
              (map (fun c => ("--with-" ++ c)%string) components) inner) as [s Hs].
  fold (args t (map (fun c => ("--with-" ++ c)%string) components) noargflags inner)
    in Hs.
  rewrite Hs in Ha. simpl in Ha. apply string_append_inj in Ha.
  rewrite map_map in Ha. subst s.
  rewrite Hs. unfold make_cmd, cwd, with_env. simpl raw_. simpl bin_. simpl cmd_.
  simpl cwd_. simpl env_. simpl flags_.
  rewrite Hr, Hb, Hf, Hc. simpl negb. cbv iota.
  split; [| auto].
  repeat (rewrite !string_append_assoc; simpl). reflexivity.
Qed.

(** X21: [do_b2] first needs the path of the sources, which is made from
    the version of boost: when [versions::boost()] does not match the
    regular expression of [parse_boost_version], [do_b2] throws [bad boost
    version] with the version in quotes, whatever the architecture. When
    it matches, the path of the sources is [paths::build()] with [boost_]
    and the major and minor version, and the patch when the match holds
    more than three sub-matches, with underscores for the dots. Then, for
    the architectures [x86], [x64] and [dont_care], [do_b2] builds the
    command of [b2]: the binary in quotes, [address-model=32] for [x86] and
    [64] for the others, [link=], [runtime-link=] and [toolset=msvc-] with
    their values as they are, [--user-config=], [--stagedir=] and
    [--libdir=] with their paths in quotes, then one [--with-] fragment a
    component; it runs in the path of the sources. For any other
    architecture it throws [boost: bad arch]. The command does not depend
    on [conf::log_trace()]. *)
Theorem do_b2_builds_the_command_of_b2 (x86 x64 dont_care : Z)
    (paths_build : string) (path_append : string -> string -> string)
    (versions_boost vs_toolset boost_vs : string)
    (regex_match : string -> option (list string))
    (replace_all : string -> string -> string -> string)
    (env_vs : Z -> env) (log_trace : bool)
    (components : list string) (link runtime_link : string) (a : Z) (w : world) :
  let result :=
    do_b2 x86 x64 dont_care paths_build path_append versions_boost vs_toolset
      boost_vs regex_match replace_all env_vs log_trace components link
      runtime_link a tt w in
  (regex_match versions_boost = None ->
   result
     = (Bailed ("bad boost version '" ++ versions_boost ++ "'")%string None,
        tt, w)) /\
  (forall m, regex_match versions_boost = Some m ->
   let short := (str m 1 ++ "." ++ str m 2)%string in
   let version :=
     if (3 <? List.length m)%nat then (short ++ "." ++ str m 3)%string else short in
   let source_path :=
     path_append paths_build ("boost_" ++ replace_all version "." "_")%string in
   let am := if a =? x86 then "32" else "64" in
   let lib := path_append source_path ("lib" ++ am ++ "-msvc-" ++ boost_vs)%string in
   ((a =? x86) || (a =? x64) || (a =? dont_care) = true ->
    exists p,
      result = (Ok p, tt, w) /\
      make_cmd p
        = (dquote ++ path_append source_path "b2" ++ dquote
           ++ " address-model=" ++ am
           ++ " link=" ++ link
           ++ " runtime-link=" ++ runtime_link
           ++ " toolset=msvc-" ++ vs_toolset
           ++ " --user-config=" ++ dquote
           ++ path_append source_path "user-config-64.jam" ++ dquote
           ++ " --stagedir=" ++ dquote ++ lib ++ dquote
           ++ " --libdir=" ++ dquote ++ lib ++ dquote
           ++ join_strings
                (map (fun c => key_only_fragment false ("--with-" ++ c)) components))%string /\
      cwd_ p = source_path /\ env_ p = env_vs a /\ flags_ p = noflags) /\
   ((a =? x86) || (a =? x64) || (a =? dont_care) = false ->
    result = (Bailed "boost: bad arch" None, tt, w))).
Proof.
  intros result. subst result.
  split.
  - intros Hm.
    unfold do_b2, config_jam_file, lib_path, source_path,
      boost_version_no_tags_underscores, boost_version_no_tags,
      parse_boost_version, address_model_for_arch, bind, ret, bail_out.
    rewrite Hm. reflexivity.
  - intros m Hm short version sp am lib.
    unfold do_b2, config_jam_file, lib_path, source_path,
      boost_version_no_tags_underscores, boost_version_no_tags,
      parse_boost_version, address_model_for_arch, bind, ret, bail_out.
    rewrite Hm. cbv beta iota zeta.
    fold short. fold version. fold sp.
    split.
    + intros Ha. subst lib am.
      destruct (a =? x86) eqn:H86; simpl in Ha; cbv beta iota zeta.
      * eexists. split; [reflexivity |].
        apply (b2_process log_trace components (env_vs a) sp "32" link
                 runtime_link ("msvc-" ++ vs_toolset)%string
                 (path_append sp "user-config-64.jam")).
      * rewrite Ha. cbv beta iota zeta. eexists. split; [reflexivity |].
        apply (b2_process log_trace components (env_vs a) sp "64" link
                 runtime_link ("msvc-" ++ vs_toolset)%string
                 (path_append sp "user-config-64.jam")).
    + intros Ha. apply orb_false_iff in Ha. destruct Ha as [Ha Hd].
      apply orb_false_iff in Ha. destruct Ha as [H86 H64].
      rewrite H86, H64, Hd. reflexivity.
Qed.

(** * The further properties at sample inputs *)

Lemma join_throws_when_wait_fails_witness :
  fst (fst (join whole_chunk [still_running; wait_fails] (named_child noflags)
              empty_world))
    = Bailed "failed to wait on process" (Some 6) /\
  handle (impl_ (snd (fst (join whole_chunk [still_running; wait_fails]
                             (named_child noflags) empty_world)))) = None.
Proof.
  pose proof (join_throws_when_wait_fails whole_chunk [still_running] [] wait_fails
                (named_child noflags) empty_world
                eq_refl eq_refl eq_refl eq_refl eq_refl) as H.
  cbv zeta in H. destruct H as [H1 [H2 _]]. split; [exact H1 | exact H2].
Defined.

Lemma join_gives_up_the_handle_witness :
  forallb calm_reads [still_running; exited 7] = true /\
  handle (impl_ (snd (fst (join whole_chunk [still_running; exited 7]
                             (named_child noflags) empty_world)))) = None.
Proof.
  split; [reflexivity |].
  refine (proj1 (join_gives_up_the_handle whole_chunk [still_running; exited 7]
                   [still_running] (named_child noflags) empty_world eq_refl _)).
  vm_compute. discriminate.
Defined.

Lemma join_keeps_the_handle_when_a_read_throws_witness :
  fatal_read (pending_ (stdout_pipe (impl_ (named_child noflags))))
    (on_stdout_read exited_unreadable) = true /\
  is_bailed (join whole_chunk [exited_unreadable] (named_child noflags) empty_world)
    = true /\
  handle (impl_ (snd (fst (join whole_chunk [exited_unreadable]
                             (named_child noflags) empty_world)))) = Some 77.
Proof.
  pose proof (join_keeps_the_handle_when_a_read_throws whole_chunk exited_unreadable
                [] (named_child noflags) empty_world eq_refl eq_refl eq_refl) as H.
  cbv zeta in H. destruct H as [H1 [H2 _]].
  split; [reflexivity |]. split; [exact H1 | exact H2].
Defined.

Lemma interrupt_signals_once_and_waits_witness :
  to_DWORD (on_GetProcessId interrupt_arrives) <> 0 /\
  fst (fst (join whole_chunk
              [still_running; interrupt_arrives; still_running; still_running;
               exited 7]
              (named_child noflags) empty_world)) = Ok tt /\
  count is_break
    (w_sys (snd (join whole_chunk
                   [still_running; interrupt_arrives; still_running; still_running;
                    exited 7]
                   (named_child noflags) empty_world))) = 1.
Proof.
  assert (Hpid : to_DWORD (on_GetProcessId interrupt_arrives) <> 0)
    by (vm_compute; discriminate).
  pose proof (interrupt_signals_once_and_waits whole_chunk [still_running]
                [still_running; still_running] [] interrupt_arrives (exited 7)
                (named_child noflags) empty_world
                eq_refl eq_refl eq_refl (or_intror eq_refl) eq_refl eq_refl Hpid
                eq_refl eq_refl) as H.
  cbv zeta in H. destruct H as [H1 [_ [_ [_ [H2 _]]]]].
  split; [exact Hpid |]. split; [exact H1 | exact H2].
Defined.

Lemma interrupt_falls_back_to_kill_witness :
  to_DWORD (on_GetProcessId interrupt_arrives_no_pid) = 0 /\
  fst (fst (join whole_chunk [still_running; interrupt_arrives_no_pid; exited 7]
              (named_child noflags) empty_world)) = Ok tt /\
  count is_kill
    (w_sys (snd (join whole_chunk
                   [still_running; interrupt_arrives_no_pid; exited 7]
                   (named_child noflags) empty_world))) = 1.
Proof.
  pose proof (interrupt_falls_back_to_kill whole_chunk [still_running] [exited 7]
                interrupt_arrives_no_pid (named_child noflags) empty_world
                eq_refl eq_refl eq_refl (or_intror eq_refl) eq_refl eq_refl eq_refl)
    as H.
  cbv zeta in H. destruct H as [H1 [_ [_ [H2 _]]]].
  split; [reflexivity |]. split; [exact H1 | exact H2].
Defined.

Lemma interrupt_is_cleared_only_by_assignment_witness :
  interrupt (impl_ (set_impl_interrupt true (raw "a"))) = true /\
  fst (fst (join whole_chunk [exited 7]
              (fst (perform_all whole_chunk [call_run false spawn_fine]
                      (set_impl_interrupt true (raw "a")) empty_world))
              (snd (perform_all whole_chunk [call_run false spawn_fine]
                      (set_impl_interrupt true (raw "a")) empty_world))))
    = Ok tt /\
  fst (fst (join whole_chunk [exited 7]
              (process_assign (raw "b")
                 (fst (perform_all whole_chunk [call_run false spawn_fine]
                         (set_impl_interrupt true (raw "a")) empty_world)))
              (snd (perform_all whole_chunk [call_run false spawn_fine]
                      (set_impl_interrupt true (raw "a")) empty_world))))
    = Bailed "b returned 7" None.
Proof.
  pose proof (interrupt_is_cleared_only_by_assignment whole_chunk
                [call_run false spawn_fine] (exited 7) []
                (set_impl_interrupt true (raw "a")) (raw "b") empty_world
                eq_refl) as H.
  cbv zeta in H. destruct H as [_ [H [_ [_ H']]]].
  split; [reflexivity |]. split; [exact (proj1 (H eq_refl eq_refl)) |].
  apply (H' eq_refl eq_refl eq_refl eq_refl); [| reflexivity].
  vm_compute. discriminate.
Defined.

Lemma exit_code_is_zero_only_for_code_zero_witness :
  exit_code
    (fst (perform_all whole_chunk
            [call_flags allow_failure; call_run false spawn_fine;
             call_join [exited 3221225477]]
            process_ctor empty_world)) <> 0.
Proof.
  pose proof (exit_code_is_zero_only_for_code_zero whole_chunk
                [call_flags allow_failure; call_run false spawn_fine;
                 call_join [exited 3221225477]] empty_world) as H.
  cbv zeta in H. destruct H as [_ [_ [_ [H _]]]].
  intros H0. specialize (H H0). vm_compute in H. discriminate.
Defined.

Lemma run_that_throws_leaves_no_child_witness :
  is_bailed (run false spawn_refused (raw "a") empty_world) = true /\
  handle (impl_ (snd (fst (run false spawn_refused (raw "a") empty_world)))) = None.
Proof.
  split; [reflexivity |].
  exact (proj1 (proj2 (run_that_throws_leaves_no_child whole_chunk false
                         spawn_refused [] (raw "a") empty_world eq_refl))).
Defined.

Lemma sample_pipe_made (h : HANDLE) :
  0 < h ->
  pipe_made (CreateAnswers (Done h) (Done (h + 1)) (Done (h + 2)) (Done (h + 3)))
    (h + 1) (h + 2) (h + 3).
Proof.
  intros Hh. unfold pipe_made, INVALID_HANDLE_VALUE, HANDLE in *.
  split; [exists h; split; [reflexivity | lia] |].
  split; [reflexivity |]. split; [reflexivity |]. split; [reflexivity |].
  split; lia.
Defined.

Lemma run_starts_the_child_through_the_interpreter_witness :
  fst (fst (run false spawn_apart (cwd "build" (raw "a")) empty_world)) = Ok tt /\
  handle (impl_ (snd (fst (run false spawn_apart (cwd "build" (raw "a"))
                             empty_world)))) = Some 77 /\
  (exists earlier,
     w_sys (snd (run false spawn_apart (cwd "build" (raw "a")) empty_world))
       = earlier
         ++ [CreateProcessA "cmd.exe" ("/C " ++ dquote ++ "a" ++ dquote)%string
               CREATE_NEW_PROCESS_GROUP (Some "build") [] 13 23;
             CloseHandle 78]) /\
  fst (fst (run false spawn_refused (raw "a") empty_world))
    = Bailed "failed to start 'cmd.exe'" (Some 2).
Proof.
  pose proof (run_starts_the_child_through_the_interpreter spawn_apart
                12 13 14 22 23 24 (cwd "build" (raw "a")) empty_world
                (sample_pipe_made 11 eq_refl) (sample_pipe_made 21 eq_refl)
                (Z.le_refl 0) eq_refl) as H.
  pose proof (run_starts_the_child_through_the_interpreter spawn_refused
                12 13 14 12 13 14 (raw "a") empty_world
                (sample_pipe_made 11 eq_refl) (sample_pipe_made 11 eq_refl)
                (Z.le_refl 0) eq_refl) as H'.
  cbv zeta in H, H'.
  destruct H as [_ [_ [_ [_ [_ [H _]]]]]]. destruct H' as [_ [_ [_ [_ [_ [_ H']]]]]].
  destruct (H _ eq_refl) as [H1 [H2 H3]].
  split; [exact H1 |].
  split; [now rewrite H2 |].
  split; [exact H3 |].
  exact (proj1 (H' _ eq_refl)).
Defined.

Lemma empty_world_named_apart : pipes_named_apart empty_world.
Proof.
  split; [discriminate |]. split; [constructor |]. intros n [].
Defined.

Lemma pipes_are_named_apart_witness :
  pipe_names
    (w_sys (snd (perform_all whole_chunk
                   [call_run false spawn_fine; call_run false spawn_refused]
                   (raw "a") empty_world)))
    = [pipe_name 1; pipe_name 2; pipe_name 3; pipe_name 4] /\
  NoDup
    (pipe_names
       (w_sys (snd (perform_all whole_chunk
                      [call_run false spawn_fine; call_run false spawn_refused]
                      (raw "a") empty_world)))).
Proof.
  split; [reflexivity |].
  apply (pipes_are_named_apart whole_chunk
           [call_run false spawn_fine; call_run false spawn_refused]
           (raw "a") empty_world empty_world_named_apart).
  reflexivity.
Defined.

Lemma add_arg_drops_exactly_the_excluded_witness :
  has 3 verbose = true /\ has 3 quiet = true /\
  add_arg true "-k" "v" 3 (binary "b2" process_ctor) = binary "b2" process_ctor /\
  add_arg false "-k" "v" 3 (binary "b2" process_ctor) = binary "b2" process_ctor.
Proof.
  split; [reflexivity |]. split; [reflexivity |].
  exact (proj2 (add_arg_drops_exactly_the_excluded true "-k" "v" 3
                  (binary "b2" process_ctor)) eq_refl eq_refl).
Defined.

Lemma args_adds_each_string_in_order_witness :
  included false noargflags = true /\
  cmd_ (args false ["--with-thread"; EmptyString; "link="] noargflags
          (binary "b2" process_ctor))
    = " --with-thread  link=".
Proof.
  split; [reflexivity |].
  exact (proj1 (args_adds_each_string_in_order false
                  ["--with-thread"; EmptyString; "link="] noargflags
                  (binary "b2" process_ctor)) eq_refl).
Defined.

Lemma make_cmd_is_never_empty_witness :
  empty "dir" = false /\ make_cmd (raw "dir") = "dir".
Proof.
  split; [reflexivity |].
  exact (proj1 (proj2 (proj2 (make_cmd_is_never_empty process_ctor "dir"))) eq_refl).
Defined.

Lemma pipe_of_two_composes_witness :
  make_cmd (pipe_chain (raw "a") [raw "b"; raw "c"]) = "a | b | c" /\
  handle (impl_ (pipe_chain (running (raw "a")) [raw "b"; raw "c"])) = None.
Proof.
  split.
  - exact (proj1 (pipe_of_two_composes (raw "a") [raw "b"; raw "c"])).
  - apply (pipe_of_two_composes (running (raw "a")) [raw "b"; raw "c"]).
    discriminate.
Defined.

Lemma raw_text_overrides_binary_and_arguments_witness :
  empty (raw_ (raw "a | b")) = false /\
  make_cmd
    (fst (perform_all whole_chunk
            [call_binary "b2"; call_arg2 false "--with" (text "thread") noargflags;
             call_run false spawn_fine; call_join [exited 0]]
            (raw "a | b") empty_world)) = "a | b".
Proof.
  split; [reflexivity |].
  exact (raw_text_overrides_binary_and_arguments whole_chunk
           [call_binary "b2"; call_arg2 false "--with" (text "thread") noargflags;
            call_run false spawn_fine; call_join [exited 0]]
           (raw "a | b") empty_world eq_refl).
Defined.

Lemma read_returns_what_the_system_delivers_witness :
  fst (read (on_stdout_read data_arrives) async_pipe_ctor empty_world)
    = (Ok "out", async_pipe_ctor) /\
  fst (read (ReadAnswers (Fail 5) WAIT_OBJECT_0 0 (Done "late")) pending_pipe
         empty_world)
    = (Ok "late", set_pending_ false pending_pipe).
Proof.
  pose proof (read_returns_what_the_system_delivers (on_stdout_read data_arrives)
                async_pipe_ctor empty_world) as [H1 _].
  pose proof (read_returns_what_the_system_delivers
                (ReadAnswers (Fail 5) WAIT_OBJECT_0 0 (Done "late")) pending_pipe
                empty_world) as [_ [H2 _]].
  split.
  - now rewrite (H1 "out" eq_refl eq_refl).
  - rewrite (H2 "late" eq_refl); [reflexivity | discriminate | reflexivity].
Defined.

Lemma pending_pipe_reads_again_only_after_completion_witness :
  forallb incomplete [no_data; pipe_broke; no_data] = true /\
  pending_ (fst (read_repeatedly [no_data; pipe_broke; no_data] pending_pipe
                   empty_world)) = true /\
  count is_ReadFile
    (w_sys (snd (read_repeatedly [no_data; pipe_broke; no_data] pending_pipe
                   empty_world))) = 0.
Proof.
  split; [reflexivity |].
  exact (pending_pipe_reads_again_only_after_completion
           [no_data; pipe_broke; no_data] pending_pipe empty_world
           eq_refl eq_refl).
Defined.

Lemma read_pipes_forwards_stdout_then_stderr_witness :
  w_log (snd (read_pipes whole_chunk data_arrives (named_child noflags) empty_world))
    = [Log context.std_out context.trace "out";
       Log context.std_err context.error "err"].
Proof.
  exact (proj2 (read_pipes_forwards_stdout_then_stderr whole_chunk data_arrives
                  (named_child noflags) empty_world "out" "err" I I
                  eq_refl eq_refl)).
Defined.

Lemma do_b2_builds_the_command_of_b2_witness :
  (exists p,
     do_b2 0 1 2 "C:\build" backslash "1.72.0" "14.2" "14.2" matches_1_72_0
       replace_character (fun _ => []) false ["thread"; "locale"] "static"
       "static" 1 tt empty_world
       = (Ok p, tt, empty_world) /\
     make_cmd p
       = (dquote ++ "C:\build\boost_1_72_0\b2" ++ dquote
          ++ " address-model=64 link=static runtime-link=static toolset=msvc-14.2"
          ++ " --user-config=" ++ dquote
          ++ "C:\build\boost_1_72_0\user-config-64.jam" ++ dquote
          ++ " --stagedir=" ++ dquote
          ++ "C:\build\boost_1_72_0\lib64-msvc-14.2" ++ dquote
          ++ " --libdir=" ++ dquote
          ++ "C:\build\boost_1_72_0\lib64-msvc-14.2" ++ dquote
          ++ " --with-thread  --with-locale ")%string /\
     cwd_ p = "C:\build\boost_1_72_0") /\
  do_b2 0 1 2 "C:\build" backslash "1.72x" "14.2" "14.2" matches_1_72_0
    replace_character (fun _ => []) false ["thread"; "locale"] "static"
    "static" 1 tt empty_world
    = (Bailed "bad boost version '1.72x'" None, tt, empty_world).
Proof.
  split.
  - destruct (proj1 (proj2 (do_b2_builds_the_command_of_b2 0 1 2 "C:\build"
                              backslash "1.72.0" "14.2" "14.2" matches_1_72_0
                              replace_character (fun _ => []) false
                              ["thread"; "locale"] "static" "static" 1
                              empty_world)
                       _ eq_refl) eq_refl) as [p [Hp [Hc [Hd _]]]].
    exists p. split; [exact Hp |]. split; [exact Hc | exact Hd].
  - exact (proj1 (do_b2_builds_the_command_of_b2 0 1 2 "C:\build" backslash
                    "1.72x" "14.2" "14.2" matches_1_72_0 replace_character
                    (fun _ => []) false ["thread"; "locale"] "static" "static" 1
                    empty_world) eq_refl).
Defined.
